(** * pflow: augmentation pipeline and geometry utilities

    A shallow embedding of [pflow/typedef.py], [pflow/polygons.py],
    [pflow/tools/augmentations.py], [pflow/tools/dataset.py] and the loading
    of images in [pflow/tools/base.py].

    Conventions.
    - Python floats are read as exact rationals ([Q]), so nothing stated
      here turns on how doubles round, the percentage check of
      [re_split_dataset] apart, whose arithmetic is an interface; [int] is
      [Z]; [str] is [string]; lists and tuples are [list].
    - A Python call that may raise returns a [result]; [try/except Exception]
      is [try_except].
    - The third-party libraries (OpenCV, albumentations, shapely) are
      interfaces: type classes whose operations are parameters of the model.
      What the code itself computes around them is written out. *)

From Stdlib Require Import String Ascii DecimalString DecimalPos DecimalZ.
From Stdlib Require Import ZArith QArith Qround Qabs Bool Lia Lqa List Permutation Sorted.
Import ListNotations.

Local Open Scope string_scope.
Local Open Scope list_scope.
Local Open Scope Z_scope.

(** ** Exceptions and the error monad *)

Inductive exn : Type :=
| ValueError (msg : string)
| IndexError
| KeyError
| AttributeError
| TypeError
| ZeroDivisionError
| LibraryError (msg : string).

Inductive result (A : Type) : Type :=
| Ok (a : A)
| Raise (e : exn).

Arguments Ok {A} a.
Arguments Raise {A} e.

Definition bind {A B : Type} (m : result A) (k : A -> result B) : result B :=
  match m with
  | Ok a => k a
  | Raise e => Raise e
  end.

Declare Scope py_scope.
Delimit Scope py_scope with py.
Notation "x <- m ;; k" := (bind m (fun x => k))
  (at level 61, m at next level, right associativity) : py_scope.
Notation "' pat <- m ;; k" := (bind m (fun x => match x with pat => k end))
  (at level 61, pat pattern, m at next level, right associativity) : py_scope.
Local Open Scope py_scope.

(** [try: body  except Exception: handler]. *)
Definition try_except {A : Type} (body : result A) (handler : exn -> result A)
  : result A :=
  match body with
  | Ok a => Ok a
  | Raise e => handler e
  end.

(** A [for] loop whose body may raise: the first exception leaves the loop. *)
Fixpoint for_each {A S : Type} (body : S -> A -> result S) (l : list A) (s : S)
  : result S :=
  match l with
  | [] => Ok s
  | x :: t => s' <- body s x ;; for_each body t s'
  end.

(** A list comprehension whose element expression may raise. *)
Fixpoint map_result {A B : Type} (f : A -> result B) (l : list A)
  : result (list B) :=
  match l with
  | [] => Ok []
  | x :: t => y <- f x ;; ys <- map_result f t ;; Ok (y :: ys)
  end.

(** ** Python built-ins used by the code *)

Definition Qlt_bool (a b : Q) : bool := negb (Qle_bool b a).

(** [min(xs)]: the first smallest element; an empty argument raises. *)
Definition py_min (l : list Q) : result Q :=
  match l with
  | [] => Raise (ValueError "min() arg is an empty sequence")
  | x :: t => Ok (fold_left (fun m v => if Qlt_bool v m then v else m) t x)
  end.

(** [max(xs)]: the first largest element; an empty argument raises. *)
Definition py_max (l : list Q) : result Q :=
  match l with
  | [] => Raise (ValueError "max() arg is an empty sequence")
  | x :: t => Ok (fold_left (fun m v => if Qlt_bool m v then v else m) t x)
  end.

(** [sum(xs)]. *)
Definition py_sum (l : list Q) : Q := fold_left Qplus l (0 # 1)%Q.

(** [int(x)] on a float: truncation towards zero. *)
Definition py_int (q : Q) : Z := Z.quot (Qnum q) (Zpos (Qden q)).

(** Rounding to the nearest integer, ties to even. *)
Definition round_half_even (q : Q) : Z :=
  let f := Qfloor q in
  let r := (q - inject_Z f)%Q in
  if Qlt_bool r (1 # 2) then f
  else if Qlt_bool (1 # 2) r then f + 1
  else if Z.even f then f else f + 1.

(** [round(x, ndigits)]. *)
Definition py_round (q : Q) (ndigits : nat) : Q :=
  let scale := inject_Z (10 ^ Z.of_nat ndigits) in
  (inject_Z (round_half_even (q * scale)) / scale)%Q.

(** [a / b] on floats. *)
Definition py_div (a b : Q) : result Q :=
  if Qeq_bool b (0 # 1) then Raise ZeroDivisionError else Ok (a / b)%Q.

(** [str(n)] for an [int]. *)
Definition str_int (n : Z) : string := NilZero.string_of_int (Z.to_int n).

(** [range(n)]. *)
Definition py_range (n : Z) : list Z := map Z.of_nat (seq 0 (Z.to_nat n)).

(** [enumerate(xs)] counted from [start]. *)
Fixpoint enumerate_from {A : Type} (start : Z) (l : list A) : list (Z * A) :=
  match l with
  | [] => []
  | x :: t => (start, x) :: enumerate_from (start + 1) t
  end.

Definition enumerate {A : Type} (l : list A) : list (Z * A) := enumerate_from 0 l.

(** [xs[i]] for a non-negative or negative [int] index. *)
Definition py_index {A : Type} (l : list A) (i : Z) : result A :=
  let n := Z.of_nat (length l) in
  let j := if i <? 0 then i + n else i in
  if (j <? 0) || (n <=? j) then Raise IndexError
  else match nth_error l (Z.to_nat j) with
       | Some x => Ok x
       | None => Raise IndexError
       end.

(** [xs[::2]] and [xs[1::2]]. *)
Fixpoint slice_even {A : Type} (l : list A) : list A :=
  match l with
  | [] => []
  | [x] => [x]
  | x :: _ :: t => x :: slice_even t
  end.

Definition slice_odd {A : Type} (l : list A) : list A := slice_even (tl l).

(** ** typedef.py *)

Record Category : Type := mkCategory {
  category_id_of : Z;
  category_name_of : string
}.

Definition bbox_t : Type := (Q * Q * Q * Q)%type.
Definition polygon_t : Type := list Q.

Record Annotation : Type := mkAnnotation {
  ann_id : string;
  ann_category_id : Z;
  ann_center : option (Q * Q);
  ann_bbox : option bbox_t;
  ann_segmentation : option polygon_t;
  ann_task : string;
  ann_conf : Q;
  ann_category_name : string;
  ann_tags : list string
}.

(** [Image.intermediate_ids] is annotated [List[int]]; the code appends image
    ids, which are [str], so an element is either. *)
Inductive lineage_id : Type :=
| IntId (n : Z)
| StrId (s : string).

Record Image : Type := mkImage {
  img_id : string;
  img_path : string;
  img_intermediate_ids : list lineage_id;
  img_width : Z;
  img_height : Z;
  img_size_kb : Z;
  img_group : string;
  img_annotations : list Annotation
}.

(** The dataclass as declared: two fields. *)
Record Dataset : Type := mkDataset {
  ds_images : list Image;
  ds_categories : list Category
}.

(** ** polygons.py *)

Definition ROUNDING : nat := 6.

Definition calculate_center_from_bbox (bbox : bbox_t) : Q * Q :=
  let '(x1, y1, x2, y2) := bbox in
  (py_round ((x1 + x2) / (2 # 1)) ROUNDING, py_round ((y1 + y2) / (2 # 1)) ROUNDING)%Q.

Definition calculate_center_from_polygon (polygon : polygon_t) : result (Q * Q) :=
  let x := slice_even polygon in
  let y := slice_odd polygon in
  cx <- py_div (py_sum x) (inject_Z (Z.of_nat (length x))) ;;
  cy <- py_div (py_sum y) (inject_Z (Z.of_nat (length y))) ;;
  Ok (py_round cx ROUNDING, py_round cy ROUNDING).

Definition polygon_from_bbox (bbox : bbox_t) : polygon_t :=
  let '(x1, y1, x2, y2) := bbox in
  [x1; y1; x2; y1; x2; y2; x1; y2].

Definition bbox_from_polygon (polygon : polygon_t) : result bbox_t :=
  let x := slice_even polygon in
  let y := slice_odd polygon in
  x1 <- py_min x ;;
  y1 <- py_min y ;;
  x2 <- py_max x ;;
  y2 <- py_max y ;;
  Ok (x1, y1, x2, y2).

Definition get_bbox (x1 y1 x2 y2 : Q) : bbox_t := (x1, y1, x2, y2).

Definition get_biggest_bbox (bbox new_bbox : bbox_t) : bbox_t :=
  let '(x1, y1, x2, y2) := bbox in
  let '(x1_new, y1_new, x2_new, y2_new) := new_bbox in
  get_bbox (if Qlt_bool x1_new x1 then x1_new else x1)
           (if Qlt_bool y1_new y1 then y1_new else y1)
           (if Qlt_bool x2 x2_new then x2_new else x2)
           (if Qlt_bool y2 y2_new then y2_new else y2).

(** Lines 36-43: the box around the boxes of the annotations that have
    one. *)
Definition get_min_max_bbox (annotations : list Annotation) : result (option bbox_t) :=
  let boxes :=
    flat_map (fun annotation =>
                match ann_bbox annotation with
                | Some bbox => [bbox]
                | None => []
                end) annotations in
  match boxes with
  | [] => Ok None
  | _ :: _ =>
      x1 <- py_min (map (fun b : bbox_t => fst (fst (fst b))) boxes) ;;
      y1 <- py_min (map (fun b : bbox_t => snd (fst (fst b))) boxes) ;;
      x2 <- py_max (map (fun b : bbox_t => snd (fst b)) boxes) ;;
      y2 <- py_max (map (fun b : bbox_t => snd b) boxes) ;;
      Ok (Some (get_bbox x1 y1 x2 y2))
  end.

(** ** shapely: geometries *)

Definition point : Type := (Q * Q)%type.

(** A polygon is a closed exterior ring and its holes; what the overlay
    operations return may also be a multi-part polygon or a geometry of
    another kind (an empty or mixed collection). *)
Inductive geometry : Type :=
| PolygonGeom (shell : list point) (holes : list (list point))
| MultiPolygonGeom (parts : list (list point * list (list point)))
| OtherGeom.

(** The overlay operations of the library; on a geometry it cannot process
    an overlay raises. *)
Class Shapely : Type := {
  union : geometry -> geometry -> result geometry;
  intersection : geometry -> geometry -> result geometry;
  convex_hull : geometry -> geometry
}.

Definition point_eqb (p q : point) : bool :=
  Qeq_bool (fst p) (fst q) && Qeq_bool (snd p) (snd q).

(** Closing a coordinate sequence: the first coordinate is repeated at the end
    unless the sequence already ends with it (a sequence of three coordinates
    is always extended). *)
Definition close_ring (pts : list point) : list point :=
  match pts with
  | [] => []
  | p0 :: _ =>
      if point_eqb p0 (last pts p0) && negb (length pts =? 3)%nat
      then pts
      else pts ++ [p0]
  end.

(** The ring built from a coordinate sequence: an empty sequence gives the
    empty ring, one or two coordinates are refused, three or more are
    closed. *)
Definition linear_ring (pts : list point) : result (list point) :=
  match pts with
  | [] => Ok []
  | _ :: _ =>
      if (length pts <? 3)%nat
      then Raise (ValueError "A linearring requires at least 4 coordinates.")
      else Ok (close_ring pts)
  end.

(** [Polygon(coords)]. *)
Definition Polygon (pts : list point) : result geometry :=
  shell <- linear_ring pts ;; Ok (PolygonGeom shell []).

(** [Polygon(geom)]: a polygon is taken as it is, another geometry is
    refused. *)
Definition Polygon_of_geometry (g : geometry) : result geometry :=
  match g with
  | PolygonGeom _ _ => Ok g
  | _ => Raise TypeError
  end.

(** [isinstance(geom, MultiPolygon)]. *)
Definition is_MultiPolygon (g : geometry) : bool :=
  match g with
  | MultiPolygonGeom _ => true
  | _ => false
  end.

(** [geom.exterior.coords]. *)
Definition exterior_coords (g : geometry) : result (list point) :=
  match g with
  | PolygonGeom shell _ => Ok shell
  | _ => Raise AttributeError
  end.

Definition cross (p q : point) : Q := (fst p * snd q - fst q * snd p)%Q.

(** Twice the signed area of the ring through [first], ..., [prev], [rest],
    back to [first]. *)
Fixpoint shoelace_from (first prev : point) (rest : list point) : Q :=
  match rest with
  | [] => cross prev first
  | p :: t => (cross prev p + shoelace_from first p t)%Q
  end.

Definition signed_area2 (ring : list point) : Q :=
  match ring with
  | [] => 0%Q
  | p :: t => shoelace_from p p t
  end.

Definition ring_area (ring : list point) : Q :=
  (Qabs (signed_area2 ring) / (2 # 1))%Q.

(** [geom.area]. *)
Definition area (g : geometry) : Q :=
  match g with
  | PolygonGeom shell holes =>
      (ring_area shell - py_sum (map ring_area holes))%Q
  | MultiPolygonGeom parts =>
      py_sum (map (fun part => ring_area (fst part)
                               - py_sum (map ring_area (snd part)))%Q parts)
  | OtherGeom => 0%Q
  end.

(** [zip(polygon[::2], polygon[1::2])]. *)
Definition points_of (polygon : polygon_t) : list point :=
  combine (slice_even polygon) (slice_odd polygon).

(** [[coord for point in coords for coord in point]]. *)
Definition flatten_points (pts : list point) : polygon_t :=
  flat_map (fun p => [fst p; snd p]) pts.

(** The area enclosed by a flat coordinate tuple. *)
Definition polygon_area (polygon : polygon_t) : Q := ring_area (points_of polygon).

(** ** polygons.py: merge_polygons *)

Section Merge.
Context {shapely : Shapely}.

(** Lines 59-67: collapse a multi-part union to its convex hull and flatten
    the exterior ring. *)
Definition merged_to_tuple (merged_polygon : geometry) : result polygon_t :=
  merged_polygon <-
    (if is_MultiPolygon merged_polygon
     then Polygon_of_geometry (convex_hull merged_polygon)
     else Ok merged_polygon) ;;
  merged_coords <- exterior_coords merged_polygon ;;
  Ok (flatten_points merged_coords).

Definition merge_polygons (polygons : list polygon_t) : result polygon_t :=
  all_polygons <- map_result (fun polygon => Polygon (points_of polygon)) polygons ;;
  merged_polygon <- py_index all_polygons 0 ;;
  merged_polygon <- for_each union (tl all_polygons) merged_polygon ;;
  merged_to_tuple merged_polygon.

End Merge.

(** ** numpy and OpenCV data *)

(** What [cv2.imread] returns for a readable file: [shape[:2]] and the pixel
    data. *)
Record ndarray_image : Type := mkNdarray {
  shape_h : Z;
  shape_w : Z;
  pixels : list Z
}.

(** A single-channel label mask, row by row. *)
Definition mask_t : Type := list (list Z).

(** A contour: its points (x, y). *)
Definition contour_t : Type := list (Z * Z).

Class Cv2 : Type := {
  (** [None] when the file is missing or cannot be decoded. *)
  imread : string -> option ndarray_image;
  imwrite : string -> ndarray_image -> result bool;
  fillPoly : mask_t -> list (Z * Z) -> Z -> mask_t;
  (** External contours of a binary mask, simple chain approximation. *)
  findContours : mask_t -> list contour_t;
  contourArea : contour_t -> Q;
  arcLength : contour_t -> bool -> Q;
  approxPolyDP : contour_t -> Q -> bool -> contour_t
}.

(** The composed transform applied to an image and its mask. Its random
    draws are the [seed] of the call; building or applying it may raise. *)
Class Albumentations : Type := {
  transform : nat -> ndarray_image -> mask_t -> result (ndarray_image * mask_t)
}.

Class Os : Type := {
  makedirs : string -> result unit
}.

(** [np.zeros((height, width))]. *)
Definition np_zeros (height width : Z) : mask_t :=
  repeat (repeat 0 (Z.to_nat width)) (Z.to_nat height).

(** [(mask == value).astype(np.uint8)]. *)
Definition mask_eq (mask : mask_t) (value : Z) : mask_t :=
  map (map (fun v => if v =? value then 1 else 0)) mask.

Fixpoint insert_unique (v : Z) (l : list Z) : list Z :=
  match l with
  | [] => [v]
  | x :: t =>
      if v <? x then v :: l
      else if v =? x then l
      else x :: insert_unique v t
  end.

(** [np.unique(mask)]: the distinct values, ascending. *)
Definition np_unique (mask : mask_t) : list Z :=
  fold_right insert_unique [] (concat mask).

(** [[data[i : i + 2] for i in range(0, len(data), 2)]] on an even-length
    list. *)
Definition chunk_pairs (data : list Z) : list (Z * Z) :=
  combine (slice_even data) (slice_odd data).

(** ** tools/augmentations.py *)

Section Augmentations.
Context {cv2 : Cv2} {albumentations : Albumentations} {shapely : Shapely} {os : Os}.

Definition find_biggest_contour (contours : list contour_t) : option contour_t :=
  snd (fold_left
         (fun (acc : Q * option contour_t) contour =>
            let area := contourArea contour in
            if Qlt_bool (fst acc) area then (area, Some contour) else acc)
         contours (0%Q, None)).

(** [for point in contour.squeeze(): polygon.append(point[0]);
    polygon.append(point[1])]. A contour of one point squeezes to a flat
    pair, whose elements cannot be indexed. *)
Definition squeeze_points (contour : contour_t) : result (list Z) :=
  match contour with
  | [_] => Raise IndexError
  | _ => Ok (flat_map (fun p => [fst p; snd p]) contour)
  end.

Definition get_new_polygon (transformed_mask : mask_t) (polygon_id width height : Z)
  : result polygon_t :=
  let contours := findContours (mask_eq transformed_mask polygon_id) in
  match find_biggest_contour contours with
  | None => Raise (ValueError "No contour found")
  | Some contour =>
      let epsilon := ((3 # 1000) * arcLength contour true)%Q in
      let smoothed_contour := approxPolyDP contour epsilon true in
      polygon <- try_except (squeeze_points smoothed_contour)
                            (fun _ => squeeze_points contour) ;;
      Ok (map (fun ip : Z * Z =>
                 if Z.even (fst ip)
                 then py_round (inject_Z (snd ip) / inject_Z width) 5
                 else py_round (inject_Z (snd ip) / inject_Z height) 5)
              (enumerate polygon))
  end.

(** [np.array(a).reshape(-1, 2)]. *)
Definition reshape_pairs (a : polygon_t) : result (list point) :=
  if Nat.even (length a) then Ok (points_of a)
  else Raise (ValueError "cannot reshape array into shape (2)").

Definition iou_polygons (a b : polygon_t) : result Q :=
  a_array <- reshape_pairs a ;;
  b_array <- reshape_pairs b ;;
  poly_a <- Polygon a_array ;;
  poly_b <- Polygon b_array ;;
  inter <- intersection poly_a poly_b ;;
  let intersection_area := area inter in
  let union_area := (area poly_a + area poly_b - intersection_area)%Q in
  py_div intersection_area union_area.

(** Lines 85-90: back to pixel coordinates. *)
Definition to_pixel_space (new_polygon : polygon_t) (width height : Z) : list Z :=
  map (fun iel : Z * Q =>
         if Z.even (fst iel)
         then py_int (snd iel * inject_Z width)
         else py_int (snd iel * inject_Z height))
      (enumerate new_polygon).

(** The body of the loop of [get_new_polygons] for one value of the mask. *)
Definition recover_one (transformed_mask : mask_t) (polygons : list (list Z))
  (width height : Z) (new_polygons : list polygon_t) (polygon_id : Z)
  : result (list polygon_t) :=
  if 0 <? polygon_id then
    new_polygon <- get_new_polygon transformed_mask polygon_id width height ;;
    let new_polygon_hw := to_pixel_space new_polygon width height in
    original <- py_index polygons (polygon_id - 1) ;;
    calculated_iou <- iou_polygons (map inject_Z new_polygon_hw)
                                   (map inject_Z original) ;;
    if Qlt_bool calculated_iou (3 # 10)
    then Raise (ValueError "IoU is too low")
    else Ok (new_polygons ++ [new_polygon])
  else Ok new_polygons.

Definition get_new_polygons (transformed_mask : mask_t) (polygons : list (list Z))
  (width height : Z) : result (list polygon_t) :=
  for_each (recover_one transformed_mask polygons width height)
           (np_unique transformed_mask) [].

(** The record a successful job returns. *)
Record augmented_info : Type := mkInfo {
  info_path : string;
  info_segments : list polygon_t;
  info_id : string;
  info_original_id : string;
  info_image_index : Z
}.

(** Lines 113-117: one normalised polygon to pixel coordinates; reading
    [polygon_raw[i + 1]] past the end raises. *)
Fixpoint denormalize (width height : Z) (polygon_raw : polygon_t) : result (list Z) :=
  match polygon_raw with
  | [] => Ok []
  | [_] => Raise IndexError
  | x :: y :: rest =>
      polygon <- denormalize width height rest ;;
      Ok (py_int (inject_Z width * x) :: py_int (inject_Z height * y) :: polygon)
  end.

(** Lines 140-146: the label mask, polygon [index] drawn with value
    [index + 1], later polygons over earlier ones. *)
Definition rasterize (height width : Z) (polygons : list (list Z)) : mask_t :=
  fold_left (fun mask (ip : Z * list Z) =>
               fillPoly mask (chunk_pairs (snd ip)) (fst ip + 1))
            (enumerate polygons) (np_zeros height width).

(** Lines 122-158: the body of the [try] block. *)
Definition augment_guarded (seed : nat) (image : ndarray_image)
  (height width : Z) (polygons : list (list Z))
  : result (ndarray_image * list polygon_t) :=
  let mask := rasterize height width polygons in
  transformed <- transform seed image mask ;;
  let transformed_image := fst transformed in
  let transformed_mask := snd transformed in
  new_polygons <- get_new_polygons transformed_mask polygons width height ;;
  if negb (length new_polygons =? length polygons)%nat
  then Raise (ValueError "Different number of polygons")
  else Ok (transformed_image, new_polygons).

(** The job. What the [try] block raises is answered by [return None]
    (lines 160-161); the image is read and the segments are brought to pixel
    coordinates before the block is entered. *)
Definition generate_augmented_image (seed : nat) (image_id image_path : string)
  (segments : list polygon_t) (target_folder : string) (new_index : Z)
  : result (option augmented_info) :=
  let new_id := (image_id ++ "_aug_" ++ str_int new_index)%string in
  let target_file := (target_folder ++ "/" ++ new_id ++ ".jpg")%string in
  match imread image_path with
  | None => Raise AttributeError
  | Some image =>
      let height := shape_h image in
      let width := shape_w image in
      polygons <- map_result (denormalize width height) segments ;;
      match augment_guarded seed image height width polygons with
      | Raise _ => Ok None
      | Ok (transformed_image, new_polygons) =>
          if (length new_polygons =? 0)%nat then Ok None
          else
            _ <- imwrite target_file transformed_image ;;
            Ok (Some {| info_path := target_file;
                        info_segments := new_polygons;
                        info_id := new_id;
                        info_original_id := image_id;
                        info_image_index := new_index |})
      end
  end.

End Augmentations.

(** ** The worker pool *)

(** Take the element at position [n] out of a list. *)
Fixpoint extract {A : Type} (n : nat) (l : list A) {struct l}
  : option (A * list A) :=
  match l with
  | [] => None
  | x :: t =>
      match n with
      | O => Some (x, t)
      | S n' =>
          match extract n' t with
          | Some (y, r) => Some (y, x :: r)
          | None => None
          end
      end
  end.

(** [as_completed(futures)]: the futures in the order in which they finish.
    The order is not fixed by the program; [picks] chooses, at each step, which
    of the pending futures finishes next (those left when [picks] runs out
    finish in submission order). *)
Fixpoint as_completed {A : Type} (picks : list nat) (futures : list A) : list A :=
  match picks with
  | [] => futures
  | p :: ps =>
      match extract (p mod length futures) futures with
      | Some (x, r) => x :: as_completed ps r
      | None => []
      end
  end.

Section Orchestrator.
Context {cv2 : Cv2} {albumentations : Albumentations} {shapely : Shapely} {os : Os}.

(** Lines 187-191. *)
Definition annotation_segments (image : Image) : list polygon_t :=
  flat_map (fun annotation =>
              match ann_segmentation annotation with
              | Some segmentation => [segmentation]
              | None => []
              end)
           (img_annotations image).

(** [original_images_by_id[key]] for the dict
    [{image.id: image for image in images}]: of several images with one id
    the last is kept. *)
Definition original_images_by_id (images : list Image) (key : string)
  : result Image :=
  match find (fun image => String.eqb (img_id image) key) (rev images) with
  | Some image => Ok image
  | None => Raise KeyError
  end.

(** Lines 219-229. *)
Definition augmented_annotation (image_index : Z) (annotation : Annotation)
  (new_segmentation : polygon_t) : result Annotation :=
  bbox <- bbox_from_polygon new_segmentation ;;
  center <- calculate_center_from_polygon new_segmentation ;;
  Ok {| ann_id := (ann_id annotation ++ "_" ++ str_int image_index)%string;
        ann_category_id := ann_category_id annotation;
        ann_center := Some center;
        ann_bbox := Some bbox;
        ann_segmentation := Some new_segmentation;
        ann_task := ann_task annotation;
        ann_conf := ann_conf annotation;
        ann_category_name := ann_category_name annotation;
        ann_tags := ann_tags annotation ++ ["augmented"] |}.

(** Lines 208-235: the [Image] assembled from a job's record. *)
Definition assemble (images : list Image) (new_image_info : augmented_info)
  : result Image :=
  original_image <- original_images_by_id images (info_original_id new_image_info) ;;
  annotations <-
    map_result (fun pair : Annotation * polygon_t =>
                  augmented_annotation (info_image_index new_image_info)
                                       (fst pair) (snd pair))
               (combine (img_annotations original_image)
                        (info_segments new_image_info)) ;;
  Ok {| img_id := info_id new_image_info;
        img_path := info_path new_image_info;
        img_intermediate_ids :=
          img_intermediate_ids original_image ++ [StrId (img_id original_image)];
        img_width := img_width original_image;
        img_height := img_height original_image;
        img_size_kb := img_size_kb original_image;
        img_group := img_group original_image;
        img_annotations := annotations |}.

(** Lines 203-236: the body of the loop over the finished futures;
    [future.result()] raises what the job raised. *)
Definition collect (images : list Image) (new_images : list Image)
  (future : result (option augmented_info)) : result (list Image) :=
  new_image_info <- future ;;
  match new_image_info with
  | None => Ok new_images
  | Some info =>
      new_image <- assemble images info ;;
      Ok (new_images ++ [new_image])
  end.

(** Lines 185-201: one job per image and replica index, in submission
    order. *)
Definition jobs_of (images : list Image) (number : Z) : list (Image * Z) :=
  flat_map (fun image => map (fun i => (image, i)) (py_range number)) images.

(** The job submitted for an image and a replica index. *)
Definition run_job (random_temp_folder : string) (seed : nat) (job : Image * Z)
  : result (option augmented_info) :=
  generate_augmented_image seed (img_id (fst job)) (img_path (fst job))
                           (annotation_segments (fst job))
                           random_temp_folder (snd job).

(** [uuid] is the value of [uuid4()], [seeds n] the random draws of the
    [n]-th submitted job. *)
Definition generate_augmentations (uuid : string) (seeds : nat -> nat)
  (picks : list nat) (images : list Image) (number : Z) : result (list Image) :=
  let random_temp_folder := ("/tmp/tmp_images_augmented/" ++ uuid)%string in
  _ <- makedirs random_temp_folder ;;
  let jobs := jobs_of images number in
  let futures :=
    map (fun nj : nat * (Image * Z) =>
           run_job random_temp_folder (seeds (fst nj)) (snd nj))
        (combine (seq 0 (length jobs)) jobs) in
  for_each (collect images) (as_completed picks futures) [].

(** *** Attributes of a [Dataset] instance *)

Inductive attr_value : Type :=
| ImagesValue (images : list Image)
| CategoriesValue (categories : list Category)
| GroupsValue (groups : list string).

(** The fields the dataclass declares (typedef.py, lines 39-42). *)
Definition Dataset_fields : list string := ["images"; "categories"].

(** [dataset.name]: an instance has the attributes its class declares. *)
Definition Dataset_getattr (dataset : Dataset) (name : string) : result attr_value :=
  if String.eqb name "images" then Ok (ImagesValue (ds_images dataset))
  else if String.eqb name "categories" then Ok (CategoriesValue (ds_categories dataset))
  else Raise AttributeError.

Definition keyword (name : string) (kwargs : list (string * attr_value))
  : option attr_value :=
  option_map snd (find (fun kw => String.eqb (fst kw) name) kwargs).

(** A call of the class with keyword arguments: the generated [__init__]
    takes the declared fields; a keyword it does not declare, or a missing
    field, is a [TypeError]. *)
Definition Dataset_init (kwargs : list (string * attr_value)) : result Dataset :=
  if forallb (fun kw => existsb (String.eqb (fst kw)) Dataset_fields) kwargs
  then match keyword "images" kwargs, keyword "categories" kwargs with
       | Some (ImagesValue images), Some (CategoriesValue categories) =>
           Ok {| ds_images := images; ds_categories := categories |}
       | _, _ => Raise TypeError
       end
  else Raise TypeError.

Definition generic (uuid : string) (seeds : nat -> nat) (picks : list nat)
  (dataset : Dataset) (number : Z) : result Dataset :=
  augmented_images <-
    generate_augmentations uuid seeds picks (ds_images dataset) number ;;
  groups <- Dataset_getattr dataset "groups" ;;
  Dataset_init [("images", ImagesValue (ds_images dataset ++ augmented_images));
                ("categories", CategoriesValue (ds_categories dataset));
                ("groups", groups)].

End Orchestrator.

(** ** A small world of axis-parallel rectangles

    Instances of the library interfaces that are exact on axis-parallel
    rectangles: filling, contours and overlays all work on bounding boxes.
    They give the examples below something to run on. *)

Module RectWorld.

Definition zbounds (pts : list (Z * Z)) : option (Z * Z * Z * Z) :=
  match pts with
  | [] => None
  | p :: t =>
      Some (fold_left
              (fun (b : Z * Z * Z * Z) (q : Z * Z) =>
                 let '(x0, y0, x1, y1) := b in
                 (Z.min x0 (fst q), Z.min y0 (snd q),
                  Z.max x1 (fst q), Z.max y1 (snd q)))
              t (fst p, snd p, fst p, snd p))
  end.

Definition fill_box (mask : mask_t) (pts : list (Z * Z)) (color : Z) : mask_t :=
  match zbounds pts with
  | None => mask
  | Some (x0, y0, x1, y1) =>
      map (fun yr : Z * list Z =>
             map (fun xv : Z * Z =>
                    if (x0 <=? fst xv) && (fst xv <=? x1)
                       && (y0 <=? fst yr) && (fst yr <=? y1)
                    then color else snd xv)
                 (enumerate (snd yr)))
          (enumerate mask)
  end.

Definition set_cells (mask : mask_t) : list (Z * Z) :=
  flat_map (fun yr : Z * list Z =>
              flat_map (fun xv : Z * Z =>
                          if snd xv =? 0 then [] else [(fst xv, fst yr)])
                       (enumerate (snd yr)))
           (enumerate mask).

Definition box_contours (mask : mask_t) : list contour_t :=
  match zbounds (set_cells mask) with
  | None => []
  | Some (x0, y0, x1, y1) => [[(x0, y0); (x1, y0); (x1, y1); (x0, y1)]]
  end.

Definition zpoint (p : Z * Z) : point := (inject_Z (fst p), inject_Z (snd p)).

Definition box_perimeter (contour : contour_t) : Q :=
  match zbounds contour with
  | None => 0%Q
  | Some (x0, y0, x1, y1) => inject_Z (2 * ((x1 - x0) + (y1 - y0)))
  end.

(** Every file can be read (as a 10 x 10 image) except [missing.jpg]. *)
#[export] Instance cv2 : Cv2 := {|
  imread := fun path =>
    if String.eqb path "missing.jpg" then None
    else Some {| shape_h := 10; shape_w := 10; pixels := [] |};
  imwrite := fun _ _ => Ok true;
  fillPoly := fill_box;
  findContours := box_contours;
  contourArea := fun contour => ring_area (map zpoint contour);
  arcLength := fun contour _ => box_perimeter contour;
  approxPolyDP := fun contour _ _ => contour
|}.

(** Seed 0 leaves image and mask as they are, seed 1 loses the object
    labelled 2, seed 2 mirrors the mask, any other seed fails. *)
#[export] Instance albumentations : Albumentations := {|
  transform := fun seed image mask =>
    match seed with
    | 0%nat => Ok (image, mask)
    | 1%nat => Ok (image, map (map (fun v => if v =? 2 then 0 else v)) mask)
    | 2%nat => Ok (image, map (@rev Z) mask)
    | _ => Raise (LibraryError "transform failed")
    end
|}.

Definition qmin (a b : Q) : Q := if Qlt_bool b a then b else a.
Definition qmax (a b : Q) : Q := if Qlt_bool a b then b else a.

Definition qbounds (pts : list point) : option bbox_t :=
  match pts with
  | [] => None
  | p :: t =>
      Some (fold_left
              (fun (b : bbox_t) (q : point) =>
                 let '(x0, y0, x1, y1) := b in
                 (qmin x0 (fst q), qmin y0 (snd q),
                  qmax x1 (fst q), qmax y1 (snd q)))
              t (fst p, snd p, fst p, snd p))
  end.

Definition geometry_points (g : geometry) : list point :=
  match g with
  | PolygonGeom shell _ => shell
  | MultiPolygonGeom parts => flat_map fst parts
  | OtherGeom => []
  end.

Definition box_geometry (b : bbox_t) : geometry :=
  let '(x0, y0, x1, y1) := b in
  PolygonGeom [(x0, y0); (x1, y0); (x1, y1); (x0, y1); (x0, y0)] [].

Definition empty_polygon : geometry := PolygonGeom [] [].

Definition overlap (a b : bbox_t) : option bbox_t :=
  let '(ax0, ay0, ax1, ay1) := a in
  let '(bx0, by0, bx1, by1) := b in
  let x0 := qmax ax0 bx0 in
  let y0 := qmax ay0 by0 in
  let x1 := qmin ax1 bx1 in
  let y1 := qmin ay1 by1 in
  if Qlt_bool x0 x1 && Qlt_bool y0 y1 then Some (x0, y0, x1, y1) else None.

Definition hull (a b : bbox_t) : bbox_t :=
  let '(ax0, ay0, ax1, ay1) := a in
  let '(bx0, by0, bx1, by1) := b in
  (qmin ax0 bx0, qmin ay0 by0, qmax ax1 bx1, qmax ay1 by1).

Definition parts_of (g : geometry) : list (list point * list (list point)) :=
  match g with
  | PolygonGeom shell holes => [(shell, holes)]
  | MultiPolygonGeom parts => parts
  | OtherGeom => []
  end.

#[export] Instance shapely : Shapely := {|
  union := fun a b =>
    match qbounds (geometry_points a), qbounds (geometry_points b) with
    | Some ba, Some bb =>
        match overlap ba bb with
        | Some _ => Ok (box_geometry (hull ba bb))
        | None => Ok (MultiPolygonGeom (parts_of a ++ parts_of b))
        end
    | Some _, None => Ok a
    | None, _ => Ok b
    end;
  intersection := fun a b =>
    match qbounds (geometry_points a), qbounds (geometry_points b) with
    | Some ba, Some bb =>
        match overlap ba bb with
        | Some box => Ok (box_geometry box)
        | None => Ok empty_polygon
        end
    | _, _ => Ok empty_polygon
    end;
  convex_hull := fun g =>
    match qbounds (geometry_points g) with
    | Some box => box_geometry box
    | None => empty_polygon
    end
|}.

#[export] Instance os : Os := {| makedirs := fun _ => Ok tt |}.

(** The unit square scaled to (0.1, 0.1)-(0.9, 0.9), and two smaller boxes. *)
Definition square : polygon_t :=
  [1 # 10; 1 # 10; 9 # 10; 1 # 10; 9 # 10; 9 # 10; 1 # 10; 9 # 10]%Q.
Definition left_box : polygon_t :=
  [1 # 10; 1 # 10; 3 # 10; 1 # 10; 3 # 10; 8 # 10; 1 # 10; 8 # 10]%Q.
Definition right_box : polygon_t :=
  [6 # 10; 2 # 10; 8 # 10; 2 # 10; 8 # 10; 7 # 10; 6 # 10; 7 # 10]%Q.

(** [left_box] in the pixels of a 10 x 10 image, its label mask, and that mask
    mirrored left to right. *)
Definition left_pixels : list Z := [1; 1; 3; 1; 3; 8; 1; 8].
Definition left_mask : mask_t := rasterize 10 10 [left_pixels].
Definition mirrored_mask : mask_t := map (@rev Z) left_mask.

Definition annotation (id : string) (segmentation : option polygon_t) : Annotation :=
  {| ann_id := id; ann_category_id := 0; ann_center := None; ann_bbox := None;
     ann_segmentation := segmentation; ann_task := "segment";
     ann_conf := (-1 # 1)%Q; ann_category_name := "cell"; ann_tags := ["raw"] |}.

Definition image (id path : string) (annotations : list Annotation) : Image :=
  {| img_id := id; img_path := path; img_intermediate_ids := [StrId "root"];
     img_width := 10; img_height := 10; img_size_kb := 1; img_group := "train";
     img_annotations := annotations |}.

(** A readable image with one object, and one whose file is not there. *)
Definition readable_image : Image :=
  image "a" "a.jpg" [annotation "s" (Some left_box)].
Definition unreadable_image : Image :=
  image "b" "missing.jpg" [annotation "s" (Some left_box)].

(** An image whose first annotation has no segmentation and whose second
    has one. *)
Definition mixed_image : Image :=
  image "c" "c.jpg" [annotation "n" None; annotation "s" (Some left_box)].

End RectWorld.

(** ** Vocabulary of the statements *)

(** A flat tuple that describes a polygon: whole coordinate pairs, at least
    three of them. *)
Definition valid_tuple (a : polygon_t) : Prop :=
  Nat.even (length a) = true /\ (3 <= length (points_of a))%nat.

(** The polygon [iou_polygons] builds from such a tuple. *)
Definition polygon_of_tuple (a : polygon_t) : geometry :=
  PolygonGeom (close_ring (points_of a)) [].

Section Acceptance.
Context {cv2 : Cv2} {shapely : Shapely}.

(** The values of the mask that stand for objects. *)
Definition positive_ids (mask : mask_t) : list Z :=
  filter (fun polygon_id => 0 <? polygon_id) (np_unique mask).

(** The pixel-space IoU of what was recovered for [polygon_id] against the
    original polygon of that id. *)
Definition recovered_iou (polygons : list (list Z)) (width height : Z)
  (polygon_id : Z) (new_polygon : polygon_t) : result Q :=
  original <- py_index polygons (polygon_id - 1) ;;
  iou_polygons (map inject_Z (to_pixel_space new_polygon width height))
               (map inject_Z original).

(** [new_polygon] is what the mask gives for [polygon_id], and its IoU is at
    least 0.30. *)
Definition accepted (mask : mask_t) (polygons : list (list Z)) (width height : Z)
  (polygon_id : Z) (new_polygon : polygon_t) : Prop :=
  get_new_polygon mask polygon_id width height = Ok new_polygon /\
  exists v, recovered_iou polygons width height polygon_id new_polygon = Ok v /\
            (3 # 10 <= v)%Q.

End Acceptance.


(** ** More built-ins *)

(** An index of a slice, brought into [0, n]. *)
Definition clamp_index (n i : Z) : Z :=
  if i <? 0 then Z.max 0 (i + n) else Z.min i n.

(** [xs[start:stop]]. *)
Definition py_slice {A : Type} (l : list A) (start stop : Z) : list A :=
  let n := Z.of_nat (length l) in
  let a := clamp_index n start in
  let b := clamp_index n stop in
  firstn (Z.to_nat (b - a)) (skipn (Z.to_nat a) l).

(** A comprehension with a condition that may raise. *)
Fixpoint filter_result {A : Type} (f : A -> result bool) (l : list A)
  : result (list A) :=
  match l with
  | [] => Ok []
  | x :: t =>
      keep <- f x ;;
      rest <- filter_result f t ;;
      Ok (if keep then x :: rest else rest)
  end.

(** [random.shuffle(xs)]: the permutation the draws [picks] choose. *)
Definition random_shuffle {A : Type} (picks : list nat) (l : list A) : list A :=
  as_completed picks l.

(** [Path(path).name]: the last component of a path, empty components and
    single dots apart. *)
Fixpoint split_on_slash (s : string) (current : string) : list string :=
  match s with
  | EmptyString => [current]
  | String c rest =>
      if Ascii.eqb c "/" then current :: split_on_slash rest EmptyString
      else split_on_slash rest (current ++ String c EmptyString)%string
  end.

Definition path_name (path : string) : string :=
  last (filter (fun part => negb (String.eqb part "" || String.eqb part "."))
               (split_on_slash path EmptyString))
       EmptyString.

(** ** tools/dataset.py *)

Definition calculate_total_images (total_images : Z)
  (train_percentage val_percentage test_percentage : Q)
  (num_augmented_images : Z) : result (Z * Z * Z) :=
  let train_total_images := py_int (inject_Z total_images * train_percentage) in
  let train_total_images_without_augmented :=
    train_total_images - num_augmented_images in
  let train_total_images :=
    if train_total_images_without_augmented <? 0
    then num_augmented_images
    else train_total_images_without_augmented in
  let remaining_images := total_images - train_total_images in
  ratio <- py_div val_percentage (val_percentage + test_percentage) ;;
  let val_total_images := py_int (inject_Z remaining_images * ratio) in
  let test_total_images := remaining_images - val_total_images in
  Ok (train_total_images, val_total_images, test_total_images).

(** [image.group = group_name]. *)
Definition set_group (group_name : string) (image : Image) : Image :=
  {| img_id := img_id image;
     img_path := img_path image;
     img_intermediate_ids := img_intermediate_ids image;
     img_width := img_width image;
     img_height := img_height image;
     img_size_kb := img_size_kb image;
     img_group := group_name;
     img_annotations := img_annotations image |}.

(** The image objects [assign_groups] works on: the elements of its two
    argument lists, each a distinct object, named by list and position. *)
Inductive image_ref : Type :=
| AugmentedRef (position : nat)
| ResplitRef (position : nat).

Definition image_ref_eqb (r s : image_ref) : bool :=
  match r, s with
  | AugmentedRef i, AugmentedRef j => Nat.eqb i j
  | ResplitRef i, ResplitRef j => Nat.eqb i j
  | _, _ => false
  end.

(** The assignments [assign_groups] makes, in program order: every augmented
    image to [train], then every image of each slice to the group of the
    slice. Each assignment also appends its object to the result. *)
Definition group_assignments (number_to_resplit number_augmented : nat)
  (groups_info : list (string * Z * Z)) : list (image_ref * string) :=
  map (fun i => (AugmentedRef i, "train")) (seq 0 number_augmented) ++
  flat_map (fun info : string * Z * Z =>
              map (fun j => (ResplitRef j, fst (fst info)))
                  (py_slice (seq 0 number_to_resplit)
                            (snd (fst info)) (snd info)))
           groups_info.

(** The group an object ends with: that of its last assignment. *)
Definition final_group (assignments : list (image_ref * string))
  (r : image_ref) (unassigned : string) : string :=
  match find (fun a => image_ref_eqb (fst a) r) (rev assignments) with
  | Some a => snd a
  | None => unassigned
  end.

Definition deref (images_to_resplit augmented_images : list Image)
  (r : image_ref) : option Image :=
  match r with
  | AugmentedRef i => nth_error augmented_images i
  | ResplitRef j => nth_error images_to_resplit j
  end.

(** The list [assign_groups] returns holds the objects in the order of the
    assignments; read after the call, each shows its final group. *)
Definition assign_groups (images_to_resplit augmented_images : list Image)
  (groups_info : list (string * Z * Z)) : list Image :=
  let assignments :=
    group_assignments (length images_to_resplit) (length augmented_images)
                      groups_info in
  flat_map (fun a : image_ref * string =>
              match deref images_to_resplit augmented_images (fst a) with
              | Some image =>
                  [set_group (final_group assignments (fst a) (img_group image))
                             image]
              | None => []
              end)
           assignments.

(** [image.tags]: the dataclass [Image] declares no such field (typedef.py,
    lines 27-36), so reading it raises. *)
Definition Image_tags (image : Image) : result (option (list string)) :=
  Raise AttributeError.

(** ["augmented" in (image.tags or [])]. *)
Definition has_augmented_tag (image : Image) : result bool :=
  tags <- Image_tags image ;;
  Ok (existsb (String.eqb "augmented")
              (match tags with Some t => t | None => [] end)).

(** An entry of [ids_by_group]. *)
Record id_entry : Type := mkIdEntry {
  entry_id : string;
  entry_name : string;
  entry_intermediate_ids : list lineage_id
}.

(** [d[key].append(entry)] on a dict of lists. *)
Fixpoint dict_append (d : list (string * list id_entry)) (key : string)
  (entry : id_entry) : result (list (string * list id_entry)) :=
  match d with
  | [] => Raise KeyError
  | (k, entries) :: rest =>
      if String.eqb k key then Ok ((k, entries ++ [entry]) :: rest)
      else
        rest' <- dict_append rest key entry ;;
        Ok ((k, entries) :: rest')
  end.

(** The percentage check turns on the last bit of a sum of doubles, so here
    the arithmetic of doubles is not read as that of the rationals: it is an
    interface, like the libraries. [float_of_Q] is the double a share stands
    for, [float_of_int] the conversion of an [int] operand, and [math_ceil]
    raises on a value that is not finite. *)
Class Float64 : Type := {
  float : Type;
  float_of_Q : Q -> float;
  float_of_int : Z -> float;
  float_add : float -> float -> float;
  float_mul : float -> float -> float;
  math_ceil : float -> result Z
}.

Section ReSplit.
Context {float64 : Float64}.

(** Lines 15-16: [math.ceil(total_percentage * 100)]. *)
Definition rounded_total_percentage
  (train_percentage val_percentage test_percentage : Q) : result Z :=
  let total_percentage :=
    float_add (float_add (float_of_Q train_percentage)
                         (float_of_Q val_percentage))
              (float_of_Q test_percentage) in
  math_ceil (float_mul total_percentage (float_of_int 100)).

Definition re_split_dataset (picks : list nat) (dataset : Dataset)
  (train_percentage val_percentage test_percentage : Q)
  : result (Dataset * list (string * list id_entry)) :=
  rounded_total <-
    rounded_total_percentage train_percentage val_percentage test_percentage ;;
  if negb (rounded_total =? 100)
  then Raise (ValueError "The sum of the percentages must be 1.0")
  else
    images_to_resplit <-
      filter_result (fun image => augmented <- has_augmented_tag image ;;
                                  Ok (negb augmented))
                    (ds_images dataset) ;;
    augmented_images <- filter_result has_augmented_tag (ds_images dataset) ;;
    let images_to_resplit := random_shuffle picks images_to_resplit in
    let total_images := Z.of_nat (length (ds_images dataset)) in
    totals <- calculate_total_images total_images train_percentage val_percentage
                                     test_percentage
                                     (Z.of_nat (length augmented_images)) ;;
    let train_total_images := fst (fst totals) in
    let val_total_images := snd (fst totals) in
    let test_total_images := snd totals in
    let groups_info :=
      [("train", 0, train_total_images);
       ("val", train_total_images, train_total_images + val_total_images);
       ("test", train_total_images + val_total_images, total_images)] in
    let images := assign_groups images_to_resplit augmented_images groups_info in
    let groups :=
      (if 0 <? train_total_images then ["train"] else []) ++
      (if 0 <? val_total_images then ["val"] else []) ++
      (if 0 <? test_total_images then ["test"] else []) in
    let images_ids_by_group := map (fun group => (group, [])) groups in
    images_ids_by_group <-
      for_each (fun d image =>
                  dict_append d (img_group image)
                    {| entry_id := img_id image;
                       entry_name := path_name (img_path image);
                       entry_intermediate_ids := img_intermediate_ids image |})
               images images_ids_by_group ;;
    new_dataset <-
      Dataset_init [("images", ImagesValue images);
                    ("categories", CategoriesValue (ds_categories dataset));
                    ("groups", GroupsValue groups)] ;;
    Ok (new_dataset, images_ids_by_group).

End ReSplit.

(** ** tools/base.py *)

(** Reading a folder is the file system's part: [check_folder], the listing
    and [get_image_info] behind [read_images_from_folder]. *)
Class Folders : Type := {
  read_images_from_folder : string -> bool -> result (list Image)
}.

(** Lines 83-92: an image whose id was seen is passed over. *)
Fixpoint remove_duplicated_ids (already_seen : list string) (images : list Image)
  : list Image :=
  match images with
  | [] => []
  | image :: rest =>
      if existsb (String.eqb (img_id image)) already_seen
      then remove_duplicated_ids already_seen rest
      else image :: remove_duplicated_ids (img_id image :: already_seen) rest
  end.

Section LoadImages.
Context {folders : Folders}.

(** Lines 77-81: the images of all folders, in order. *)
Definition read_all (paths : list string) (recursive : bool)
  : result (list Image) :=
  for_each (fun images folder_path =>
              found_images <- read_images_from_folder folder_path recursive ;;
              Ok (images ++ found_images))
           paths [].

(** [load_images] works on the dataset it is given: the first component is
    that object after the call, the second what the call returns or raises.
    [dataset.images] is extended in place before [dataset.groups] is read,
    and [Dataset] declares no [groups]. *)
Definition load_images (dataset : Dataset) (path : string)
  (paths : option (list string)) (recursive : bool) : Dataset * result Dataset :=
  let paths :=
    match paths with
    | Some (p :: ps) => p :: ps
    | _ => [path]
    end in
  match read_all paths recursive with
  | Raise e => (dataset, Raise e)
  | Ok images =>
      let new_images := remove_duplicated_ids [] images in
      let dataset :=
        {| ds_images := ds_images dataset ++ new_images;
           ds_categories := ds_categories dataset |} in
      (dataset, groups <- Dataset_getattr dataset "groups" ;; Ok dataset)
  end.

End LoadImages.

(** ** More vocabulary *)

(** A contour as [get_new_polygon] writes it down: x over the width and y
    over the height, each rounded to five decimals. *)
Definition normalize_points (width height : Z) (contour : contour_t) : polygon_t :=
  flat_map (fun p : Z * Z =>
              [py_round (inject_Z (fst p) / inject_Z width) 5;
               py_round (inject_Z (snd p) / inject_Z height) 5])
           contour.

(** The boxes of the annotations that have one. *)
Definition annotation_boxes (annotations : list Annotation) : list bbox_t :=
  flat_map (fun annotation =>
              match ann_bbox annotation with
              | Some bbox => [bbox]
              | None => []
              end) annotations.

(** [outer] reaches at least as far as [inner] on all four sides. *)
Definition box_encloses (outer inner : bbox_t) : Prop :=
  let '(X1, Y1, X2, Y2) := outer in
  let '(x1, y1, x2, y2) := inner in
  (X1 <= x1 /\ Y1 <= y1 /\ x2 <= X2 /\ y2 <= Y2)%Q.

(** The rectangle world on a disk that cannot be written: [cv2.imwrite]
    returns [False]. *)
Module ReadOnlyDisk.

#[export] Instance cv2 : Cv2 := {|
  imread := @imread RectWorld.cv2;
  imwrite := fun _ _ => Ok false;
  fillPoly := @fillPoly RectWorld.cv2;
  findContours := @findContours RectWorld.cv2;
  contourArea := @contourArea RectWorld.cv2;
  arcLength := @arcLength RectWorld.cv2;
  approxPolyDP := @approxPolyDP RectWorld.cv2
|}.

End ReadOnlyDisk.


(** Two images under one id, in the rectangle world: the first with two
    objects, the last with one. *)
Module SharedId.

Definition first_image : Image :=
  {| img_id := "a"; img_path := "a.jpg";
     img_intermediate_ids := [StrId "root1"];
     img_width := 10; img_height := 10; img_size_kb := 1; img_group := "train";
     img_annotations := [RectWorld.annotation "s" (Some RectWorld.left_box);
                         RectWorld.annotation "r" (Some RectWorld.right_box)] |}.

Definition last_image : Image :=
  {| img_id := "a"; img_path := "a2.jpg";
     img_intermediate_ids := [StrId "root2"];
     img_width := 10; img_height := 10; img_size_kb := 1; img_group := "val";
     img_annotations := [RectWorld.annotation "t" (Some RectWorld.left_box)] |}.

End SharedId.
(** ** Proof steps for the error monad *)

(** A computation that returned went through each of its steps:
    [step_ok H as x E] splits the first step off [H : bind m k = Ok _],
    naming its value [x] and its equation [E]. *)
Tactic Notation "step_ok" hyp(H) "as" simple_intropattern(x) ident(E) :=
  match type of H with
  | bind ?m _ = Ok _ =>
      destruct m as [x|] eqn:E; [cbn [bind] in H | discriminate H]
  end.

(** ** Facts about the built-ins *)

Lemma Qlt_bool_true (a b : Q) : Qlt_bool a b = true <-> (a < b)%Q.
Proof.
  unfold Qlt_bool. rewrite negb_true_iff. split; intro H.
  - apply Qnot_le_lt. intro Hle. apply Qle_bool_iff in Hle. congruence.
  - destruct (Qle_bool b a) eqn:E; [|reflexivity].
    apply Qle_bool_iff in E. exfalso. exact (Qlt_not_le _ _ H E).
Qed.

Lemma Qlt_bool_false (a b : Q) : Qlt_bool a b = false <-> (b <= a)%Q.
Proof.
  unfold Qlt_bool. rewrite negb_false_iff. apply Qle_bool_iff.
Qed.

Lemma Qlt_bool_irrefl (a : Q) : Qlt_bool a a = false.
Proof. apply Qlt_bool_false, Qle_refl. Qed.

Lemma Qlt_bool_asym (a b : Q) : Qlt_bool a b = true -> Qlt_bool b a = false.
Proof.
  intro H. apply Qlt_bool_true in H. apply Qlt_bool_false.
  apply Qlt_le_weak, H.
Qed.

(** ** C6: bbox / polygon round trip *)

(** C6. For every bounding box (x1, y1, x2, y2) with x1 < x2 and y1 < y2,
    [bbox_from_polygon (polygon_from_bbox b)] returns [b] itself. *)
Theorem bbox_from_polygon_from_bbox (x1 y1 x2 y2 : Q) :
  (x1 < x2)%Q -> (y1 < y2)%Q ->
  bbox_from_polygon (polygon_from_bbox (x1, y1, x2, y2))
  = Ok (x1, y1, x2, y2).
Proof.
  intros Hx Hy.
  apply Qlt_bool_true in Hx. apply Qlt_bool_true in Hy.
  pose proof (Qlt_bool_asym _ _ Hx) as Hx'.
  pose proof (Qlt_bool_asym _ _ Hy) as Hy'.
  unfold bbox_from_polygon, polygon_from_bbox.
  cbn [slice_even slice_odd tl py_min py_max fold_left bind].
  rewrite ?Hx, ?Hx', ?Hy, ?Hy', ?Qlt_bool_irrefl.
  cbn [bind]. rewrite ?Hx, ?Hx', ?Hy, ?Hy', ?Qlt_bool_irrefl.
  reflexivity.
Qed.

Lemma bbox_from_polygon_from_bbox_witness :
  ((1 # 4) < (3 # 4))%Q /\ ((1 # 5) < (4 # 5))%Q /\
  bbox_from_polygon
    (polygon_from_bbox ((1 # 4), (1 # 5), (3 # 4), (4 # 5))%Q)
  = Ok ((1 # 4), (1 # 5), (3 # 4), (4 # 5))%Q.
Proof.
  split; [reflexivity|]. split; [reflexivity|].
  apply (bbox_from_polygon_from_bbox (1 # 4) (1 # 5) (3 # 4) (4 # 5));
    reflexivity.
Defined.

(** ** Slices and flat coordinate tuples *)

Lemma slice_even_cons {A : Type} (x : A) (l : list A) :
  slice_even (x :: l) = x :: slice_odd l.
Proof. destruct l; reflexivity. Qed.

Lemma slice_odd_cons {A : Type} (x : A) (l : list A) :
  slice_odd (x :: l) = slice_even l.
Proof. reflexivity. Qed.

Lemma points_of_flatten_points (pts : list point) :
  points_of (flatten_points pts) = pts.
Proof.
  unfold points_of. induction pts as [|[x y] t IH]; [reflexivity|].
  cbn [flatten_points flat_map fst snd app].
  rewrite slice_odd_cons, !slice_even_cons, slice_odd_cons.
  cbn [combine]. change (flat_map (fun p : Q * Q => [fst p; snd p]) t)
    with (flatten_points t). rewrite IH. reflexivity.
Qed.

(** ** The shoelace sum of a closed ring *)

Lemma cross_self (p : point) : (cross p p == 0)%Q.
Proof. unfold cross. ring. Qed.

Lemma shoelace_from_closing (first : point) (rest : list point) (prev : point) :
  (shoelace_from first prev (rest ++ [first]) == shoelace_from first prev rest)%Q.
Proof.
  revert prev. induction rest as [|p t IH]; intro prev; cbn [app shoelace_from].
  - rewrite cross_self. ring.
  - rewrite IH. reflexivity.
Qed.

Lemma signed_area2_close_ring (pts : list point) :
  (signed_area2 (close_ring pts) == signed_area2 pts)%Q.
Proof.
  destruct pts as [|p0 t]; [reflexivity|].
  unfold close_ring.
  destruct (point_eqb p0 (last (p0 :: t) p0) && negb (length (p0 :: t) =? 3)%nat);
    [reflexivity|].
  cbn [app signed_area2]. apply shoelace_from_closing.
Qed.

Lemma ring_area_close_ring (pts : list point) :
  (ring_area (close_ring pts) == ring_area pts)%Q.
Proof.
  unfold ring_area. rewrite signed_area2_close_ring. reflexivity.
Qed.

Lemma ring_area_nonneg (pts : list point) : (0 <= ring_area pts)%Q.
Proof.
  unfold ring_area. apply Qle_shift_div_l; [reflexivity|].
  rewrite Qmult_0_l. apply Qabs_nonneg.
Qed.

Lemma Polygon_of_three (pts : list point) :
  (3 <= length pts)%nat -> Polygon pts = Ok (PolygonGeom (close_ring pts) []).
Proof.
  intro H. unfold Polygon, linear_ring.
  destruct pts as [|p0 t]; [cbn in H; lia|].
  destruct (Nat.ltb_spec (length (p0 :: t)) 3); [lia|]. reflexivity.
Qed.

(** ** merge_polygons *)

Section MergeFacts.
Context {shapely : Shapely}.

(** C7. For a sequence holding one polygon of at least three vertices,
    [merge_polygons] returns the same ring, closed: the result encloses the
    same area as the input. *)
Theorem merge_single_polygon (p : polygon_t) :
  (3 <= length (points_of p))%nat ->
  exists q,
    merge_polygons [p] = Ok q /\
    points_of q = close_ring (points_of p) /\
    (polygon_area q == polygon_area p)%Q.
Proof.
  intro Hlen. exists (flatten_points (close_ring (points_of p))).
  split; [|split].
  - unfold merge_polygons. cbn [map_result bind].
    rewrite (Polygon_of_three _ Hlen). reflexivity.
  - apply points_of_flatten_points.
  - unfold polygon_area. rewrite points_of_flatten_points.
    apply ring_area_close_ring.
Qed.

(** C10. On an empty sequence [merge_polygons] fails with an index error; on
    a non-empty one, once the polygons are built, the first element is there
    and the remaining ones are folded into it by union, one after the
    other. *)
Theorem merge_polygons_needs_nonempty :
  merge_polygons [] = Raise IndexError /\
  forall (p : polygon_t) (ps : list polygon_t) (all_polygons : list geometry),
    map_result (fun polygon => Polygon (points_of polygon)) (p :: ps)
    = Ok all_polygons ->
    exists first rest,
      all_polygons = first :: rest /\
      length rest = length ps /\
      py_index all_polygons 0 = Ok first /\
      merge_polygons (p :: ps)
      = (merged <- for_each union rest first ;; merged_to_tuple merged).
Proof.
  split; [reflexivity|].
  intros p ps all_polygons H.
  cbn [map_result] in H.
  destruct (Polygon (points_of p)) as [g|e] eqn:Hg; [|discriminate].
  cbn [bind] in H.
  destruct (map_result (fun polygon => Polygon (points_of polygon)) ps)
    as [gs|e] eqn:Hgs; [|discriminate].
  cbn [bind] in H. injection H as <-.
  exists g, gs. split; [reflexivity|]. split; [|split].
  - clear Hg. revert gs Hgs. induction ps as [|q qs IH]; intros gs Hgs.
    + cbn in Hgs. injection Hgs as <-. reflexivity.
    + cbn [map_result] in Hgs.
      destruct (Polygon (points_of q)); [|discriminate]. cbn [bind] in Hgs.
      destruct (map_result (fun polygon => Polygon (points_of polygon)) qs)
        as [gs'|]; [|discriminate].
      cbn [bind] in Hgs. injection Hgs as <-.
      cbn [length]. f_equal. apply IH. reflexivity.
  - unfold py_index. cbn [length].
    replace (if 0 <? 0 then 0 + Z.of_nat (S (length gs)) else 0) with 0
      by reflexivity.
    destruct (Z.leb_spec (Z.of_nat (S (length gs))) 0); [lia|]. reflexivity.
  - unfold merge_polygons. cbn [map_result]. rewrite Hg. cbn [bind].
    rewrite Hgs. cbn [bind].
    unfold py_index. cbn [length].
    replace (if 0 <? 0 then 0 + Z.of_nat (S (length gs)) else 0) with 0
      by reflexivity.
    destruct (Z.leb_spec (Z.of_nat (S (length gs))) 0); [lia|]. reflexivity.
Qed.

End MergeFacts.

Lemma merge_single_polygon_witness :
  (3 <= length (points_of RectWorld.square))%nat /\
  exists q,
    @merge_polygons RectWorld.shapely [RectWorld.square] = Ok q /\
    points_of q = close_ring (points_of RectWorld.square) /\
    (polygon_area q == polygon_area RectWorld.square)%Q.
Proof.
  split; [vm_compute; lia|].
  apply (@merge_single_polygon RectWorld.shapely RectWorld.square).
  vm_compute. lia.
Defined.

(** ** iou_polygons *)

Section IouFacts.
Context {shapely : Shapely}.

Lemma area_polygon_of_tuple (a : polygon_t) :
  (area (polygon_of_tuple a) == polygon_area a)%Q.
Proof.
  unfold polygon_of_tuple, area, polygon_area. cbn [map py_sum fold_left].
  rewrite ring_area_close_ring. ring.
Qed.

Lemma iou_polygons_valid (a b : polygon_t) :
  valid_tuple a -> valid_tuple b ->
  iou_polygons a b =
  (inter <- intersection (polygon_of_tuple a) (polygon_of_tuple b) ;;
   py_div (area inter)
          (area (polygon_of_tuple a) + area (polygon_of_tuple b) - area inter)).
Proof.
  intros [Hea Hla] [Heb Hlb]. unfold iou_polygons, reshape_pairs.
  rewrite Hea, Heb. cbn [bind].
  rewrite (Polygon_of_three _ Hla), (Polygon_of_three _ Hlb). reflexivity.
Qed.

Lemma py_div_nonzero (x y : Q) : ~ (y == 0)%Q -> py_div x y = Ok (x / y)%Q.
Proof.
  intro H. unfold py_div.
  destruct (Qeq_bool y (0 # 1)) eqn:E; [|reflexivity].
  apply Qeq_bool_eq in E. contradiction.
Qed.

(** C9. For flat tuples [a] and [b] that describe polygons, one of them of
    positive area, [iou_polygons a b] and [iou_polygons b a] are the same
    number. The library's intersection enters through its contract at these
    two polygons: it has the same area in either operand order, and no more
    than either operand. *)
Theorem iou_polygons_symmetric (a b : polygon_t) (gab gba : geometry) :
  valid_tuple a -> valid_tuple b ->
  (0 < polygon_area a \/ 0 < polygon_area b)%Q ->
  intersection (polygon_of_tuple a) (polygon_of_tuple b) = Ok gab ->
  intersection (polygon_of_tuple b) (polygon_of_tuple a) = Ok gba ->
  (area gab == area gba)%Q ->
  (area gab <= polygon_area a)%Q ->
  (area gab <= polygon_area b)%Q ->
  exists u v,
    iou_polygons a b = Ok u /\ iou_polygons b a = Ok v /\ (u == v)%Q.
Proof.
  intros Ha Hb Hpos Hab Hba Hsym Hla Hlb.
  pose proof (area_polygon_of_tuple a) as Ea.
  pose proof (area_polygon_of_tuple b) as Eb.
  pose proof (ring_area_nonneg (points_of a)) as Na.
  pose proof (ring_area_nonneg (points_of b)) as Nb.
  fold (polygon_area a) in Na. fold (polygon_area b) in Nb.
  rewrite (iou_polygons_valid a b Ha Hb), (iou_polygons_valid b a Hb Ha).
  rewrite Hab, Hba. cbn [bind].
  assert (Hd1 : ~ (area (polygon_of_tuple a) + area (polygon_of_tuple b)
                   - area gab == 0)%Q).
  { rewrite Ea, Eb. intro H0. destruct Hpos; lra. }
  assert (Hd2 : ~ (area (polygon_of_tuple b) + area (polygon_of_tuple a)
                   - area gba == 0)%Q).
  { rewrite Ea, Eb, <- Hsym. intro H0. destruct Hpos; lra. }
  rewrite (py_div_nonzero _ _ Hd1), (py_div_nonzero _ _ Hd2).
  eexists. eexists. split; [reflexivity|]. split; [reflexivity|].
  rewrite <- Hsym.
  rewrite (Qplus_comm (area (polygon_of_tuple b)) (area (polygon_of_tuple a))).
  reflexivity.
Qed.

End IouFacts.

(** ** The rectangle world keeps the contract of intersection *)

Lemma qmax_comm (a b : Q) : (RectWorld.qmax a b == RectWorld.qmax b a)%Q.
Proof.
  unfold RectWorld.qmax.
  destruct (Qlt_bool a b) eqn:E1; destruct (Qlt_bool b a) eqn:E2;
    try reflexivity.
  - apply Qlt_bool_true in E1. apply Qlt_bool_true in E2. lra.
  - apply Qlt_bool_false in E1. apply Qlt_bool_false in E2. lra.
Qed.

Lemma qmin_comm (a b : Q) : (RectWorld.qmin a b == RectWorld.qmin b a)%Q.
Proof.
  unfold RectWorld.qmin.
  destruct (Qlt_bool b a) eqn:E1; destruct (Qlt_bool a b) eqn:E2;
    try reflexivity.
  - apply Qlt_bool_true in E1. apply Qlt_bool_true in E2. lra.
  - apply Qlt_bool_false in E1. apply Qlt_bool_false in E2. lra.
Qed.

Lemma Qlt_bool_compat (a a' b b' : Q) :
  (a == a')%Q -> (b == b')%Q -> Qlt_bool a b = Qlt_bool a' b'.
Proof.
  intros Ha Hb. unfold Qlt_bool. rewrite Ha, Hb. reflexivity.
Qed.

Lemma box_area_compat (x0 y0 x1 y1 x0' y0' x1' y1' : Q) :
  (x0 == x0')%Q -> (y0 == y0')%Q -> (x1 == x1')%Q -> (y1 == y1')%Q ->
  (area (RectWorld.box_geometry (x0, y0, x1, y1))
   == area (RectWorld.box_geometry (x0', y0', x1', y1')))%Q.
Proof.
  intros H1 H2 H3 H4.
  unfold RectWorld.box_geometry, area, ring_area, signed_area2.
  cbn [shoelace_from map py_sum fold_left]. unfold cross. cbn [fst snd].
  rewrite H1, H2, H3, H4. reflexivity.
Qed.

Lemma overlap_sym (a b : bbox_t) :
  match RectWorld.overlap a b, RectWorld.overlap b a with
  | Some box, Some box' =>
      (area (RectWorld.box_geometry box) == area (RectWorld.box_geometry box'))%Q
  | None, None => True
  | _, _ => False
  end.
Proof.
  destruct a as [[[ax0 ay0] ax1] ay1]. destruct b as [[[bx0 by0] bx1] by1].
  unfold RectWorld.overlap.
  rewrite (Qlt_bool_compat _ _ _ _ (qmax_comm bx0 ax0) (qmin_comm bx1 ax1)).
  rewrite (Qlt_bool_compat _ _ _ _ (qmax_comm by0 ay0) (qmin_comm by1 ay1)).
  destruct (Qlt_bool (RectWorld.qmax ax0 bx0) (RectWorld.qmin ax1 bx1)
            && Qlt_bool (RectWorld.qmax ay0 by0) (RectWorld.qmin ay1 by1));
    [|exact I].
  apply box_area_compat; first [apply qmax_comm | apply qmin_comm].
Qed.

(** In the rectangle world the area of an intersection does not depend on
    the order of the operands. *)
Lemma rect_intersection_area_sym (a b : geometry) :
  exists gab gba,
    @intersection RectWorld.shapely a b = Ok gab /\
    @intersection RectWorld.shapely b a = Ok gba /\
    (area gab == area gba)%Q.
Proof.
  cbn [intersection RectWorld.shapely].
  destruct (RectWorld.qbounds (RectWorld.geometry_points a)) as [ba|];
    destruct (RectWorld.qbounds (RectWorld.geometry_points b)) as [bb|];
    try (eexists; eexists; split; [reflexivity|split; reflexivity]).
  pose proof (overlap_sym ba bb) as H.
  destruct (RectWorld.overlap ba bb) as [box|];
    destruct (RectWorld.overlap bb ba) as [box'|]; try contradiction.
  - eexists. eexists. split; [reflexivity|]. split; [reflexivity|exact H].
  - eexists. eexists. split; [reflexivity|]. split; reflexivity.
Qed.

Lemma iou_polygons_symmetric_witness :
  exists u v,
    @iou_polygons RectWorld.shapely RectWorld.left_box RectWorld.square = Ok u /\
    @iou_polygons RectWorld.shapely RectWorld.square RectWorld.left_box = Ok v /\
    (u == v)%Q.
Proof.
  refine (@iou_polygons_symmetric RectWorld.shapely
            RectWorld.left_box RectWorld.square
            (RectWorld.box_geometry (1 # 10, 1 # 10, 3 # 10, 8 # 10)%Q)
            (RectWorld.box_geometry (1 # 10, 1 # 10, 3 # 10, 8 # 10)%Q)
            _ _ _ _ _ _ _ _).
  - split; vm_compute; [reflexivity|lia].
  - split; vm_compute; [reflexivity|lia].
  - left. vm_compute. reflexivity.
  - vm_compute. reflexivity.
  - vm_compute. reflexivity.
  - vm_compute. reflexivity.
  - vm_compute. discriminate.
  - vm_compute. discriminate.
Defined.

(** ** Loops *)

Lemma Forall2_In_l {A B : Type} (P : A -> B -> Prop) (l : list A) (l' : list B) (x : A) :
  Forall2 P l l' -> In x l -> exists y, In y l' /\ P x y.
Proof.
  induction 1 as [|a b l l' Hab _ IH]; intro Hin; [contradiction|].
  destruct Hin as [->|Hin].
  - exists b. split; [left; reflexivity|exact Hab].
  - destruct (IH Hin) as [y [Hy Hp]]. exists y. split; [right; exact Hy|exact Hp].
Qed.

(** ** get_new_polygons *)

Section RecoveryFacts.
Context {cv2 : Cv2} {shapely : Shapely}.

Variables (mask : mask_t) (polygons : list (list Z)) (width height : Z).

Lemma recover_one_background (acc : list polygon_t) (polygon_id : Z) :
  (0 <? polygon_id) = false ->
  recover_one mask polygons width height acc polygon_id = Ok acc.
Proof. intro H. unfold recover_one. rewrite H. reflexivity. Qed.

Lemma recover_one_object (acc : list polygon_t) (polygon_id : Z) (new_polygon : polygon_t) (v : Q) :
  (0 <? polygon_id) = true ->
  get_new_polygon mask polygon_id width height = Ok new_polygon ->
  recovered_iou polygons width height polygon_id new_polygon = Ok v ->
  recover_one mask polygons width height acc polygon_id
  = if Qlt_bool v (3 # 10) then Raise (ValueError "IoU is too low")
    else Ok (acc ++ [new_polygon]).
Proof.
  intros Hpos Hnew Hiou. unfold recover_one. rewrite Hpos, Hnew. cbn [bind].
  unfold recovered_iou in Hiou.
  destruct (py_index polygons (polygon_id - 1)) as [original|e];
    [|discriminate].
  cbn [bind] in *. rewrite Hiou. reflexivity.
Qed.

Lemma recover_one_ok_inv (acc out : list polygon_t) (polygon_id : Z) :
  (0 <? polygon_id) = true ->
  recover_one mask polygons width height acc polygon_id = Ok out ->
  exists new_polygon,
    out = acc ++ [new_polygon] /\
    accepted mask polygons width height polygon_id new_polygon.
Proof.
  intros Hpos H. unfold recover_one in H. rewrite Hpos in H.
  step_ok H as np Hnp. step_ok H as original Hidx. step_ok H as v Hiou.
  destruct (Qlt_bool v (3 # 10)) eqn:Hlt; [discriminate|].
  injection H as <-. exists np. split; [reflexivity|].
  split; [exact Hnp|]. exists v. split.
  - unfold recovered_iou. rewrite Hidx. cbn [bind]. exact Hiou.
  - apply Qlt_bool_false. exact Hlt.
Qed.

Lemma recover_loop_ok (ids : list Z) :
  forall acc out,
    for_each (recover_one mask polygons width height) ids acc = Ok out ->
    exists added,
      out = acc ++ added /\
      Forall2 (accepted mask polygons width height)
              (filter (fun polygon_id => 0 <? polygon_id) ids) added.
Proof.
  induction ids as [|x t IH]; intros acc out H.
  - cbn in H. injection H as <-. exists []. split; [symmetry; apply app_nil_r|].
    constructor.
  - cbn [for_each] in H. cbn [filter].
    destruct (0 <? x) eqn:Hpos.
    + destruct (recover_one mask polygons width height acc x) as [acc'|e] eqn:Hx;
        [|discriminate].
      cbn [bind] in H.
      destruct (recover_one_ok_inv _ _ _ Hpos Hx) as [np [-> Hacc]].
      destruct (IH _ _ H) as [added [-> Hall]].
      exists (np :: added). split; [rewrite <- app_assoc; reflexivity|].
      constructor; assumption.
    + rewrite (recover_one_background _ _ Hpos) in H. cbn [bind] in H.
      apply IH. exact H.
Qed.

Lemma recover_loop_rejects (ids : list Z) (polygon_id : Z) (new_polygon : polygon_t) (v : Q) :
  In polygon_id ids -> 0 < polygon_id ->
  get_new_polygon mask polygon_id width height = Ok new_polygon ->
  recovered_iou polygons width height polygon_id new_polygon = Ok v ->
  (v < 3 # 10)%Q ->
  forall acc, exists e,
    for_each (recover_one mask polygons width height) ids acc = Raise e.
Proof.
  intros Hin Hpos Hnew Hiou Hlow.
  induction ids as [|x t IH]; intro acc; [contradiction|].
  cbn [for_each].
  destruct (recover_one mask polygons width height acc x) as [acc'|e] eqn:Hx.
  - cbn [bind]. destruct Hin as [->|Hin].
    + rewrite (recover_one_object acc polygon_id new_polygon v) in Hx;
        [|apply Z.ltb_lt; exact Hpos|exact Hnew|exact Hiou].
      apply Qlt_bool_true in Hlow. rewrite Hlow in Hx. discriminate.
    + apply IH. exact Hin.
  - exists e. reflexivity.
Qed.

(** C4. Take any object value present in the transformed mask, the polygon
    recovered for it and its IoU [v] against the original polygon of that
    value. If [v] is below 0.30, [get_new_polygons] raises; and whenever
    [get_new_polygons] returns, that polygon is among the results with
    [v] at least 0.30, and every returned polygon is the recovered polygon of
    an object value whose IoU is at least 0.30. *)
Theorem get_new_polygons_iou_gate (polygon_id : Z) (new_polygon : polygon_t) (v : Q) :
  In polygon_id (np_unique mask) -> 0 < polygon_id ->
  get_new_polygon mask polygon_id width height = Ok new_polygon ->
  recovered_iou polygons width height polygon_id new_polygon = Ok v ->
  ((v < 3 # 10)%Q ->
   exists e, get_new_polygons mask polygons width height = Raise e) /\
  (forall new_polygons,
     get_new_polygons mask polygons width height = Ok new_polygons ->
     In new_polygon new_polygons /\ (3 # 10 <= v)%Q /\
     Forall2 (accepted mask polygons width height)
             (positive_ids mask) new_polygons).
Proof.
  intros Hin Hpos Hnew Hiou. split.
  - intro Hlow. unfold get_new_polygons.
    exact (recover_loop_rejects _ _ _ _ Hin Hpos Hnew Hiou Hlow []).
  - intros new_polygons H. unfold get_new_polygons in H.
    destruct (recover_loop_ok _ _ _ H) as [added [-> Hall]].
    cbn [app]. fold (positive_ids mask) in Hall.
    assert (Hin' : In polygon_id (positive_ids mask)).
    { unfold positive_ids. apply filter_In. split; [exact Hin|].
      apply Z.ltb_lt. exact Hpos. }
    destruct (Forall2_In_l _ _ _ _ Hall Hin') as [np [Hnp [Hget [v' [Hiou' Hge]]]]].
    rewrite Hnew in Hget. injection Hget as <-.
    rewrite Hiou in Hiou'. injection Hiou' as <-.
    split; [exact Hnp|]. split; [exact Hge|exact Hall].
Qed.

End RecoveryFacts.

(** The mask as it was drawn gives the polygon back with IoU 1, and it is
    accepted. *)
Lemma get_new_polygons_accepts_unmoved :
  exists new_polygon,
    @get_new_polygons RectWorld.cv2 RectWorld.shapely
      RectWorld.left_mask [RectWorld.left_pixels] 10 10 = Ok [new_polygon] /\
    Forall2 Qeq new_polygon RectWorld.left_box /\
    exists v,
      @recovered_iou RectWorld.shapely [RectWorld.left_pixels] 10 10 1 new_polygon
      = Ok v /\ (v == 1)%Q.
Proof.
  eexists. split; [vm_compute; reflexivity|].
  split; [repeat constructor|].
  eexists. split; [vm_compute; reflexivity|]. reflexivity.
Qed.

(** The mirrored mask puts the object where the original polygon is not:
    the recovered polygon has IoU 0 and the call raises. *)
Lemma get_new_polygons_iou_gate_witness :
  exists e,
    @get_new_polygons RectWorld.cv2 RectWorld.shapely
      RectWorld.mirrored_mask [RectWorld.left_pixels] 10 10 = Raise e.
Proof.
  edestruct (@get_new_polygons_iou_gate RectWorld.cv2 RectWorld.shapely
               RectWorld.mirrored_mask [RectWorld.left_pixels] 10 10 1)
    as [Hlow _].
  - vm_compute. right. left. reflexivity.
  - lia.
  - vm_compute. reflexivity.
  - vm_compute. reflexivity.
  - apply Hlow. vm_compute. reflexivity.
Defined.

(** ** One job: generate_augmented_image *)

Lemma map_result_length {A B : Type} (f : A -> result B) (l : list A) (out : list B) :
  map_result f l = Ok out -> length out = length l.
Proof.
  revert out. induction l as [|x t IH]; intros out H.
  - cbn in H. injection H as <-. reflexivity.
  - cbn [map_result] in H. step_ok H as y Ey. step_ok H as ys Eys.
    injection H as <-. cbn [length]. f_equal. apply IH. reflexivity.
Qed.

Section JobFacts.
Context {cv2 : Cv2} {albumentations : Albumentations} {shapely : Shapely} {os : Os}.

Lemma augment_guarded_ok_inv (seed : nat) (image : ndarray_image)
  (height width : Z) (polygons : list (list Z))
  (transformed_image : ndarray_image) (new_polygons : list polygon_t) :
  augment_guarded seed image height width polygons
  = Ok (transformed_image, new_polygons) ->
  exists transformed_mask,
    transform seed image (rasterize height width polygons)
    = Ok (transformed_image, transformed_mask) /\
    get_new_polygons transformed_mask polygons width height = Ok new_polygons /\
    length new_polygons = length polygons.
Proof.
  unfold augment_guarded. intro H.
  step_ok H as [timg tmask] Ht. cbn [fst snd] in H.
  step_ok H as nps Hn.
  destruct (Nat.eqb_spec (length nps) (length polygons)) as [Hlen|Hlen];
    cbn [negb] in H; [|discriminate].
  injection H as <- <-. exists tmask. repeat split; assumption.
Qed.

Lemma augment_guarded_count_mismatch (seed : nat) (image : ndarray_image)
  (height width : Z) (polygons : list (list Z))
  (transformed_image : ndarray_image) (transformed_mask : mask_t)
  (new_polygons : list polygon_t) :
  transform seed image (rasterize height width polygons)
  = Ok (transformed_image, transformed_mask) ->
  get_new_polygons transformed_mask polygons width height = Ok new_polygons ->
  length new_polygons <> length polygons ->
  augment_guarded seed image height width polygons
  = Raise (ValueError "Different number of polygons").
Proof.
  intros Ht Hn Hlen. unfold augment_guarded. rewrite Ht. cbn [bind fst snd].
  rewrite Hn. cbn [bind].
  destruct (Nat.eqb_spec (length new_polygons) (length polygons));
    [contradiction|reflexivity].
Qed.

(** Whatever is raised between the construction of the transform and the
    count check ends the job with no result. *)
Lemma guarded_fault_gives_none (seed : nat) (image_id image_path : string)
  (segments : list polygon_t) (target_folder : string) (new_index : Z)
  (image : ndarray_image) (polygons : list (list Z)) (e : exn) :
  imread image_path = Some image ->
  map_result (denormalize (shape_w image) (shape_h image)) segments = Ok polygons ->
  augment_guarded seed image (shape_h image) (shape_w image) polygons = Raise e ->
  generate_augmented_image seed image_id image_path segments target_folder new_index
  = Ok None.
Proof.
  intros Hread Hden Hfault. unfold generate_augmented_image.
  rewrite Hread, Hden. cbn [bind]. rewrite Hfault. reflexivity.
Qed.

(** What a job that returns a record went through. *)
Lemma job_record_inv (seed : nat) (image_id image_path : string)
  (segments : list polygon_t) (target_folder : string) (new_index : Z)
  (info : augmented_info) :
  generate_augmented_image seed image_id image_path segments target_folder new_index
  = Ok (Some info) ->
  exists image polygons transformed_image,
    imread image_path = Some image /\
    map_result (denormalize (shape_w image) (shape_h image)) segments = Ok polygons /\
    augment_guarded seed image (shape_h image) (shape_w image) polygons
    = Ok (transformed_image, info_segments info) /\
    info_id info = (image_id ++ "_aug_" ++ str_int new_index)%string /\
    info_original_id info = image_id /\
    info_image_index info = new_index /\
    length (info_segments info) = length segments.
Proof.
  unfold generate_augmented_image. intro H.
  destruct (imread image_path) as [image|] eqn:Hread; [|discriminate].
  destruct (map_result (denormalize (shape_w image) (shape_h image)) segments)
    as [polygons|e] eqn:Hden; [|discriminate].
  cbn [bind] in H.
  destruct (augment_guarded seed image (shape_h image) (shape_w image) polygons)
    as [[timg nps]|e] eqn:Hg; [|discriminate].
  destruct (length nps =? 0)%nat; [discriminate|].
  destruct (imwrite _ timg) as [written|e]; [|discriminate].
  cbn [bind] in H. injection H as <-. cbn.
  exists image, polygons, timg.
  destruct (augment_guarded_ok_inv _ _ _ _ _ _ _ Hg) as [tmask [_ [_ Hlen]]].
  repeat split; try reflexivity; try assumption.
  rewrite Hlen. apply (map_result_length _ _ _ Hden).
Qed.

Lemma get_new_polygons_length (mask : mask_t) (polygons : list (list Z))
  (width height : Z) (new_polygons : list polygon_t) :
  get_new_polygons mask polygons width height = Ok new_polygons ->
  length new_polygons = length (positive_ids mask).
Proof.
  intro H. unfold get_new_polygons in H.
  destruct (recover_loop_ok _ _ _ _ _ _ _ H) as [added [-> Hall]].
  symmetry. exact (Forall2_length Hall).
Qed.

(** C3. Take a job whose image was read, whose segments were brought to
    pixel coordinates, and whose transform returned a mask. If the number of
    objects left in the transformed mask, which is the number of polygons
    that can be recovered from it, differs from the number of input polygons,
    the job returns no record at all; and any record the job does return
    has a recovered segment for every input segment. *)
Theorem count_mismatch_rejects_replica (seed : nat) (image_id image_path : string)
  (segments : list polygon_t) (target_folder : string) (new_index : Z)
  (image : ndarray_image) (polygons : list (list Z))
  (transformed_image : ndarray_image) (transformed_mask : mask_t) :
  imread image_path = Some image ->
  map_result (denormalize (shape_w image) (shape_h image)) segments = Ok polygons ->
  transform seed image (rasterize (shape_h image) (shape_w image) polygons)
  = Ok (transformed_image, transformed_mask) ->
  (length (positive_ids transformed_mask) <> length polygons ->
   generate_augmented_image seed image_id image_path segments target_folder new_index
   = Ok None) /\
  (forall info,
     generate_augmented_image seed image_id image_path segments target_folder new_index
     = Ok (Some info) ->
     length (info_segments info) = length segments /\
     length (positive_ids transformed_mask) = length segments).
Proof.
  intros Hread Hden Ht. split.
  - intro Hlen.
    destruct (augment_guarded seed image (shape_h image) (shape_w image) polygons)
      as [[timg nps]|e] eqn:Hg.
    + exfalso. destruct (augment_guarded_ok_inv _ _ _ _ _ _ _ Hg)
        as [tmask [Ht' [Hn Hcount]]].
      rewrite Ht in Ht'. injection Ht' as _ <-.
      apply get_new_polygons_length in Hn. congruence.
    + eapply guarded_fault_gives_none; eassumption.
  - intros info Hinfo.
    destruct (job_record_inv _ _ _ _ _ _ _ Hinfo)
      as [im [polys [timg [Hread' [Hden' [Hg [_ [_ [_ Hlen]]]]]]]]].
    rewrite Hread in Hread'. injection Hread' as <-.
    rewrite Hden in Hden'. injection Hden' as <-.
    destruct (augment_guarded_ok_inv _ _ _ _ _ _ _ Hg)
      as [tmask [Ht' [Hn Hcount]]].
    rewrite Ht in Ht'. injection Ht' as _ <-.
    apply get_new_polygons_length in Hn.
    split; [exact Hlen|]. congruence.
Qed.

(** The same for a call of [get_new_polygons] that returns: fewer or more
    polygons than went in, and the job returns nothing. *)
Lemma returned_count_mismatch_rejects_replica (seed : nat)
  (image_id image_path : string) (segments : list polygon_t)
  (target_folder : string) (new_index : Z)
  (image : ndarray_image) (polygons : list (list Z))
  (transformed_image : ndarray_image) (transformed_mask : mask_t)
  (new_polygons : list polygon_t) :
  imread image_path = Some image ->
  map_result (denormalize (shape_w image) (shape_h image)) segments = Ok polygons ->
  transform seed image (rasterize (shape_h image) (shape_w image) polygons)
  = Ok (transformed_image, transformed_mask) ->
  get_new_polygons transformed_mask polygons (shape_w image) (shape_h image)
  = Ok new_polygons ->
  length new_polygons <> length polygons ->
  generate_augmented_image seed image_id image_path segments target_folder new_index
  = Ok None.
Proof.
  intros Hread Hden Ht Hn Hlen.
  eapply guarded_fault_gives_none; [exact Hread|exact Hden|].
  eapply augment_guarded_count_mismatch; eassumption.
Qed.

End JobFacts.

(** Two objects go in; the transform of seed 1 loses the second, one polygon
    is recovered, and the replica is dropped. *)
Lemma count_mismatch_rejects_replica_witness :
  @generate_augmented_image RectWorld.cv2 RectWorld.albumentations RectWorld.shapely
    1 "a" "a.jpg" [RectWorld.left_box; RectWorld.right_box] "/tmp/out" 0
  = Ok None.
Proof.
  edestruct (@count_mismatch_rejects_replica
               RectWorld.cv2 RectWorld.albumentations RectWorld.shapely
               1 "a" "a.jpg" [RectWorld.left_box; RectWorld.right_box] "/tmp/out" 0)
    as [Hnone _].
  - vm_compute. reflexivity.
  - vm_compute. reflexivity.
  - vm_compute. reflexivity.
  - apply Hnone. vm_compute. lia.
Defined.

(** ** Completion order *)

Lemma extract_Permutation {A : Type} (n : nat) (l : list A) (x : A) (r : list A) :
  extract n l = Some (x, r) -> Permutation l (x :: r).
Proof.
  revert n x r. induction l as [|a t IH]; intros n x r H; [discriminate|].
  destruct n as [|n]; cbn [extract] in H.
  - injection H as <- <-. reflexivity.
  - destruct (extract n t) as [[y r']|] eqn:E; [|discriminate].
    injection H as <- <-.
    rewrite (IH _ _ _ E). apply perm_swap.
Qed.

Lemma extract_lt {A : Type} (n : nat) (l : list A) :
  (n < length l)%nat -> exists x r, extract n l = Some (x, r).
Proof.
  revert n. induction l as [|a t IH]; intros n H; [cbn in H; lia|].
  destruct n as [|n]; cbn [extract].
  - eexists. eexists. reflexivity.
  - cbn [length] in H. destruct (IH n) as [x [r E]]; [lia|].
    rewrite E. eexists. eexists. reflexivity.
Qed.

(** Whatever the order of completion, the futures that finish are the
    futures that were submitted. *)
Lemma as_completed_Permutation {A : Type} (picks : list nat) :
  forall futures : list A, Permutation (as_completed picks futures) futures.
Proof.
  induction picks as [|p ps IH]; intro futures; cbn [as_completed];
    [reflexivity|].
  destruct (extract (p mod length futures) futures) as [[x r]|] eqn:E.
  - rewrite (IH r). symmetry. apply (extract_Permutation _ _ _ _ E).
  - destruct futures as [|a t]; [reflexivity|].
    destruct (extract_lt (p mod length (a :: t)) (a :: t)) as [x [r E']].
    + apply Nat.mod_upper_bound. cbn [length]. lia.
    + congruence.
Qed.

Lemma In_extract {A : Type} (x : A) (l : list A) :
  In x l -> exists n r, (n < length l)%nat /\ extract n l = Some (x, r).
Proof.
  induction l as [|a t IH]; intro H; [contradiction|].
  destruct H as [->|H].
  - exists 0%nat, t. split; [cbn; lia|reflexivity].
  - destruct (IH H) as [n [r [Hn E]]].
    exists (S n), (a :: r). split; [cbn [length]; lia|].
    cbn [extract]. rewrite E. reflexivity.
Qed.

(** And every order of completion is one the model allows. *)
Lemma as_completed_reaches {A : Type} (order : list A) :
  forall futures : list A,
    Permutation futures order ->
    exists picks, as_completed picks futures = order.
Proof.
  induction order as [|x t IH]; intros futures Hp.
  - apply Permutation_sym, Permutation_nil in Hp. subst futures.
    exists []. reflexivity.
  - assert (Hin : In x futures).
    { apply (Permutation_in x (Permutation_sym Hp)). left. reflexivity. }
    destruct (In_extract _ _ Hin) as [n [r [Hn E]]].
    pose proof (extract_Permutation _ _ _ _ E) as Hr.
    assert (Hrt : Permutation r t).
    { apply (Permutation_cons_inv (a := x)).
      rewrite <- Hr. exact Hp. }
    destruct (IH r Hrt) as [picks Hpicks].
    exists (n :: picks). cbn [as_completed].
    rewrite (Nat.mod_small _ _ Hn), E, Hpicks. reflexivity.
Qed.

Lemma as_completed_In {A : Type} (picks : list nat) (futures : list A) (f : A) :
  In f (as_completed picks futures) <-> In f futures.
Proof.
  split; apply Permutation_in;
    [|symmetry]; apply as_completed_Permutation.
Qed.

(** ** The orchestrator *)

Lemma In_combine_seq {A : Type} (l : list A) :
  forall (s n : nat) (x : A),
    In (n, x) (combine (seq s (length l)) l) ->
    (s <= n)%nat /\ nth_error l (n - s) = Some x.
Proof.
  induction l as [|a t IH]; intros s n x H; [contradiction|].
  cbn [length seq combine] in H. destruct H as [H|H].
  - injection H as <- <-. split; [lia|]. rewrite Nat.sub_diag. reflexivity.
  - destruct (IH _ _ _ H) as [Hle Hnth]. split; [lia|].
    replace (n - s)%nat with (S (n - S s)) by lia. exact Hnth.
Qed.

Lemma In_jobs_of (images : list Image) (number : Z) (image : Image) (i : Z) :
  In (image, i) (jobs_of images number) <->
  In image images /\ In i (py_range number).
Proof.
  unfold jobs_of. rewrite in_flat_map. split.
  - intros [im [Him Hin]]. apply in_map_iff in Hin.
    destruct Hin as [k [Hk Hin]]. injection Hk as <- <-. split; assumption.
  - intros [Him Hi]. exists image. split; [exact Him|].
    apply in_map_iff. exists i. split; [reflexivity|exact Hi].
Qed.

Section OrchestratorFacts.
Context {cv2 : Cv2} {albumentations : Albumentations} {shapely : Shapely} {os : Os}.

Lemma collect_none (images acc : list Image) :
  collect images acc (Ok None) = Ok acc.
Proof. reflexivity. Qed.

Lemma collect_all_none (images : list Image) (futures : list (result (option augmented_info))) :
  Forall (fun future => future = Ok None) futures ->
  forall acc, for_each (collect images) futures acc = Ok acc.
Proof.
  induction 1 as [|f t Hf _ IH]; intro acc; [reflexivity|].
  cbn [for_each]. rewrite Hf, collect_none. cbn [bind]. apply IH.
Qed.

(** Every image of the result was assembled from the record of a finished
    job. *)
Lemma collect_ok_inv (images : list Image) (futures : list (result (option augmented_info))) :
  forall acc out,
    for_each (collect images) futures acc = Ok out ->
    forall new_image, In new_image out ->
      In new_image acc \/
      exists info, In (Ok (Some info)) futures /\ assemble images info = Ok new_image.
Proof.
  induction futures as [|f t IH]; intros acc out H new_image Hin.
  - cbn in H. injection H as <-. left. exact Hin.
  - cbn [for_each] in H.
    destruct (collect images acc f) as [acc'|e] eqn:Hc; [|discriminate].
    cbn [bind] in H.
    destruct (IH _ _ H _ Hin) as [Hacc|[info [Hi Ha]]].
    + unfold collect in Hc. destruct f as [[info|]|e]; cbn [bind] in Hc;
        [| |discriminate].
      * destruct (assemble images info) as [image|e] eqn:Ha; [|discriminate].
        cbn [bind] in Hc. injection Hc as <-.
        apply in_app_or in Hacc. destruct Hacc as [Hacc|[<-|[]]].
        -- left. exact Hacc.
        -- right. exists info. split; [left; reflexivity|exact Ha].
      * injection Hc as <-. left. exact Hacc.
    + right. exists info. split; [right; exact Hi|exact Ha].
Qed.

(** The futures of a run, in submission order. *)
Lemma generate_augmentations_unfold (uuid : string) (seeds : nat -> nat)
  (picks : list nat) (images : list Image) (number : Z) :
  makedirs ("/tmp/tmp_images_augmented/" ++ uuid)%string = Ok tt ->
  generate_augmentations uuid seeds picks images number
  = for_each (collect images)
      (as_completed picks
         (map (fun nj : nat * (Image * Z) =>
                 run_job ("/tmp/tmp_images_augmented/" ++ uuid)%string
                         (seeds (fst nj)) (snd nj))
              (combine (seq 0 (length (jobs_of images number)))
                       (jobs_of images number))))
      [].
Proof.
  intro H. unfold generate_augmentations. rewrite H. reflexivity.
Qed.

Lemma generate_augmentations_makedirs (uuid : string) (seeds : nat -> nat)
  (picks : list nat) (images : list Image) (number : Z) (out : list Image) :
  generate_augmentations uuid seeds picks images number = Ok out ->
  makedirs ("/tmp/tmp_images_augmented/" ++ uuid)%string = Ok tt.
Proof.
  unfold generate_augmentations.
  destruct (makedirs ("/tmp/tmp_images_augmented/" ++ uuid)%string) as [[]|e];
    [reflexivity|discriminate].
Qed.

(** C1, as the code has it. Take a run whose output directory was created
    and in which every job reads its image, has segments of whole coordinate
    pairs, and then fails somewhere between building the transform and the
    polygon count check. Each such job returns no result, the loop over the
    finished jobs passes over it with what it has collected so far, and
    [generate_augmentations] returns the empty list. *)
Theorem guarded_faults_give_no_result (uuid : string) (seeds : nat -> nat)
  (picks : list nat) (images : list Image) (number : Z) :
  makedirs ("/tmp/tmp_images_augmented/" ++ uuid)%string = Ok tt ->
  (forall n image i,
      nth_error (jobs_of images number) n = Some (image, i) ->
      exists im polygons e,
        imread (img_path image) = Some im /\
        map_result (denormalize (shape_w im) (shape_h im))
                   (annotation_segments image) = Ok polygons /\
        augment_guarded (seeds n) im (shape_h im) (shape_w im) polygons
        = Raise e) ->
  (forall n image i,
      nth_error (jobs_of images number) n = Some (image, i) ->
      run_job ("/tmp/tmp_images_augmented/" ++ uuid)%string (seeds n) (image, i)
      = Ok None /\
      forall acc,
        collect images acc
          (run_job ("/tmp/tmp_images_augmented/" ++ uuid)%string (seeds n) (image, i))
        = Ok acc) /\
  generate_augmentations uuid seeds picks images number = Ok [].
Proof.
  intros Hdir Hjobs.
  assert (Hnone : forall n image i,
             nth_error (jobs_of images number) n = Some (image, i) ->
             run_job ("/tmp/tmp_images_augmented/" ++ uuid)%string (seeds n) (image, i)
             = Ok None).
  { intros n image i Hn.
    destruct (Hjobs n image i Hn) as [im [polygons [e [Hread [Hden Hfault]]]]].
    unfold run_job. cbn [fst snd].
    eapply guarded_fault_gives_none; eassumption. }
  split.
  - intros n image i Hn. split; [apply Hnone; exact Hn|].
    intro acc. rewrite (Hnone _ _ _ Hn). reflexivity.
  - rewrite (generate_augmentations_unfold _ _ _ _ _ Hdir).
    apply collect_all_none. apply Forall_forall. intros f Hf.
    apply as_completed_In in Hf. apply in_map_iff in Hf.
    destruct Hf as [[n [image i]] [<- Hin]]. cbn [fst snd].
    apply In_combine_seq in Hin. destruct Hin as [_ Hnth].
    rewrite Nat.sub_0_r in Hnth. apply Hnone. exact Hnth.
Qed.

End OrchestratorFacts.

(** Two replicas of a readable image, both with a transform that fails. *)
Lemma guarded_faults_give_no_result_witness :
  @generate_augmentations RectWorld.cv2 RectWorld.albumentations RectWorld.shapely
    RectWorld.os "run" (fun _ => 3%nat) [1%nat] [RectWorld.readable_image] 2
  = Ok [].
Proof.
  apply (@guarded_faults_give_no_result
           RectWorld.cv2 RectWorld.albumentations RectWorld.shapely RectWorld.os
           "run" (fun _ => 3%nat) [1%nat] [RectWorld.readable_image] 2).
  - reflexivity.
  - intros n image i H.
    destruct n as [|[|n]]; cbn in H.
    + injection H as <- <-. eexists. eexists. eexists.
      split; [vm_compute; reflexivity|].
      split; vm_compute; reflexivity.
    + injection H as <- <-. eexists. eexists. eexists.
      split; [vm_compute; reflexivity|].
      split; vm_compute; reflexivity.
    + destruct n; discriminate.
Defined.

(** C1 as stated fails where the image file cannot be read: the job raises
    instead of returning no result (as it does on a segment with a dangling
    coordinate), and the run raises with it, whether the unreadable image is
    alone or next to a readable one whose replica was accepted. *)
Lemma unreadable_image_escapes :
  @generate_augmented_image RectWorld.cv2 RectWorld.albumentations RectWorld.shapely
    0 "b" "missing.jpg" [RectWorld.left_box] "/tmp/tmp_images_augmented/run" 0
  = Raise AttributeError /\
  @generate_augmented_image RectWorld.cv2 RectWorld.albumentations RectWorld.shapely
    0 "a" "a.jpg" [[1 # 10; 1 # 10; 9 # 10]%Q] "/tmp/tmp_images_augmented/run" 0
  = Raise IndexError /\
  @generate_augmentations RectWorld.cv2 RectWorld.albumentations RectWorld.shapely
    RectWorld.os "run" (fun _ => 0%nat) [] [RectWorld.unreadable_image] 1
  = Raise AttributeError /\
  @generate_augmentations RectWorld.cv2 RectWorld.albumentations RectWorld.shapely
    RectWorld.os "run" (fun _ => 0%nat) []
    [RectWorld.readable_image; RectWorld.unreadable_image] 1
  = Raise AttributeError /\
  exists accepted_image,
    @generate_augmentations RectWorld.cv2 RectWorld.albumentations RectWorld.shapely
      RectWorld.os "run" (fun _ => 0%nat) [] [RectWorld.readable_image] 1
    = Ok [accepted_image].
Proof.
  split; [vm_compute; reflexivity|].
  split; [vm_compute; reflexivity|].
  split; [vm_compute; reflexivity|].
  split; [vm_compute; reflexivity|].
  eexists. vm_compute. reflexivity.
Qed.

(** ** Assembling the new images *)

Lemma map_result_Forall2 {A B : Type} (f : A -> result B) (l : list A) (out : list B) :
  map_result f l = Ok out -> Forall2 (fun x y => f x = Ok y) l out.
Proof.
  revert out. induction l as [|x t IH]; intros out H.
  - cbn in H. injection H as <-. constructor.
  - cbn [map_result] in H. step_ok H as y Ey. step_ok H as ys Eys.
    injection H as <-. constructor; [exact Ey|]. apply IH. reflexivity.
Qed.

Lemma Forall2_nth_error_r {A B : Type} (P : A -> B -> Prop) (l : list A) (l' : list B) :
  Forall2 P l l' ->
  forall i y, nth_error l' i = Some y ->
    exists x, nth_error l i = Some x /\ P x y.
Proof.
  induction 1 as [|a b l l' Hab _ IH]; intros i y Hi.
  - destruct i; discriminate.
  - destruct i as [|i]; cbn [nth_error] in *.
    + injection Hi as <-. exists a. split; [reflexivity|exact Hab].
    + apply IH. exact Hi.
Qed.

Lemma nth_error_combine {A B : Type} (l : list A) (l' : list B) :
  forall i a b,
    nth_error (combine l l') i = Some (a, b) ->
    nth_error l i = Some a /\ nth_error l' i = Some b.
Proof.
  revert l'. induction l as [|x t IH]; intros l' i a b H.
  - destruct i; discriminate.
  - destruct l' as [|y t']; [destruct i; discriminate|].
    destruct i as [|i]; cbn [combine nth_error] in *.
    + injection H as <- <-. split; reflexivity.
    + apply IH. exact H.
Qed.

Lemma original_images_by_id_inv (images : list Image) (key : string) (original : Image) :
  original_images_by_id images key = Ok original ->
  In original images /\ img_id original = key.
Proof.
  unfold original_images_by_id. intro H.
  destruct (find (fun image => String.eqb (img_id image) key) (rev images))
    as [image|] eqn:E; [|discriminate].
  injection H as <-. apply find_some in E. destruct E as [Hin Heq].
  split; [apply in_rev; exact Hin|apply String.eqb_eq; exact Heq].
Qed.

Lemma NoDup_map_inj {A B : Type} (f : A -> B) (l : list A) (a b : A) :
  NoDup (map f l) -> In a l -> In b l -> f a = f b -> a = b.
Proof.
  induction l as [|x t IH]; intros Hnd Ha Hb Hf; [contradiction|].
  cbn [map] in Hnd. inversion Hnd as [|? ? Hnotin Hnd']; subst.
  destruct Ha as [->|Ha]; destruct Hb as [->|Hb].
  - reflexivity.
  - exfalso. apply Hnotin. rewrite Hf. apply in_map. exact Hb.
  - exfalso. apply Hnotin. rewrite <- Hf. apply in_map. exact Ha.
  - apply IH; assumption.
Qed.

(** With pairwise distinct ids, the dict gives back the image itself. *)
Lemma original_images_by_id_own (images : list Image) (image : Image) :
  NoDup (map img_id images) -> In image images ->
  original_images_by_id images (img_id image) = Ok image.
Proof.
  intros Hnd Hin. unfold original_images_by_id.
  destruct (find (fun im => String.eqb (img_id im) (img_id image)) (rev images))
    as [found|] eqn:E.
  - apply find_some in E. destruct E as [Hf Heq].
    apply in_rev in Hf. apply String.eqb_eq in Heq.
    f_equal. apply (NoDup_map_inj img_id images); assumption.
  - exfalso. apply in_rev in Hin.
    pose proof (find_none _ _ E image Hin) as Hne. cbn beta in Hne.
    rewrite String.eqb_refl in Hne. discriminate.
Qed.

Lemma In_py_range (k n : Z) : In k (py_range n) <-> 0 <= k < n.
Proof.
  unfold py_range. rewrite in_map_iff. split.
  - intros [i [<- Hi]]. apply in_seq in Hi. lia.
  - intro H. exists (Z.to_nat k). split; [lia|]. apply in_seq. lia.
Qed.

Section AssemblyFacts.
Context {cv2 : Cv2} {albumentations : Albumentations} {shapely : Shapely} {os : Os}.

Lemma augmented_annotation_inv (k : Z) (annotation : Annotation)
  (segment : polygon_t) (annotation' : Annotation) :
  augmented_annotation k annotation segment = Ok annotation' ->
  ann_id annotation' = (ann_id annotation ++ "_" ++ str_int k)%string /\
  ann_tags annotation' = ann_tags annotation ++ ["augmented"] /\
  ann_segmentation annotation' = Some segment /\
  ann_category_id annotation' = ann_category_id annotation /\
  ann_task annotation' = ann_task annotation /\
  ann_conf annotation' = ann_conf annotation /\
  ann_category_name annotation' = ann_category_name annotation.
Proof.
  unfold augmented_annotation. intro H.
  step_ok H as bbox Hb. step_ok H as center Hc.
  injection H as <-. cbn. repeat split.
Qed.

Lemma assemble_inv (images : list Image) (info : augmented_info) (new_image : Image) :
  assemble images info = Ok new_image ->
  exists original,
    original_images_by_id images (info_original_id info) = Ok original /\
    img_id new_image = info_id info /\
    img_path new_image = info_path info /\
    img_intermediate_ids new_image
    = img_intermediate_ids original ++ [StrId (img_id original)] /\
    Forall2 (fun (pair : Annotation * polygon_t) annotation' =>
               augmented_annotation (info_image_index info) (fst pair) (snd pair)
               = Ok annotation')
            (combine (img_annotations original) (info_segments info))
            (img_annotations new_image).
Proof.
  unfold assemble. intro H.
  step_ok H as original Ho. step_ok H as annotations Ha.
  injection H as <-. cbn.
  exists original. repeat split.
  apply map_result_Forall2 in Ha. exact Ha.
Qed.

(** Where an image of the result comes from: a submitted job that returned
    a record, assembled with the image the dict holds for the job's id. *)
Lemma result_image_origin (uuid : string) (seeds : nat -> nat) (picks : list nat)
  (images : list Image) (number : Z) (new_images : list Image) (new_image : Image) :
  generate_augmentations uuid seeds picks images number = Ok new_images ->
  In new_image new_images ->
  exists n image k info,
    nth_error (jobs_of images number) n = Some (image, k) /\
    run_job ("/tmp/tmp_images_augmented/" ++ uuid)%string (seeds n) (image, k)
    = Ok (Some info) /\
    assemble images info = Ok new_image.
Proof.
  intros H Hin.
  pose proof (generate_augmentations_makedirs _ _ _ _ _ _ H) as Hdir.
  rewrite (generate_augmentations_unfold _ _ _ _ _ Hdir) in H.
  destruct (collect_ok_inv _ _ _ _ H _ Hin) as [[]|[info [Hf Ha]]].
  apply as_completed_In in Hf. apply in_map_iff in Hf.
  destruct Hf as [[n [image k]] [Hrun Hj]]. cbn [fst snd] in Hrun.
  apply In_combine_seq in Hj. destruct Hj as [_ Hnth].
  rewrite Nat.sub_0_r in Hnth.
  exists n, image, k, info. repeat split; assumption.
Qed.

(** C5. In a run over images with pairwise distinct ids, every image
    [generate_augmentations] returns was produced from an input image
    [original] at a replica index [k] below the replica count: the job
    submitted for [original] and [k] returned a record, and the image is what
    the loop over the finished jobs builds from that record. Its id is the
    original's with [_aug_k] appended, its [intermediate_ids] are the
    original's followed by the original's id, and its i-th annotation carries
    the id of the original's i-th annotation with [_k] appended and that
    annotation's tags followed by [augmented]. *)
Theorem augmented_lineage (uuid : string) (seeds : nat -> nat) (picks : list nat)
  (images : list Image) (number : Z) (new_images : list Image) (new_image : Image) :
  NoDup (map img_id images) ->
  generate_augmentations uuid seeds picks images number = Ok new_images ->
  In new_image new_images ->
  exists n original k info,
    nth_error (jobs_of images number) n = Some (original, k) /\
    run_job ("/tmp/tmp_images_augmented/" ++ uuid)%string (seeds n) (original, k)
    = Ok (Some info) /\
    assemble images info = Ok new_image /\
    In original images /\
    0 <= k < number /\
    img_id new_image = (img_id original ++ "_aug_" ++ str_int k)%string /\
    img_intermediate_ids new_image
    = img_intermediate_ids original ++ [StrId (img_id original)] /\
    forall i annotation',
      nth_error (img_annotations new_image) i = Some annotation' ->
      exists annotation,
        nth_error (img_annotations original) i = Some annotation /\
        ann_id annotation' = (ann_id annotation ++ "_" ++ str_int k)%string /\
        ann_tags annotation' = ann_tags annotation ++ ["augmented"].
Proof.
  intros Hnd H Hin.
  destruct (result_image_origin _ _ _ _ _ _ _ H Hin)
    as [n [image [k [info [Hnth [Hrun Hasm]]]]]].
  exists n, image, k, info.
  split; [exact Hnth|]. split; [exact Hrun|]. split; [exact Hasm|].
  unfold run_job in Hrun. cbn [fst snd] in Hrun.
  destruct (job_record_inv _ _ _ _ _ _ _ Hrun)
    as [im [polygons [timg [_ [_ [_ [Hid [Horig [Hidx _]]]]]]]]].
  destruct (assemble_inv _ _ _ Hasm) as [original [Ho [Hnid [_ [Hlin Hann]]]]].
  apply nth_error_In in Hnth. apply In_jobs_of in Hnth.
  destruct Hnth as [Himg Hk]. apply In_py_range in Hk.
  rewrite Horig, (original_images_by_id_own _ _ Hnd Himg) in Ho.
  injection Ho as <-.
  split; [exact Himg|]. split; [exact Hk|].
  split; [rewrite Hnid; exact Hid|].
  split; [exact Hlin|].
  intros i annotation' Hi.
  destruct (Forall2_nth_error_r _ _ _ Hann _ _ Hi) as [[annotation segment] [Hc Hmk]].
  apply nth_error_combine in Hc. destruct Hc as [Hai _].
  cbn [fst snd] in Hmk. rewrite Hidx in Hmk.
  destruct (augmented_annotation_inv _ _ _ _ Hmk) as [Hi1 [Hi2 _]].
  exists annotation. repeat split; assumption.
Qed.

End AssemblyFacts.

Lemma augmented_lineage_witness :
  exists new_image original k,
    @generate_augmentations RectWorld.cv2 RectWorld.albumentations
      RectWorld.shapely RectWorld.os "run" (fun _ => 0%nat) []
      [RectWorld.readable_image] 1 = Ok [new_image] /\
    In original [RectWorld.readable_image] /\
    img_id new_image = (img_id original ++ "_aug_" ++ str_int k)%string /\
    img_intermediate_ids new_image
    = img_intermediate_ids original ++ [StrId (img_id original)].
Proof.
  eexists.
  edestruct (@augmented_lineage RectWorld.cv2 RectWorld.albumentations
               RectWorld.shapely RectWorld.os "run" (fun _ => 0%nat) []
               [RectWorld.readable_image] 1)
    as [n [original [k [info [_ [_ [_ [Hin [_ [Hid [Hlin _]]]]]]]]]]].
  - repeat constructor. intros [].
  - vm_compute. reflexivity.
  - left. reflexivity.
  - exists original, k. split; [vm_compute; reflexivity|].
    split; [exact Hin|]. split; [exact Hid|exact Hlin].
Defined.

(** C5 as stated fails where two input images share an id: the dict of the
    originals holds the last of them, so the image built from the record of
    the job that ran on the first takes the lineage, the annotation ids and
    the group of the last. *)
Lemma shared_id_takes_last_lineage :
  exists info new_image new_images,
    @generate_augmentations RectWorld.cv2 RectWorld.albumentations
      RectWorld.shapely RectWorld.os "run" (fun _ => 0%nat) []
      [SharedId.first_image; SharedId.last_image] 1 = Ok new_images /\
    In new_image new_images /\
    @run_job RectWorld.cv2 RectWorld.albumentations RectWorld.shapely
      "/tmp/tmp_images_augmented/run" 0%nat (SharedId.first_image, 0)
    = Ok (Some info) /\
    assemble [SharedId.first_image; SharedId.last_image] info = Ok new_image /\
    img_intermediate_ids SharedId.first_image
      ++ [StrId (img_id SharedId.first_image)]
    = [StrId "root1"; StrId "a"] /\
    img_intermediate_ids new_image = [StrId "root2"; StrId "a"] /\
    map ann_id (img_annotations SharedId.first_image) = ["s"; "r"] /\
    map ann_id (img_annotations new_image) = ["t_0"].
Proof.
  eexists. eexists. eexists.
  split; [vm_compute; reflexivity|].
  split; [left; reflexivity|].
  split; [vm_compute; reflexivity|].
  split; [vm_compute; reflexivity|].
  split; [reflexivity|].
  split; [reflexivity|].
  split; reflexivity.
Qed.

(** ** The values of a mask, and which object a recovered segment is *)

Lemma insert_unique_HdRel (a v : Z) (l : list Z) :
  a < v -> HdRel Z.lt a l -> HdRel Z.lt a (insert_unique v l).
Proof.
  intros Hav H. destruct l as [|x t]; cbn [insert_unique].
  - constructor. exact Hav.
  - apply HdRel_inv in H.
    destruct (v <? x); [constructor; exact Hav|].
    destruct (v =? x); constructor; exact H.
Qed.

Lemma insert_unique_Sorted (v : Z) (l : list Z) :
  Sorted Z.lt l -> Sorted Z.lt (insert_unique v l).
Proof.
  induction 1 as [|x t Ht IH Hhd]; cbn [insert_unique].
  - repeat constructor.
  - destruct (Z.ltb_spec v x) as [Hlt|Hge].
    + constructor; [constructor; assumption|constructor; exact Hlt].
    + destruct (Z.eqb_spec v x) as [Heq|Hne].
      * constructor; assumption.
      * constructor; [exact IH|]. apply insert_unique_HdRel; [lia|exact Hhd].
Qed.

Lemma np_unique_Sorted (mask : mask_t) : StronglySorted Z.lt (np_unique mask).
Proof.
  apply Sorted_StronglySorted; [exact Z.lt_trans|].
  unfold np_unique. induction (concat mask) as [|v t IH]; cbn [fold_right].
  - constructor.
  - apply insert_unique_Sorted. exact IH.
Qed.

Lemma StronglySorted_filter {A : Type} (R : A -> A -> Prop) (f : A -> bool) (l : list A) :
  StronglySorted R l -> StronglySorted R (filter f l).
Proof.
  induction 1 as [|x t Ht IH Hall]; cbn [filter]; [constructor|].
  destruct (f x); [|exact IH].
  constructor; [exact IH|].
  apply Forall_forall. intros y Hy. apply filter_In in Hy.
  rewrite Forall_forall in Hall. apply Hall. apply Hy.
Qed.

(** A strictly ascending list of integers from [a, b) has at most [b - a]
    elements. *)
Lemma ascending_length_bound (l : list Z) :
  forall a b,
    StronglySorted Z.lt l -> Forall (fun x => a <= x < b) l ->
    Z.of_nat (length l) <= Z.max 0 (b - a).
Proof.
  induction l as [|x t IH]; intros a b Hs Hb; [cbn; lia|].
  apply StronglySorted_inv in Hs. destruct Hs as [Hs Hx].
  inversion Hb as [|? ? Hxb Htb]; subst.
  assert (Ht : Forall (fun y => x + 1 <= y < b) t).
  { rewrite Forall_forall in *. intros y Hy.
    specialize (Hx y Hy). specialize (Htb y Hy). lia. }
  specialize (IH (x + 1) b Hs Ht). cbn [length]. lia.
Qed.

(** If it has as many elements as the interval has integers, it is the
    interval. *)
Lemma ascending_full_range (l : list Z) :
  forall lo,
    StronglySorted Z.lt l ->
    Forall (fun x => lo <= x < lo + Z.of_nat (length l)) l ->
    l = map (fun i => lo + Z.of_nat i) (seq 0 (length l)).
Proof.
  induction l as [|x t IH]; intros lo Hs Hb; [reflexivity|].
  apply StronglySorted_inv in Hs. destruct Hs as [Hs Hx].
  inversion Hb as [|? ? Hxb Htb]; subst. cbn [length] in *.
  assert (Ht : Forall (fun y => x + 1 <= y < lo + Z.of_nat (S (length t))) t).
  { rewrite Forall_forall in *. intros y Hy.
    specialize (Hx y Hy). specialize (Htb y Hy). lia. }
  pose proof (ascending_length_bound t _ _ Hs Ht) as Hlen.
  assert (x = lo) by lia. subst x.
  cbn [seq map]. f_equal; [lia|].
  rewrite <- seq_shift, map_map.
  etransitivity; [apply (IH (lo + 1) Hs)|apply map_ext; intro i; lia].
  rewrite Forall_forall in *. intros y Hy. specialize (Ht y Hy). lia.
Qed.

Lemma py_index_ok_inv {A : Type} (l : list A) (i : Z) (x : A) :
  0 <= i -> py_index l i = Ok x ->
  i < Z.of_nat (length l) /\ nth_error l (Z.to_nat i) = Some x.
Proof.
  intros Hi H. unfold py_index in H.
  destruct (Z.ltb_spec i 0); [lia|].
  destruct (Z.ltb_spec i 0); [lia|]. cbn [orb] in H.
  destruct (Z.leb_spec (Z.of_nat (length l)) i); [discriminate|].
  destruct (nth_error l (Z.to_nat i)) as [y|]; [|discriminate].
  injection H as <-. split; [lia|reflexivity].
Qed.

Section LabelOrder.
Context {cv2 : Cv2} {shapely : Shapely}.

Lemma accepted_index_bound (mask : mask_t) (polygons : list (list Z))
  (width height polygon_id : Z) (new_polygon : polygon_t) :
  0 < polygon_id ->
  accepted mask polygons width height polygon_id new_polygon ->
  polygon_id - 1 < Z.of_nat (length polygons).
Proof.
  intros Hpos [_ [v [Hiou _]]]. unfold recovered_iou in Hiou.
  destruct (py_index polygons (polygon_id - 1)) as [original|e] eqn:Hidx;
    [|discriminate].
  apply py_index_ok_inv in Hidx; [|lia]. apply Hidx.
Qed.

(** When as many polygons come back as went in, the object values of the
    mask are 1, 2, ..., and the i-th polygon returned is the one recovered
    for the value [i + 1]: the value with which the i-th input polygon was
    drawn. *)
Lemma recovered_in_label_order (mask : mask_t) (polygons : list (list Z))
  (width height : Z) (new_polygons : list polygon_t) :
  get_new_polygons mask polygons width height = Ok new_polygons ->
  length new_polygons = length polygons ->
  forall i segment,
    nth_error new_polygons i = Some segment ->
    accepted mask polygons width height (Z.of_nat i + 1) segment.
Proof.
  intros H Hlen i segment Hi.
  unfold get_new_polygons in H.
  destruct (recover_loop_ok _ _ _ _ _ _ _ H) as [added [-> Hall]].
  cbn [app] in *. fold (positive_ids mask) in Hall.
  pose proof (Forall2_length Hall) as Hl.
  assert (Hs : StronglySorted Z.lt (positive_ids mask)).
  { apply StronglySorted_filter, np_unique_Sorted. }
  assert (Hb : Forall (fun x => 1 <= x < 1 + Z.of_nat (length (positive_ids mask)))
                      (positive_ids mask)).
  { apply Forall_forall. intros x Hx.
    assert (Hpos : 0 < x).
    { unfold positive_ids in Hx. apply filter_In in Hx.
      apply Z.ltb_lt. apply Hx. }
    destruct (Forall2_In_l _ _ _ _ Hall Hx) as [np [_ Hacc]].
    pose proof (accepted_index_bound _ _ _ _ _ _ Hpos Hacc). lia. }
  pose proof (ascending_full_range _ 1 Hs Hb) as Hids.
  destruct (Forall2_nth_error_r _ _ _ Hall _ _ Hi) as [id [Hid Hacc]].
  assert (Hlt : (i < length (positive_ids mask))%nat).
  { apply nth_error_Some. congruence. }
  apply (nth_error_nth _ _ (1 + Z.of_nat 0)) in Hid.
  rewrite Hids in Hid.
  rewrite (map_nth (fun i => 1 + Z.of_nat i)) in Hid.
  rewrite seq_nth in Hid by exact Hlt.
  replace (Z.of_nat i + 1) with id by (subst id; lia).
  exact Hacc.
Qed.

End LabelOrder.

Lemma annotation_segments_length (image : Image) :
  (length (annotation_segments image) <= length (img_annotations image))%nat.
Proof.
  unfold annotation_segments.
  induction (img_annotations image) as [|a t IH]; cbn [flat_map length]; [lia|].
  rewrite length_app. destruct (ann_segmentation a); cbn [length]; lia.
Qed.

Section PairingFacts.
Context {cv2 : Cv2} {albumentations : Albumentations} {shapely : Shapely} {os : Os}.

(** C8. In a run over images with pairwise distinct ids, every returned
    image comes from the job of an input image [original] and a replica index
    [k]. That job recovered [segments] from the transformed mask, one for each
    annotation of [original] that has a segmentation, the i-th of them from
    the mask value [i + 1], that is from the i-th polygon drawn. The
    annotations of the new image are made by pairing the annotations of
    [original], all of them and in order, with [segments]: there are as many
    as [original] has annotations with a segmentation, and the i-th carries
    the i-th recovered segment together with the id and category of the i-th
    annotation of [original], with or without a segmentation of its own. *)
Theorem augmented_annotations_pairing (uuid : string) (seeds : nat -> nat)
  (picks : list nat) (images : list Image) (number : Z)
  (new_images : list Image) (new_image : Image) :
  NoDup (map img_id images) ->
  generate_augmentations uuid seeds picks images number = Ok new_images ->
  In new_image new_images ->
  exists original k segments im polygons seed transformed_image transformed_mask,
    In original images /\ 0 <= k < number /\
    img_id new_image = (img_id original ++ "_aug_" ++ str_int k)%string /\
    imread (img_path original) = Some im /\
    map_result (denormalize (shape_w im) (shape_h im))
               (annotation_segments original) = Ok polygons /\
    transform seed im (rasterize (shape_h im) (shape_w im) polygons)
    = Ok (transformed_image, transformed_mask) /\
    get_new_polygons transformed_mask polygons (shape_w im) (shape_h im)
    = Ok segments /\
    (forall i segment,
        nth_error segments i = Some segment ->
        accepted transformed_mask polygons (shape_w im) (shape_h im)
                 (Z.of_nat i + 1) segment) /\
    Forall2 (fun (pair : Annotation * polygon_t) annotation' =>
               augmented_annotation k (fst pair) (snd pair) = Ok annotation')
            (combine (img_annotations original) segments)
            (img_annotations new_image) /\
    length segments = length (annotation_segments original) /\
    length (img_annotations new_image) = length (annotation_segments original) /\
    forall i annotation',
      nth_error (img_annotations new_image) i = Some annotation' ->
      exists annotation segment,
        nth_error (img_annotations original) i = Some annotation /\
        nth_error segments i = Some segment /\
        ann_segmentation annotation' = Some segment /\
        ann_id annotation' = (ann_id annotation ++ "_" ++ str_int k)%string /\
        ann_category_id annotation' = ann_category_id annotation.
Proof.
  intros Hnd H Hin.
  destruct (result_image_origin _ _ _ _ _ _ _ H Hin)
    as [n [image [k [info [Hnth [Hrun Hasm]]]]]].
  unfold run_job in Hrun. cbn [fst snd] in Hrun.
  destruct (job_record_inv _ _ _ _ _ _ _ Hrun)
    as [im [polygons [timg [Hread [Hden [Hg [Hid [Horig [Hidx Hlen]]]]]]]]].
  destruct (augment_guarded_ok_inv _ _ _ _ _ _ _ Hg) as [tmask [Ht [Hn Hcount]]].
  destruct (assemble_inv _ _ _ Hasm) as [original [Ho [Hnid [_ [_ Hann]]]]].
  apply nth_error_In in Hnth. apply In_jobs_of in Hnth.
  destruct Hnth as [Himg Hk]. apply In_py_range in Hk.
  rewrite Horig, (original_images_by_id_own _ _ Hnd Himg) in Ho.
  injection Ho as <-. rewrite Hidx in Hann.
  pose proof (Forall2_length Hann) as Hl. rewrite length_combine in Hl.
  pose proof (annotation_segments_length image) as Hle.
  exists image, k, (info_segments info), im, polygons, (seeds n), timg, tmask.
  split; [exact Himg|]. split; [exact Hk|].
  split; [rewrite Hnid; exact Hid|].
  split; [exact Hread|]. split; [exact Hden|]. split; [exact Ht|].
  split; [exact Hn|].
  split; [exact (recovered_in_label_order _ _ _ _ _ Hn Hcount)|].
  split; [exact Hann|]. split; [exact Hlen|]. split; [lia|].
  intros i annotation' Hi.
  destruct (Forall2_nth_error_r _ _ _ Hann _ _ Hi) as [[annotation segment] [Hc Hmk]].
  apply nth_error_combine in Hc. destruct Hc as [Hai Hsi].
  cbn [fst snd] in Hmk.
  destruct (augmented_annotation_inv _ _ _ _ Hmk) as [Hi1 [_ [Hi3 [Hi4 _]]]].
  exists annotation, segment. repeat split; assumption.
Qed.

End PairingFacts.

Lemma augmented_annotations_pairing_witness :
  exists new_image original,
    @generate_augmentations RectWorld.cv2 RectWorld.albumentations
      RectWorld.shapely RectWorld.os "run" (fun _ => 0%nat) []
      [RectWorld.mixed_image] 1 = Ok [new_image] /\
    In original [RectWorld.mixed_image] /\
    length (img_annotations new_image) = length (annotation_segments original).
Proof.
  eexists.
  edestruct (@augmented_annotations_pairing RectWorld.cv2 RectWorld.albumentations
               RectWorld.shapely RectWorld.os "run" (fun _ => 0%nat) []
               [RectWorld.mixed_image] 1)
    as [original [k [segments [im [polygons [seed [timg [tmask
         [Hin [_ [_ [_ [_ [_ [_ [_ [_ [_ [Hlen _]]]]]]]]]]]]]]]]]]].
  - repeat constructor. intros [].
  - vm_compute. reflexivity.
  - left. reflexivity.
  - exists original. split; [vm_compute; reflexivity|].
    split; [exact Hin|exact Hlen].
Defined.

(** The pairing is by position among all annotations: here the segment
    recovered from the object of annotation [s] ends up under the id of
    annotation [n], which has no segmentation. *)
Lemma pairing_crosses_annotations :
  exists new_image annotation' segment,
    @generate_augmentations RectWorld.cv2 RectWorld.albumentations
      RectWorld.shapely RectWorld.os "run" (fun _ => 0%nat) []
      [RectWorld.mixed_image] 1 = Ok [new_image] /\
    img_annotations new_image = [annotation'] /\
    ann_id annotation' = "n_0" /\
    ann_segmentation annotation' = Some segment /\
    Forall2 Qeq segment RectWorld.left_box.
Proof.
  eexists. eexists. eexists.
  split; [vm_compute; reflexivity|].
  split; [reflexivity|]. split; [reflexivity|]. split; [reflexivity|].
  repeat constructor.
Qed.

(** C8 as stated fails where two input images share an id: the job that ran
    on the first recovered a segment for each of its two annotations, and the
    image built from its record pairs them with the annotations of the last,
    which has one. The new image has one annotation, not two, and it goes
    under the id of an annotation of the other image. *)
Lemma shared_id_breaks_pairing :
  exists info new_image new_images annotation',
    @generate_augmentations RectWorld.cv2 RectWorld.albumentations
      RectWorld.shapely RectWorld.os "run" (fun _ => 0%nat) []
      [SharedId.first_image; SharedId.last_image] 1 = Ok new_images /\
    In new_image new_images /\
    @run_job RectWorld.cv2 RectWorld.albumentations RectWorld.shapely
      "/tmp/tmp_images_augmented/run" 0%nat (SharedId.first_image, 0)
    = Ok (Some info) /\
    assemble [SharedId.first_image; SharedId.last_image] info = Ok new_image /\
    length (annotation_segments SharedId.first_image) = 2%nat /\
    length (info_segments info) = 2%nat /\
    img_annotations new_image = [annotation'] /\
    ann_id annotation' = "t_0" /\
    nth_error (img_annotations SharedId.first_image) 0
    = Some (RectWorld.annotation "s" (Some RectWorld.left_box)).
Proof.
  eexists. eexists. eexists. eexists.
  split; [vm_compute; reflexivity|].
  split; [left; reflexivity|].
  split; [vm_compute; reflexivity|].
  split; [vm_compute; reflexivity|].
  split; [reflexivity|].
  split; [reflexivity|].
  split; [reflexivity|].
  split; reflexivity.
Qed.

(** ** generic *)

Section GenericFacts.
Context {cv2 : Cv2} {albumentations : Albumentations} {shapely : Shapely} {os : Os}.

(** C2. [generic] cannot return: [Dataset] declares no [groups], so reading
    [dataset.groups] raises once the augmentations are done (and a run that
    raises earlier raises as well). *)
Theorem generic_raises (uuid : string) (seeds : nat -> nat) (picks : list nat)
  (dataset : Dataset) (number : Z) :
  exists e, generic uuid seeds picks dataset number = Raise e.
Proof.
  unfold generic.
  destruct (generate_augmentations uuid seeds picks (ds_images dataset) number)
    as [augmented_images|e].
  - exists AttributeError. reflexivity.
  - exists e. reflexivity.
Qed.

End GenericFacts.

(** The empty dataset, three replicas: the run returns no images and
    [generic] raises on [dataset.groups]. *)
Lemma generic_raises_on_empty_dataset :
  @generate_augmentations RectWorld.cv2 RectWorld.albumentations RectWorld.shapely
    RectWorld.os "run" (fun _ => 0%nat) [] [] 3 = Ok [] /\
  @generic RectWorld.cv2 RectWorld.albumentations RectWorld.shapely RectWorld.os
    "run" (fun _ => 0%nat) [] {| ds_images := []; ds_categories := [] |} 3
  = Raise AttributeError.
Proof. split; reflexivity. Qed.

(** Only the [groups] keyword is at fault: without it the constructor
    builds the dataset with the augmented images appended and the categories
    as they were; with it, and a value at hand, the constructor refuses. *)
Lemma Dataset_init_without_groups (dataset : Dataset) (augmented_images : list Image) :
  Dataset_init [("images", ImagesValue (ds_images dataset ++ augmented_images));
                ("categories", CategoriesValue (ds_categories dataset))]
  = Ok {| ds_images := ds_images dataset ++ augmented_images;
          ds_categories := ds_categories dataset |}.
Proof. reflexivity. Qed.

Lemma Dataset_init_refuses_groups (images : list Image)
  (categories : list Category) (groups : list string) :
  Dataset_init [("images", ImagesValue images);
                ("categories", CategoriesValue categories);
                ("groups", GroupsValue groups)]
  = Raise TypeError.
Proof. reflexivity. Qed.


(** * Further properties of the code *)

(** ** min, max and rounding *)

Lemma fold_min_spec (t : list Q) :
  forall x,
    let m := fold_left (fun m v => if Qlt_bool v m then v else m) t x in
    In m (x :: t) /\ forall v, In v (x :: t) -> (m <= v)%Q.
Proof.
  induction t as [|a t IH]; intro x; cbn [fold_left].
  - split; [left; reflexivity|]. intros v [<-|[]]. apply Qle_refl.
  - destruct (IH (if Qlt_bool a x then a else x)) as [Hin Hle].
    split.
    + destruct Hin as [Hin|Hin]; [|right; right; exact Hin].
      rewrite <- Hin. destruct (Qlt_bool a x); [right; left|left]; reflexivity.
    + intros v Hv.
      assert (Hx : (fold_left (fun m v => if Qlt_bool v m then v else m) t
                      (if Qlt_bool a x then a else x)
                    <= (if Qlt_bool a x then a else x))%Q)
        by (apply Hle; left; reflexivity).
      destruct Hv as [<-|[<-|Hv]].
      * eapply Qle_trans; [exact Hx|].
        destruct (Qlt_bool a x) eqn:E; [|apply Qle_refl].
        apply Qlt_bool_true in E. apply Qlt_le_weak, E.
      * eapply Qle_trans; [exact Hx|].
        destruct (Qlt_bool a x) eqn:E; [apply Qle_refl|].
        apply Qlt_bool_false in E. exact E.
      * apply Hle. right. exact Hv.
Qed.

Lemma fold_max_spec (t : list Q) :
  forall x,
    let m := fold_left (fun m v => if Qlt_bool m v then v else m) t x in
    In m (x :: t) /\ forall v, In v (x :: t) -> (v <= m)%Q.
Proof.
  induction t as [|a t IH]; intro x; cbn [fold_left].
  - split; [left; reflexivity|]. intros v [<-|[]]. apply Qle_refl.
  - destruct (IH (if Qlt_bool x a then a else x)) as [Hin Hle].
    split.
    + destruct Hin as [Hin|Hin]; [|right; right; exact Hin].
      rewrite <- Hin. destruct (Qlt_bool x a); [right; left|left]; reflexivity.
    + intros v Hv.
      assert (Hx : ((if Qlt_bool x a then a else x)
                    <= fold_left (fun m v => if Qlt_bool m v then v else m) t
                         (if Qlt_bool x a then a else x))%Q)
        by (apply Hle; left; reflexivity).
      destruct Hv as [<-|[<-|Hv]].
      * eapply Qle_trans; [|exact Hx].
        destruct (Qlt_bool x a) eqn:E; [|apply Qle_refl].
        apply Qlt_bool_true in E. apply Qlt_le_weak, E.
      * eapply Qle_trans; [|exact Hx].
        destruct (Qlt_bool x a) eqn:E; [apply Qle_refl|].
        apply Qlt_bool_false in E. exact E.
      * apply Hle. right. exact Hv.
Qed.

Lemma py_min_spec (l : list Q) (m : Q) :
  py_min l = Ok m -> In m l /\ forall v, In v l -> (m <= v)%Q.
Proof.
  destruct l as [|x t]; [discriminate|]. cbn [py_min]. intro H.
  injection H as <-. apply fold_min_spec.
Qed.

Lemma py_max_spec (l : list Q) (m : Q) :
  py_max l = Ok m -> In m l /\ forall v, In v l -> (v <= m)%Q.
Proof.
  destruct l as [|x t]; [discriminate|]. cbn [py_max]. intro H.
  injection H as <-. apply fold_max_spec.
Qed.

Lemma slices_of_long {A : Type} (l : list A) :
  (2 <= length l)%nat ->
  exists x xs y ys, slice_even l = x :: xs /\ slice_odd l = y :: ys.
Proof.
  destruct l as [|x [|y t]]; cbn [length]; intro H; try lia.
  exists x, (slice_even t), y, (slice_odd t).
  split; [reflexivity|]. rewrite slice_odd_cons, slice_even_cons. reflexivity.
Qed.

Lemma length_is_not_zero {A : Type} (a : A) (l : list A) :
  Qeq_bool (inject_Z (Z.of_nat (length (a :: l)))) (0 # 1) = false.
Proof.
  unfold Qeq_bool, inject_Z. cbn [Qnum Qden length].
  apply Z.eqb_neq. lia.
Qed.

(** ** polygons.py: boxes and centers *)

(** X1. The box [bbox_from_polygon] returns is the tight box of the polygon:
    every x of the polygon lies between its x1 and x2, every y between its
    y1 and y2, and each of the four is a coordinate of the polygon. *)
Theorem bbox_from_polygon_tight (polygon : polygon_t) (x1 y1 x2 y2 : Q) :
  bbox_from_polygon polygon = Ok (x1, y1, x2, y2) ->
  (forall x, In x (slice_even polygon) -> (x1 <= x <= x2)%Q) /\
  (forall y, In y (slice_odd polygon) -> (y1 <= y <= y2)%Q) /\
  In x1 (slice_even polygon) /\ In x2 (slice_even polygon) /\
  In y1 (slice_odd polygon) /\ In y2 (slice_odd polygon).
Proof.
  unfold bbox_from_polygon. intro H.
  step_ok H as mx1 Ex1. step_ok H as my1 Ey1.
  step_ok H as mx2 Ex2. step_ok H as my2 Ey2.
  injection H as <- <- <- <-.
  apply py_min_spec in Ex1, Ey1. apply py_max_spec in Ex2, Ey2.
  destruct Ex1 as [Ix1 Lx1], Ey1 as [Iy1 Ly1], Ex2 as [Ix2 Lx2], Ey2 as [Iy2 Ly2].
  repeat split; auto.
Qed.

Lemma bbox_from_polygon_tight_witness :
  exists x1 y1 x2 y2,
    bbox_from_polygon RectWorld.left_box = Ok (x1, y1, x2, y2) /\
    In x1 (slice_even RectWorld.left_box) /\
    forall x, In x (slice_even RectWorld.left_box) -> (x1 <= x <= x2)%Q.
Proof.
  eexists. eexists. eexists. eexists.
  split; [vm_compute; reflexivity|].
  edestruct (bbox_from_polygon_tight RectWorld.left_box)
    as [Hx [_ [Hin _]]]; [vm_compute; reflexivity|].
  split; [exact Hin|exact Hx].
Defined.

(** X2. With fewer than two coordinates there is no y (and perhaps no x) to
    take a minimum or a mean of: [bbox_from_polygon] raises the [ValueError]
    of [min] and [calculate_center_from_polygon] a [ZeroDivisionError]. From
    two coordinates on both return. *)
Theorem short_polygon_has_no_box_nor_center (polygon : polygon_t) :
  ((length polygon < 2)%nat ->
   bbox_from_polygon polygon
   = Raise (ValueError "min() arg is an empty sequence") /\
   calculate_center_from_polygon polygon = Raise ZeroDivisionError) /\
  ((2 <= length polygon)%nat ->
   (exists bbox, bbox_from_polygon polygon = Ok bbox) /\
   (exists center, calculate_center_from_polygon polygon = Ok center)).
Proof.
  split.
  - intro H. destruct polygon as [|x [|y t]]; cbn [length] in H; try lia.
    + split; reflexivity.
    + split; reflexivity.
  - intro H. destruct (slices_of_long polygon H) as [x [xs [y [ys [Ex Ey]]]]].
    unfold bbox_from_polygon, calculate_center_from_polygon.
    rewrite Ex, Ey. split.
    + eexists. reflexivity.
    + unfold py_div. rewrite !length_is_not_zero. cbn [bind].
      eexists. reflexivity.
Qed.

(** ** Rounding *)

Lemma round_half_even_error (q : Q) :
  (- (1 # 2) <= inject_Z (round_half_even q) - q <= 1 # 2)%Q.
Proof.
  unfold round_half_even.
  pose proof (Qfloor_le q) as Hlo. pose proof (Qlt_floor q) as Hhi.
  rewrite inject_Z_plus in Hhi. change (inject_Z 1) with (1 # 1)%Q in Hhi.
  assert (Hone : (inject_Z (Qfloor q + 1) == inject_Z (Qfloor q) + 1)%Q)
    by (rewrite inject_Z_plus; reflexivity).
  destruct (Qlt_bool (q - inject_Z (Qfloor q)) (1 # 2)) eqn:E1.
  - apply Qlt_bool_true in E1. lra.
  - apply Qlt_bool_false in E1.
    destruct (Qlt_bool (1 # 2) (q - inject_Z (Qfloor q))) eqn:E2.
    + apply Qlt_bool_true in E2. rewrite Hone. lra.
    + apply Qlt_bool_false in E2.
      destruct (Z.even (Qfloor q)); [lra|rewrite Hone; lra].
Qed.

Lemma scale_positive (ndigits : nat) :
  (0 < inject_Z (10 ^ Z.of_nat ndigits))%Q.
Proof.
  unfold Qlt, inject_Z. cbn [Qnum Qden].
  assert (0 < 10 ^ Z.of_nat ndigits) by (apply Z.pow_pos_nonneg; lia).
  lia.
Qed.

(** What [round(x, n)] returns is within half a unit of the n-th decimal
    of [x]. *)
Lemma py_round_error (q : Q) (ndigits : nat) :
  (Qabs (py_round q ndigits - q)
   <= (1 # 2) / inject_Z (10 ^ Z.of_nat ndigits))%Q.
Proof.
  unfold py_round.
  pose proof (scale_positive ndigits) as Hs.
  pose proof (round_half_even_error (q * inject_Z (10 ^ Z.of_nat ndigits))) as He.
  set (s := inject_Z (10 ^ Z.of_nat ndigits)) in *.
  set (k := inject_Z (round_half_even (q * s))) in *.
  assert (Hne : ~ (s == 0)%Q) by (intro H0; rewrite H0 in Hs; discriminate).
  assert (Hd : (k / s - q == (k - q * s) / s)%Q) by (field; exact Hne).
  rewrite Hd. apply Qabs_Qle_condition. split.
  - apply Qle_shift_div_l; [exact Hs|].
    assert (Hm : (- ((1 # 2) / s) * s == - (1 # 2))%Q) by (field; exact Hne).
    rewrite Hm. apply He.
  - apply Qle_shift_div_r; [exact Hs|].
    assert (Hm : ((1 # 2) / s * s == 1 # 2)%Q) by (field; exact Hne).
    rewrite Hm. apply He.
Qed.

(** ** polygons.py: joining boxes *)

Lemma get_biggest_bbox_lub (a b : bbox_t) :
  box_encloses (get_biggest_bbox a b) a /\
  box_encloses (get_biggest_bbox a b) b /\
  forall c, box_encloses c a -> box_encloses c b ->
            box_encloses c (get_biggest_bbox a b).
Proof.
  destruct a as [[[ax1 ay1] ax2] ay2]. destruct b as [[[bx1 by1] bx2] by2].
  unfold get_biggest_bbox, get_bbox, box_encloses.
  destruct (Qlt_bool bx1 ax1) eqn:E1; destruct (Qlt_bool by1 ay1) eqn:E2;
    destruct (Qlt_bool ax2 bx2) eqn:E3; destruct (Qlt_bool ay2 by2) eqn:E4;
    try apply Qlt_bool_true in E1; try apply Qlt_bool_false in E1;
    try apply Qlt_bool_true in E2; try apply Qlt_bool_false in E2;
    try apply Qlt_bool_true in E3; try apply Qlt_bool_false in E3;
    try apply Qlt_bool_true in E4; try apply Qlt_bool_false in E4;
    (split; [|split]);
    try (intros [[[cx1 cy1] cx2] cy2] Ha Hb); lra.
Qed.

(** X5. [get_biggest_bbox] returns the smallest box around its two
    arguments: it encloses both, and every box that encloses both encloses
    it. *)
Theorem get_biggest_bbox_is_smallest_enclosing (a b : bbox_t) :
  box_encloses (get_biggest_bbox a b) a /\
  box_encloses (get_biggest_bbox a b) b /\
  forall c, box_encloses c a -> box_encloses c b ->
            box_encloses c (get_biggest_bbox a b).
Proof. exact (get_biggest_bbox_lub a b). Qed.

Lemma fold_get_biggest_bbox (t : list bbox_t) :
  forall b,
    fold_left get_biggest_bbox t b
    = (fold_left (fun m v => if Qlt_bool v m then v else m)
                 (map (fun b : bbox_t => fst (fst (fst b))) t) (fst (fst (fst b))),
       fold_left (fun m v => if Qlt_bool v m then v else m)
                 (map (fun b : bbox_t => snd (fst (fst b))) t) (snd (fst (fst b))),
       fold_left (fun m v => if Qlt_bool m v then v else m)
                 (map (fun b : bbox_t => snd (fst b)) t) (snd (fst b)),
       fold_left (fun m v => if Qlt_bool m v then v else m)
                 (map (fun b : bbox_t => snd b) t) (snd b)).
Proof.
  induction t as [|a t IH]; intro b.
  - destruct b as [[[x1 y1] x2] y2]. reflexivity.
  - cbn [fold_left map]. rewrite IH.
    destruct b as [[[x1 y1] x2] y2]. destruct a as [[[ax1 ay1] ax2] ay2].
    reflexivity.
Qed.

Lemma get_min_max_bbox_fold (annotations : list Annotation) :
  get_min_max_bbox annotations
  = Ok (match annotation_boxes annotations with
        | [] => None
        | b :: t => Some (fold_left get_biggest_bbox t b)
        end).
Proof.
  unfold get_min_max_bbox. fold (annotation_boxes annotations).
  destruct (annotation_boxes annotations) as [|b t]; [reflexivity|].
  cbn [map py_min py_max bind]. rewrite fold_get_biggest_bbox. reflexivity.
Qed.

Lemma fold_get_biggest_bbox_encloses (t : list bbox_t) :
  forall b,
    box_encloses (fold_left get_biggest_bbox t b) b /\
    (forall a, In a t -> box_encloses (fold_left get_biggest_bbox t b) a).
Proof.
  assert (Htrans : forall a b c : bbox_t,
             box_encloses a b -> box_encloses b c -> box_encloses a c).
  { intros [[[? ?] ?] ?] [[[? ?] ?] ?] [[[? ?] ?] ?]. unfold box_encloses. lra. }
  induction t as [|a t IH]; intro b; cbn [fold_left].
  - split; [|intros a []].
    destruct b as [[[x1 y1] x2] y2]. unfold box_encloses. lra.
  - destruct (IH (get_biggest_bbox b a)) as [H1 H2].
    destruct (get_biggest_bbox_lub b a) as [Hb [Ha _]].
    split; [exact (Htrans _ _ _ H1 Hb)|].
    intros c [<-|Hc]; [exact (Htrans _ _ _ H1 Ha)|exact (H2 c Hc)].
Qed.

(** X6. What [get_min_max_bbox] returns encloses the box of every
    annotation that has one. *)
Theorem get_min_max_bbox_encloses (annotations : list Annotation)
  (outer : bbox_t) (annotation : Annotation) (bbox : bbox_t) :
  get_min_max_bbox annotations = Ok (Some outer) ->
  In annotation annotations ->
  ann_bbox annotation = Some bbox ->
  box_encloses outer bbox.
Proof.
  intros H Hin Hb. rewrite get_min_max_bbox_fold in H.
  assert (Hbox : In bbox (annotation_boxes annotations)).
  { unfold annotation_boxes. apply in_flat_map. exists annotation.
    split; [exact Hin|]. rewrite Hb. left. reflexivity. }
  destruct (annotation_boxes annotations) as [|b t]; [discriminate|].
  injection H as <-.
  destruct (fold_get_biggest_bbox_encloses t b) as [H1 H2].
  destruct Hbox as [<-|Hbox]; [exact H1|exact (H2 _ Hbox)].
Qed.

Lemma get_min_max_bbox_encloses_witness :
  box_encloses (1 # 10, 1 # 10, 8 # 10, 8 # 10)%Q (6 # 10, 2 # 10, 8 # 10, 7 # 10)%Q.
Proof.
  apply (get_min_max_bbox_encloses
           [ {| ann_id := "l"; ann_category_id := 0; ann_center := None;
                ann_bbox := Some (1 # 10, 1 # 10, 3 # 10, 8 # 10)%Q;
                ann_segmentation := None; ann_task := "detect";
                ann_conf := (-1 # 1)%Q; ann_category_name := "cell";
                ann_tags := [] |};
             RectWorld.annotation "n" None;
             {| ann_id := "r"; ann_category_id := 0; ann_center := None;
                ann_bbox := Some (6 # 10, 2 # 10, 8 # 10, 7 # 10)%Q;
                ann_segmentation := None; ann_task := "detect";
                ann_conf := (-1 # 1)%Q; ann_category_name := "cell";
                ann_tags := [] |} ]
           (1 # 10, 1 # 10, 8 # 10, 8 # 10)%Q
           {| ann_id := "r"; ann_category_id := 0; ann_center := None;
              ann_bbox := Some (6 # 10, 2 # 10, 8 # 10, 7 # 10)%Q;
              ann_segmentation := None; ann_task := "detect";
              ann_conf := (-1 # 1)%Q; ann_category_name := "cell";
              ann_tags := [] |}
           (6 # 10, 2 # 10, 8 # 10, 7 # 10)%Q).
  - vm_compute. reflexivity.
  - right. right. left. reflexivity.
  - reflexivity.
Defined.

(** ** polygons.py: merge_polygons on more inputs *)

Lemma points_of_dangling (p : polygon_t) (c : Q) :
  Nat.even (length p) = true -> points_of (p ++ [c]) = points_of p.
Proof.
  revert p.
  fix IH 1. intros [|x [|y t]] H.
  - reflexivity.
  - discriminate.
  - cbn [length Nat.even] in H. unfold points_of in *.
    change ((x :: y :: t) ++ [c]) with (x :: y :: (t ++ [c])).
    rewrite !slice_even_cons, !slice_odd_cons, !slice_even_cons.
    cbn [combine]. f_equal. exact (IH t H).
Qed.

Section MergeMore.
Context {shapely : Shapely}.

(** X7. [merge_polygons] pairs the coordinates with [zip], so a coordinate
    left over at the end of a tuple is dropped without notice; the same tuple
    makes [iou_polygons] raise. *)
Theorem dangling_coordinate_dropped_or_refused (p : polygon_t) (c : Q)
  (ps : list polygon_t) (b : polygon_t) :
  Nat.even (length p) = true ->
  merge_polygons ((p ++ [c]) :: ps) = merge_polygons (p :: ps) /\
  iou_polygons (p ++ [c]) b
  = Raise (ValueError "cannot reshape array into shape (2)").
Proof.
  intro H. split.
  - unfold merge_polygons. cbn [map_result].
    rewrite (points_of_dangling p c H). reflexivity.
  - unfold iou_polygons, reshape_pairs.
    rewrite length_app. cbn [length]. rewrite Nat.add_1_r, Nat.even_succ.
    rewrite <- Nat.negb_even, H. reflexivity.
Qed.

Lemma Polygon_of_few (pts : list point) :
  (1 <= length pts <= 2)%nat ->
  Polygon pts
  = Raise (ValueError "A linearring requires at least 4 coordinates.").
Proof.
  intro H. destruct pts as [|p [|q [|r t]]]; cbn [length] in H; try lia;
    reflexivity.
Qed.

Lemma Polygon_raises_only_ValueError (pts : list point) (e : exn) :
  Polygon pts = Raise e -> exists msg, e = ValueError msg.
Proof.
  unfold Polygon, linear_ring. destruct pts as [|p t]; [discriminate|].
  destruct (length (p :: t) <? 3)%nat; cbn [bind]; [|discriminate].
  intro H. injection H as <-. eexists. reflexivity.
Qed.

(** X8. A polygon of one or two vertices anywhere in the input makes
    [merge_polygons] raise a [ValueError]: the polygons are all built before
    the first is looked at. *)
Theorem merge_polygons_refuses_degenerate (polygons : list polygon_t)
  (p : polygon_t) :
  In p polygons ->
  (1 <= length (points_of p) <= 2)%nat ->
  exists msg, merge_polygons polygons = Raise (ValueError msg).
Proof.
  intros Hin Hlen. unfold merge_polygons.
  assert (H : exists msg,
             map_result (fun polygon => Polygon (points_of polygon)) polygons
             = Raise (ValueError msg)).
  { induction polygons as [|q qs IH]; [contradiction|].
    cbn [map_result].
    destruct (Polygon (points_of q)) as [g|e] eqn:Eq.
    - cbn [bind]. destruct Hin as [->|Hin].
      + rewrite (Polygon_of_few _ Hlen) in Eq. discriminate.
      + destruct (IH Hin) as [msg ->]. exists msg. reflexivity.
    - destruct (Polygon_raises_only_ValueError _ _ Eq) as [msg ->].
      exists msg. reflexivity. }
  destruct H as [msg ->]. exists msg. reflexivity.
Qed.

Lemma point_eqb_refl (p : point) : point_eqb p p = true.
Proof.
  unfold point_eqb. rewrite !Qeq_bool_refl. reflexivity.
Qed.

Lemma close_ring_idempotent (pts : list point) :
  (3 <= length pts)%nat -> close_ring (close_ring pts) = close_ring pts.
Proof.
  intro H. destruct pts as [|p0 t]; [reflexivity|].
  assert (Hc : close_ring (p0 :: t) = p0 :: t
               \/ close_ring (p0 :: t) = (p0 :: t) ++ [p0]).
  { unfold close_ring.
    destruct (point_eqb p0 (last (p0 :: t) p0)
              && negb (length (p0 :: t) =? 3)%nat); [left|right]; reflexivity. }
  destruct Hc as [Hc|Hc]; rewrite Hc; [exact Hc|].
  change ((p0 :: t) ++ [p0]) with (p0 :: (t ++ [p0])).
  unfold close_ring.
  change (p0 :: (t ++ [p0])) with ((p0 :: t) ++ [p0]).
  rewrite last_last, point_eqb_refl.
  destruct (Nat.eqb_spec (length ((p0 :: t) ++ [p0])) 3) as [H3|H3];
    [|reflexivity].
  rewrite length_app in H3. cbn [length] in *. lia.
Qed.

Lemma close_ring_length (pts : list point) :
  (length pts <= length (close_ring pts))%nat.
Proof.
  destruct pts as [|p0 t]; [cbn; lia|]. unfold close_ring.
  destruct (point_eqb p0 (last (p0 :: t) p0) && negb (length (p0 :: t) =? 3)%nat);
    [lia|]. rewrite length_app. lia.
Qed.

(** X9. Merging is stable: what [merge_polygons] returns for a single
    polygon of at least three vertices is returned unchanged when it is
    merged again. *)
Theorem merge_single_polygon_stable (p q : polygon_t) :
  (3 <= length (points_of p))%nat ->
  merge_polygons [p] = Ok q ->
  merge_polygons [q] = Ok q.
Proof.
  intros Hlen H.
  unfold merge_polygons in H. cbn [map_result bind] in H.
  rewrite (Polygon_of_three _ Hlen) in H. cbn in H. injection H as <-.
  unfold merge_polygons. cbn [map_result bind].
  rewrite points_of_flatten_points.
  rewrite Polygon_of_three
    by (pose proof (close_ring_length (points_of p)); lia).
  rewrite (close_ring_idempotent _ Hlen). reflexivity.
Qed.

End MergeMore.

Lemma dangling_coordinate_dropped_or_refused_witness :
  @merge_polygons RectWorld.shapely [RectWorld.square ++ [(1 # 2)%Q]]
  = @merge_polygons RectWorld.shapely [RectWorld.square].
Proof.
  apply (@dangling_coordinate_dropped_or_refused RectWorld.shapely
           RectWorld.square (1 # 2)%Q [] RectWorld.square).
  reflexivity.
Defined.

Lemma merge_polygons_refuses_degenerate_witness :
  exists msg,
    @merge_polygons RectWorld.shapely
      [RectWorld.square; [0 # 1; 0 # 1; 1 # 1; 1 # 1]%Q]
    = Raise (ValueError msg).
Proof.
  apply (@merge_polygons_refuses_degenerate RectWorld.shapely
           [RectWorld.square; [0 # 1; 0 # 1; 1 # 1; 1 # 1]%Q]
           [0 # 1; 0 # 1; 1 # 1; 1 # 1]%Q).
  - right. left. reflexivity.
  - vm_compute. lia.
Defined.

Lemma merge_single_polygon_stable_witness :
  exists q,
    @merge_polygons RectWorld.shapely [RectWorld.square] = Ok q /\
    @merge_polygons RectWorld.shapely [q] = Ok q.
Proof.
  eexists. split; [vm_compute; reflexivity|].
  apply (@merge_single_polygon_stable RectWorld.shapely RectWorld.square).
  - vm_compute. lia.
  - vm_compute. reflexivity.
Defined.

(** ** augmentations.py: contours *)

Section ContourFacts.
Context {cv2 : Cv2}.

Lemma find_biggest_contour_fold (contours : list contour_t) :
  forall (m : Q) (best : option contour_t) (seen : list contour_t),
    (forall c, In c seen -> (contourArea c <= m)%Q) ->
    match best with
    | None => m = 0%Q
    | Some c => In c seen /\ contourArea c = m /\ (0 < m)%Q
    end ->
    let r := fold_left
               (fun (acc : Q * option contour_t) contour =>
                  let area := contourArea contour in
                  if Qlt_bool (fst acc) area then (area, Some contour) else acc)
               contours (m, best) in
    (forall c, In c (seen ++ contours) -> (contourArea c <= fst r)%Q) /\
    match snd r with
    | None => fst r = 0%Q
    | Some c => In c (seen ++ contours) /\ contourArea c = fst r /\ (0 < fst r)%Q
    end.
Proof.
  induction contours as [|x t IH]; intros m best seen Hle Hbest.
  - cbn [fold_left fst snd]. rewrite app_nil_r. split; assumption.
  - cbn [fold_left fst snd].
    replace (seen ++ x :: t) with ((seen ++ [x]) ++ t)
      by (rewrite <- app_assoc; reflexivity).
    destruct (Qlt_bool m (contourArea x)) eqn:E.
    + apply Qlt_bool_true in E. apply IH.
      * intros c Hc. apply in_app_or in Hc. destruct Hc as [Hc|[<-|[]]].
        -- apply Qle_trans with m; [apply Hle; exact Hc|apply Qlt_le_weak, E].
        -- apply Qle_refl.
      * split; [apply in_or_app; right; left; reflexivity|].
        split; [reflexivity|].
        destruct best as [c|].
        -- destruct Hbest as [_ [_ Hpos]]. eapply Qlt_trans; eassumption.
        -- subst m. exact E.
    + apply Qlt_bool_false in E. apply IH.
      * intros c Hc. apply in_app_or in Hc. destruct Hc as [Hc|[<-|[]]].
        -- apply Hle. exact Hc.
        -- exact E.
      * destruct best as [c|]; [|exact Hbest].
        destruct Hbest as [Hin Hrest]. split; [|exact Hrest].
        apply in_or_app. left. exact Hin.
Qed.

(** X10. [find_biggest_contour] returns a contour of the list whose area is
    positive and not smaller than any other; when no contour has a positive
    area (the list is empty, or holds only points and lines) it returns
    nothing. *)
Theorem find_biggest_contour_spec (contours : list contour_t) :
  match find_biggest_contour contours with
  | None => forall c, In c contours -> (contourArea c <= 0)%Q
  | Some best =>
      In best contours /\ (0 < contourArea best)%Q /\
      forall c, In c contours -> (contourArea c <= contourArea best)%Q
  end.
Proof.
  unfold find_biggest_contour.
  destruct (find_biggest_contour_fold contours 0%Q None [])
    as [Hle Hbest]; [intros c []|reflexivity|].
  cbn [app] in *.
  destruct (snd (fold_left _ contours (0%Q, None))) as [best|].
  - destruct Hbest as [Hin [Harea Hpos]].
    split; [exact Hin|]. rewrite Harea. split; [exact Hpos|exact Hle].
  - rewrite Hbest in Hle. exact Hle.
Qed.

Lemma even_next (s : Z) : Z.even s = true -> Z.even (s + 1 + 1) = true.
Proof.
  intro H. replace (s + 1 + 1) with (s + 2) by lia.
  rewrite Z.even_add, H. reflexivity.
Qed.

Lemma odd_next (s : Z) : Z.even s = true -> Z.even (s + 1) = false.
Proof. intro H. rewrite Z.even_add, H. reflexivity. Qed.

(** The parity of the position tells x from y in a flattened list of
    points. *)
Lemma map_by_parity {P A B : Type} (f g : A -> B) (a b : P -> A) (points : list P) :
  forall s, Z.even s = true ->
    map (fun ip : Z * A => if Z.even (fst ip) then f (snd ip) else g (snd ip))
        (enumerate_from s (flat_map (fun p => [a p; b p]) points))
    = flat_map (fun p => [f (a p); g (b p)]) points.
Proof.
  induction points as [|p t IH]; intros s Hs; [reflexivity|].
  cbn [flat_map app enumerate_from map fst snd].
  rewrite Hs, (odd_next s Hs). f_equal. f_equal.
  apply IH. apply even_next. exact Hs.
Qed.

Lemma squeeze_points_case (contour : contour_t) :
  squeeze_points contour
  = if (length contour =? 1)%nat then Raise IndexError
    else Ok (flat_map (fun p => [fst p; snd p]) contour).
Proof. destruct contour as [|p [|q t]]; reflexivity. Qed.

(** X11. [get_new_polygon] raises [No contour found] when no contour of
    the object has a positive area. Otherwise it writes down the simplified
    biggest contour, or the contour itself when the simplified one is a single
    point, with every x divided by the width and every y by the height; it
    raises an [IndexError] when both are single points. *)
Theorem get_new_polygon_cases (transformed_mask : mask_t)
  (polygon_id width height : Z) :
  get_new_polygon transformed_mask polygon_id width height
  = match find_biggest_contour
            (findContours (mask_eq transformed_mask polygon_id)) with
    | None => Raise (ValueError "No contour found")
    | Some contour =>
        let smoothed_contour :=
          approxPolyDP contour ((3 # 1000) * arcLength contour true)%Q true in
        if negb (length smoothed_contour =? 1)%nat
        then Ok (normalize_points width height smoothed_contour)
        else if negb (length contour =? 1)%nat
             then Ok (normalize_points width height contour)
             else Raise IndexError
    end.
Proof.
  unfold get_new_polygon.
  destruct (find_biggest_contour
              (findContours (mask_eq transformed_mask polygon_id)))
    as [contour|]; [|reflexivity].
  cbv zeta. rewrite !squeeze_points_case.
  unfold normalize_points, enumerate.
  destruct (length (approxPolyDP contour _ true) =? 1)%nat; cbn [negb try_except].
  - destruct (length contour =? 1)%nat; cbn [negb bind]; [reflexivity|].
    apply f_equal.
    apply (map_by_parity
             (fun v => py_round (inject_Z v / inject_Z width) 5)
             (fun v => py_round (inject_Z v / inject_Z height) 5)
             fst snd contour 0).
    reflexivity.
  - cbn [bind]. apply f_equal.
    apply (map_by_parity
             (fun v => py_round (inject_Z v / inject_Z width) 5)
             (fun v => py_round (inject_Z v / inject_Z height) 5)
             fst snd _ 0).
    reflexivity.
Qed.

End ContourFacts.

(** ** augmentations.py: normalised coordinates and back *)

Lemma inject_Z_pos (w : Z) : 0 < w -> (0 < inject_Z w)%Q.
Proof.
  intro H. change (inject_Z 0 < inject_Z w)%Q. rewrite <- Zlt_Qlt. exact H.
Qed.

Lemma inject_Z_nonneg (x : Z) : 0 <= x -> (0 <= inject_Z x)%Q.
Proof.
  intro H. change (inject_Z 0 <= inject_Z x)%Q. rewrite <- Zle_Qle. exact H.
Qed.

Lemma round_half_even_range (x : Q) (n : Z) :
  (0 <= x)%Q -> (x <= inject_Z n)%Q -> 0 <= round_half_even x <= n.
Proof.
  intros Hlo Hhi. pose proof (round_half_even_error x) as He.
  split.
  - assert (H : (inject_Z (-1) < inject_Z (round_half_even x))%Q).
    { change (inject_Z (-1)) with (- (1 # 1))%Q. lra. }
    rewrite <- Zlt_Qlt in H. lia.
  - assert (H : (inject_Z (round_half_even x) < inject_Z (n + 1))%Q).
    { rewrite inject_Z_plus. change (inject_Z 1) with (1 # 1)%Q. lra. }
    rewrite <- Zlt_Qlt in H. lia.
Qed.

Lemma ratio_range (x w : Z) :
  0 <= x <= w -> 0 < w ->
  (0 <= inject_Z x / inject_Z w <= 1)%Q.
Proof.
  intros Hx Hw.
  assert (Hwq : (0 < inject_Z w)%Q) by (apply inject_Z_pos; exact Hw).
  split.
  - apply Qle_shift_div_l; [exact Hwq|]. rewrite Qmult_0_l.
    apply inject_Z_nonneg. lia.
  - apply Qle_shift_div_r; [exact Hwq|]. rewrite Qmult_1_l.
    rewrite <- Zle_Qle. lia.
Qed.

Lemma py_round_unit (q : Q) (ndigits : nat) :
  (0 <= q <= 1)%Q -> (0 <= py_round q ndigits <= 1)%Q.
Proof.
  intros [Hlo Hhi]. unfold py_round.
  pose proof (scale_positive ndigits) as Hs.
  destruct (round_half_even_range
              (q * inject_Z (10 ^ Z.of_nat ndigits)) (10 ^ Z.of_nat ndigits))
    as [Hk0 Hk1].
  - apply Qmult_le_0_compat; [exact Hlo|apply Qlt_le_weak, Hs].
  - rewrite <- (Qmult_1_l (inject_Z (10 ^ Z.of_nat ndigits))) at 2.
    apply Qmult_le_compat_r; [exact Hhi|apply Qlt_le_weak, Hs].
  - split.
    + apply Qle_shift_div_l; [exact Hs|]. rewrite Qmult_0_l.
      apply inject_Z_nonneg. exact Hk0.
    + apply Qle_shift_div_r; [exact Hs|]. rewrite Qmult_1_l.
      rewrite <- Zle_Qle. exact Hk1.
Qed.

(** X12. A contour that lies within the image is written down within the
    unit square: every coordinate [get_new_polygon] produces from it is
    between 0 and 1. *)
Theorem normalized_contour_in_unit_square (width height : Z) (contour : contour_t) :
  0 < width -> 0 < height ->
  (forall p, In p contour -> 0 <= fst p <= width /\ 0 <= snd p <= height) ->
  forall q, In q (normalize_points width height contour) -> (0 <= q <= 1)%Q.
Proof.
  intros Hw Hh Hin q Hq. unfold normalize_points in Hq.
  apply in_flat_map in Hq. destruct Hq as [p [Hp Hq]].
  destruct (Hin p Hp) as [Hx Hy].
  destruct Hq as [<-|[<-|[]]]; apply py_round_unit; apply ratio_range; assumption.
Qed.

Lemma py_int_nonneg (q : Q) : (0 <= q)%Q -> py_int q = Qfloor q.
Proof.
  intro H. destruct q as [n d]. unfold py_int, Qfloor. cbn [Qnum Qden].
  apply Z.quot_div_nonneg; [|lia].
  unfold Qle in H. cbn [Qnum Qden] in H. lia.
Qed.

(** One coordinate through the normalisation and back. *)
Lemma pixel_there_and_back (x w : Z) :
  0 <= x -> 0 < w < 200000 ->
  x - 1 <= py_int (py_round (inject_Z x / inject_Z w) 5 * inject_Z w) <= x.
Proof.
  intros Hx [Hw0 Hw1].
  assert (Hwq : (0 < inject_Z w)%Q) by (apply inject_Z_pos; exact Hw0).
  assert (Hwb : (inject_Z w < 200000 # 1)%Q).
  { change (200000 # 1)%Q with (inject_Z 200000). rewrite <- Zlt_Qlt. exact Hw1. }
  assert (Hxq : (0 <= inject_Z x)%Q) by (apply inject_Z_nonneg; exact Hx).
  assert (Hne : ~ (inject_Z w == 0)%Q) by (intro H0; rewrite H0 in Hwq; discriminate).
  pose proof (py_round_error (inject_Z x / inject_Z w) 5) as He.
  apply Qabs_Qle_condition in He.
  assert (Hc : ((1 # 2) / inject_Z (10 ^ Z.of_nat 5) == 1 # 200000)%Q)
    by reflexivity.
  rewrite Hc in He. clear Hc.
  set (r := py_round (inject_Z x / inject_Z w) 5) in *.
  assert (Hr0 : (0 <= r)%Q).
  { unfold r, py_round.
    apply Qle_shift_div_l; [apply scale_positive|]. rewrite Qmult_0_l.
    apply inject_Z_nonneg.
    pose proof (round_half_even_error
                  (inject_Z x / inject_Z w * inject_Z (10 ^ Z.of_nat 5))) as Hk.
    assert (Hpos : (0 <= inject_Z x / inject_Z w * inject_Z (10 ^ Z.of_nat 5))%Q).
    { apply Qmult_le_0_compat; [|apply Qlt_le_weak, scale_positive].
      apply Qle_shift_div_l; [exact Hwq|]. rewrite Qmult_0_l. exact Hxq. }
    assert (H : (inject_Z (-1) < inject_Z (round_half_even
                   (inject_Z x / inject_Z w * inject_Z (10 ^ Z.of_nat 5))))%Q).
    { change (inject_Z (-1)) with (- (1 # 1))%Q. lra. }
    rewrite <- Zlt_Qlt in H. lia. }
  assert (Hq0 : (0 <= r * inject_Z w)%Q)
    by (apply Qmult_le_0_compat; [exact Hr0|apply Qlt_le_weak, Hwq]).
  assert (Hd : (r * inject_Z w - inject_Z x
                == (r - inject_Z x / inject_Z w) * inject_Z w)%Q)
    by (field; exact Hne).
  assert (Hlo : (inject_Z x - 1 < r * inject_Z w)%Q).
  { assert (H1 : (- (1 # 200000) * inject_Z w
                  <= (r - inject_Z x / inject_Z w) * inject_Z w)%Q)
      by (apply Qmult_le_compat_r; [apply He|apply Qlt_le_weak, Hwq]).
    rewrite <- Hd in H1. lra. }
  assert (Hhi : (r * inject_Z w < inject_Z x + 1)%Q).
  { assert (H1 : ((r - inject_Z x / inject_Z w) * inject_Z w
                  <= (1 # 200000) * inject_Z w)%Q)
      by (apply Qmult_le_compat_r; [apply He|apply Qlt_le_weak, Hwq]).
    rewrite <- Hd in H1. lra. }
  rewrite (py_int_nonneg _ Hq0). split.
  - assert (H : (inject_Z (x - 1) <= r * inject_Z w)%Q).
    { assert (Hm : (inject_Z (x - 1) == inject_Z x - 1)%Q)
        by (unfold Z.sub; rewrite inject_Z_plus, inject_Z_opp; reflexivity).
      rewrite Hm. lra. }
    apply Qfloor_resp_le in H. rewrite Qfloor_Z in H. exact H.
  - pose proof (Qfloor_le (r * inject_Z w)) as Hf.
    assert (H : (inject_Z (Qfloor (r * inject_Z w)) < inject_Z (x + 1))%Q).
    { rewrite inject_Z_plus. change (inject_Z 1) with (1 # 1)%Q. lra. }
    rewrite <- Zlt_Qlt in H. lia.
Qed.

(** X13. Writing a contour down in normalised coordinates and bringing it
    back to pixels, as [get_new_polygons] does before it computes the IoU,
    gives each coordinate back or the pixel just below it (images narrower
    and lower than 200000 pixels). *)
Theorem to_pixel_space_of_normalized (width height : Z) (contour : contour_t) :
  0 < width < 200000 -> 0 < height < 200000 ->
  (forall p, In p contour -> 0 <= fst p /\ 0 <= snd p) ->
  exists pixels : contour_t,
    to_pixel_space (normalize_points width height contour) width height
    = flat_map (fun p => [fst p; snd p]) pixels /\
    Forall2 (fun p p' : Z * Z =>
               fst p - 1 <= fst p' <= fst p /\ snd p - 1 <= snd p' <= snd p)
            contour pixels.
Proof.
  intros Hw Hh Hpos.
  exists (map (fun p : Z * Z =>
                 (py_int (py_round (inject_Z (fst p) / inject_Z width) 5
                          * inject_Z width),
                  py_int (py_round (inject_Z (snd p) / inject_Z height) 5
                          * inject_Z height)))
              contour).
  split.
  - unfold to_pixel_space, normalize_points, enumerate.
    rewrite (map_by_parity
               (fun el => py_int (el * inject_Z width))
               (fun el => py_int (el * inject_Z height))
               (fun p : Z * Z => py_round (inject_Z (fst p) / inject_Z width) 5)
               (fun p : Z * Z => py_round (inject_Z (snd p) / inject_Z height) 5)
               contour 0 eq_refl).
    rewrite flat_map_concat_map, (flat_map_concat_map _ (map _ contour)), map_map.
    reflexivity.
  - induction contour as [|p t IH]; cbn [map]; constructor.
    + cbn [fst snd]. destruct (Hpos p (or_introl eq_refl)) as [Hx Hy].
      split; apply pixel_there_and_back; assumption.
    + apply IH. intros q Hq. apply Hpos. right. exact Hq.
Qed.

Lemma normalized_contour_in_unit_square_witness :
  Forall (fun q => (0 <= q <= 1)%Q)
         (normalize_points 10 10 [(1, 1); (3, 1); (3, 8); (1, 8)]).
Proof.
  apply Forall_forall.
  apply (normalized_contour_in_unit_square 10 10 [(1, 1); (3, 1); (3, 8); (1, 8)]);
    [lia|lia|].
  intros p Hp. repeat (destruct Hp as [<-|Hp]; [cbn; lia|]). destruct Hp.
Defined.

Lemma to_pixel_space_of_normalized_witness :
  exists pixels : contour_t,
    to_pixel_space (normalize_points 3 3 [(1, 2)]) 3 3
    = flat_map (fun p => [fst p; snd p]) pixels /\
    Forall2 (fun p p' : Z * Z =>
               fst p - 1 <= fst p' <= fst p /\ snd p - 1 <= snd p' <= snd p)
            [(1, 2)] pixels.
Proof.
  apply (to_pixel_space_of_normalized 3 3 [(1, 2)]); [lia|lia|].
  intros p [<-|[]]. cbn. lia.
Defined.

(** ** augmentations.py: the IoU as a number *)

Section IouMore.
Context {shapely : Shapely}.

(** X14. Where the intersection lies within both polygons (its area is not
    negative and not larger than either polygon's) and one polygon has a
    positive area, [iou_polygons] returns a number between 0 and 1. *)
Theorem iou_polygons_between_0_and_1 (a b : polygon_t) (inter : geometry) :
  valid_tuple a -> valid_tuple b ->
  (0 < polygon_area a \/ 0 < polygon_area b)%Q ->
  intersection (polygon_of_tuple a) (polygon_of_tuple b) = Ok inter ->
  (0 <= area inter)%Q ->
  (area inter <= polygon_area a)%Q ->
  (area inter <= polygon_area b)%Q ->
  exists v, iou_polygons a b = Ok v /\ (0 <= v <= 1)%Q.
Proof.
  intros Ha Hb Hpos Hi H0 Hla Hlb.
  pose proof (area_polygon_of_tuple a) as Ea.
  pose proof (area_polygon_of_tuple b) as Eb.
  rewrite (iou_polygons_valid a b Ha Hb), Hi. cbn [bind].
  set (u := (area (polygon_of_tuple a) + area (polygon_of_tuple b) - area inter)%Q).
  assert (Hu : (0 < u)%Q) by (unfold u; rewrite Ea, Eb; destruct Hpos; lra).
  assert (Hne : ~ (u == 0)%Q) by (intro Hz; rewrite Hz in Hu; discriminate).
  rewrite (py_div_nonzero _ _ Hne). eexists. split; [reflexivity|]. split.
  - apply Qle_shift_div_l; [exact Hu|]. rewrite Qmult_0_l. exact H0.
  - apply Qle_shift_div_r; [exact Hu|]. rewrite Qmult_1_l.
    unfold u. rewrite Ea, Eb. lra.
Qed.

(** X15. The IoU of a polygon of positive area with itself is 1, the
    intersection of a polygon with itself having the polygon's area. *)
Theorem iou_polygons_of_itself (a : polygon_t) (inter : geometry) :
  valid_tuple a ->
  (0 < polygon_area a)%Q ->
  intersection (polygon_of_tuple a) (polygon_of_tuple a) = Ok inter ->
  (area inter == polygon_area a)%Q ->
  exists v, iou_polygons a a = Ok v /\ (v == 1)%Q.
Proof.
  intros Ha Hpos Hi Harea.
  pose proof (area_polygon_of_tuple a) as Ea.
  rewrite (iou_polygons_valid a a Ha Ha), Hi. cbn [bind].
  assert (Hne : ~ (area (polygon_of_tuple a) + area (polygon_of_tuple a)
                   - area inter == 0)%Q)
    by (rewrite Ea, Harea; intro Hz; lra).
  rewrite (py_div_nonzero _ _ Hne). eexists. split; [reflexivity|].
  rewrite Ea, Harea. field. intro Hz. lra.
Qed.

(** X16. Two polygons without area (all vertices on a line, say) whose
    intersection has none leave nothing to divide by: [iou_polygons] raises
    [ZeroDivisionError]. *)
Theorem iou_polygons_of_flat_polygons (a b : polygon_t) (inter : geometry) :
  valid_tuple a -> valid_tuple b ->
  (polygon_area a == 0)%Q -> (polygon_area b == 0)%Q ->
  intersection (polygon_of_tuple a) (polygon_of_tuple b) = Ok inter ->
  (area inter == 0)%Q ->
  iou_polygons a b = Raise ZeroDivisionError.
Proof.
  intros Ha Hb Za Zb Hi Zi.
  pose proof (area_polygon_of_tuple a) as Ea.
  pose proof (area_polygon_of_tuple b) as Eb.
  rewrite (iou_polygons_valid a b Ha Hb), Hi. cbn [bind]. unfold py_div.
  assert (Hz : (area (polygon_of_tuple a) + area (polygon_of_tuple b)
                - area inter == 0)%Q) by (rewrite Ea, Eb, Za, Zb, Zi; reflexivity).
  apply Qeq_bool_iff in Hz. rewrite Hz. reflexivity.
Qed.

End IouMore.

Lemma iou_polygons_between_0_and_1_witness :
  exists v,
    @iou_polygons RectWorld.shapely RectWorld.left_box RectWorld.square = Ok v /\
    (0 <= v <= 1)%Q.
Proof.
  eapply (@iou_polygons_between_0_and_1 RectWorld.shapely
            RectWorld.left_box RectWorld.square).
  - split; vm_compute; [reflexivity|lia].
  - split; vm_compute; [reflexivity|lia].
  - left. vm_compute. reflexivity.
  - vm_compute. reflexivity.
  - vm_compute. discriminate.
  - vm_compute. discriminate.
  - vm_compute. discriminate.
Defined.

Lemma iou_polygons_of_itself_witness :
  exists v,
    @iou_polygons RectWorld.shapely RectWorld.square RectWorld.square = Ok v /\
    (v == 1)%Q.
Proof.
  eapply (@iou_polygons_of_itself RectWorld.shapely RectWorld.square).
  - split; vm_compute; [reflexivity|lia].
  - vm_compute. reflexivity.
  - vm_compute. reflexivity.
  - vm_compute. reflexivity.
Defined.

Lemma iou_polygons_of_flat_polygons_witness :
  @iou_polygons RectWorld.shapely
    [0 # 1; 0 # 1; 1 # 1; 0 # 1; 2 # 1; 0 # 1]%Q
    [0 # 1; 5 # 1; 1 # 1; 5 # 1; 2 # 1; 5 # 1]%Q
  = Raise ZeroDivisionError.
Proof.
  eapply (@iou_polygons_of_flat_polygons RectWorld.shapely
            [0 # 1; 0 # 1; 1 # 1; 0 # 1; 2 # 1; 0 # 1]%Q
            [0 # 1; 5 # 1; 1 # 1; 5 # 1; 2 # 1; 5 # 1]%Q).
  - split; vm_compute; [reflexivity|lia].
  - split; vm_compute; [reflexivity|lia].
  - vm_compute. reflexivity.
  - vm_compute. reflexivity.
  - vm_compute. reflexivity.
  - vm_compute. reflexivity.
Defined.

(** ** augmentations.py: what comes back from the mask *)

Section RecoveryMore.
Context {cv2 : Cv2} {shapely : Shapely}.

(** X17. Whenever [get_new_polygons] returns, it returns one polygon for
    each object value of the mask, and no object value exceeds the number of
    input polygons. If it returns as many polygons as went in, the object
    values of the mask are exactly 1, 2, ..., up to that number: no object
    was lost and none was made up. *)
Theorem returned_polygons_and_mask_values (mask : mask_t)
  (polygons : list (list Z)) (width height : Z) (new_polygons : list polygon_t) :
  get_new_polygons mask polygons width height = Ok new_polygons ->
  length new_polygons = length (positive_ids mask) /\
  (forall polygon_id, In polygon_id (positive_ids mask) ->
     1 <= polygon_id <= Z.of_nat (length polygons)) /\
  (length new_polygons = length polygons ->
   positive_ids mask
   = map (fun i => 1 + Z.of_nat i) (seq 0 (length polygons))).
Proof.
  intro H. unfold get_new_polygons in H.
  destruct (recover_loop_ok _ _ _ _ _ _ _ H) as [added [-> Hall]].
  cbn [app]. fold (positive_ids mask) in Hall.
  pose proof (Forall2_length Hall) as Hl.
  assert (Hb : forall id, In id (positive_ids mask) ->
               1 <= id <= Z.of_nat (length polygons)).
  { intros id Hid.
    assert (Hpos : 0 < id).
    { unfold positive_ids in Hid. apply filter_In in Hid.
      apply Z.ltb_lt. apply Hid. }
    destruct (Forall2_In_l _ _ _ _ Hall Hid) as [np [_ Hacc]].
    pose proof (accepted_index_bound _ _ _ _ _ _ Hpos Hacc). lia. }
  split; [symmetry; exact Hl|]. split; [exact Hb|].
  intro Hcount. rewrite <- Hcount, <- Hl.
  apply ascending_full_range.
  - apply StronglySorted_filter, np_unique_Sorted.
  - apply Forall_forall. intros id Hid. specialize (Hb id Hid). lia.
Qed.

End RecoveryMore.

Lemma returned_polygons_and_mask_values_witness :
  exists new_polygons,
    @get_new_polygons RectWorld.cv2 RectWorld.shapely
      RectWorld.left_mask [RectWorld.left_pixels] 10 10 = Ok new_polygons /\
    length new_polygons = length (positive_ids RectWorld.left_mask).
Proof.
  eexists. split; [vm_compute; reflexivity|].
  eapply (@returned_polygons_and_mask_values RectWorld.cv2 RectWorld.shapely
            RectWorld.left_mask [RectWorld.left_pixels] 10 10).
  vm_compute. reflexivity.
Defined.

(** ** augmentations.py: the job at its edges *)

Section JobMore.
Context {cv2 : Cv2} {albumentations : Albumentations} {shapely : Shapely} {os : Os}.

(** X18. A job without segments never returns a record: once the image is
    read, whatever the transform and the mask give, the result is [None]. *)
Theorem job_without_segments_returns_none (seed : nat)
  (image_id image_path target_folder : string) (new_index : Z) :
  generate_augmented_image seed image_id image_path [] target_folder new_index
  = match imread image_path with
    | None => Raise AttributeError
    | Some _ => Ok None
    end.
Proof.
  unfold generate_augmented_image.
  destruct (imread image_path) as [image|]; [|reflexivity].
  cbn [map_result bind].
  destruct (augment_guarded seed image (shape_h image) (shape_w image) [])
    as [[timg nps]|e] eqn:Hg; [|reflexivity].
  destruct (augment_guarded_ok_inv _ _ _ _ _ _ _ Hg) as [tmask [_ [_ Hlen]]].
  destruct nps as [|np nps]; [reflexivity|discriminate].
Qed.

(** X19. Past the [try] block nothing is absorbed and nothing is checked:
    for a replica that was accepted, an exception of [cv2.imwrite] leaves the
    job as it is, and a return value of [False] (the file was not written) is
    ignored, the record naming the file [folder/id_aug_k.jpg] all the
    same. *)
Theorem accepted_replica_and_imwrite (seed : nat)
  (image_id image_path : string) (segments : list polygon_t)
  (target_folder : string) (new_index : Z)
  (image : ndarray_image) (polygons : list (list Z))
  (transformed_image : ndarray_image) (new_polygons : list polygon_t) :
  imread image_path = Some image ->
  map_result (denormalize (shape_w image) (shape_h image)) segments = Ok polygons ->
  augment_guarded seed image (shape_h image) (shape_w image) polygons
  = Ok (transformed_image, new_polygons) ->
  new_polygons <> [] ->
  let new_id := (image_id ++ "_aug_" ++ str_int new_index)%string in
  let target_file := (target_folder ++ "/" ++ new_id ++ ".jpg")%string in
  (forall written,
     imwrite target_file transformed_image = Ok written ->
     generate_augmented_image seed image_id image_path segments target_folder
                              new_index
     = Ok (Some {| info_path := target_file;
                   info_segments := new_polygons;
                   info_id := new_id;
                   info_original_id := image_id;
                   info_image_index := new_index |})) /\
  (forall e,
     imwrite target_file transformed_image = Raise e ->
     generate_augmented_image seed image_id image_path segments target_folder
                              new_index
     = Raise e).
Proof.
  intros Hread Hden Hg Hne new_id target_file.
  unfold generate_augmented_image. fold new_id. fold target_file.
  rewrite Hread, Hden. cbn [bind]. rewrite Hg.
  destruct new_polygons as [|np nps]; [contradiction|]. cbn [length Nat.eqb].
  split; intros r Hr; rewrite Hr; reflexivity.
Qed.

End JobMore.

(** On a disk that cannot be written the replica is recorded as if its file
    were there. *)
Lemma accepted_replica_and_imwrite_witness :
  exists segments,
    @generate_augmented_image ReadOnlyDisk.cv2 RectWorld.albumentations
      RectWorld.shapely 0 "a" "a.jpg" [RectWorld.left_box] "/tmp/out" 0
    = Ok (Some {| info_path := "/tmp/out/a_aug_0.jpg";
                  info_segments := segments;
                  info_id := "a_aug_0";
                  info_original_id := "a";
                  info_image_index := 0 |}).
Proof.
  eexists.
  eapply (@accepted_replica_and_imwrite ReadOnlyDisk.cv2 RectWorld.albumentations
            RectWorld.shapely 0 "a" "a.jpg" [RectWorld.left_box] "/tmp/out" 0).
  - vm_compute. reflexivity.
  - vm_compute. reflexivity.
  - vm_compute. reflexivity.
  - discriminate.
  - vm_compute. reflexivity.
Defined.

(** ** Names of replicas *)

Lemma append_cancel_l (s a b : string) :
  (s ++ a)%string = (s ++ b)%string -> a = b.
Proof.
  induction s as [|c s IH]; cbn [append]; intro H; [exact H|].
  injection H as H. exact (IH H).
Qed.

Lemma list_ascii_of_string_append (a b : string) :
  list_ascii_of_string (a ++ b)
  = list_ascii_of_string a ++ list_ascii_of_string b.
Proof.
  induction a as [|c a IH]; cbn [append list_ascii_of_string app];
    [reflexivity|]. rewrite IH. reflexivity.
Qed.

Lemma append_cancel_r (s a b : string) :
  (a ++ s)%string = (b ++ s)%string -> a = b.
Proof.
  intro H. apply (f_equal list_ascii_of_string) in H.
  rewrite !list_ascii_of_string_append in H. apply app_inv_tail in H.
  apply (f_equal string_of_list_ascii) in H.
  rewrite !string_of_list_ascii_of_string in H. exact H.
Qed.

Lemma to_int_not_nil (z : Z) :
  Z.to_int z <> Decimal.Pos Decimal.Nil /\ Z.to_int z <> Decimal.Neg Decimal.Nil.
Proof.
  destruct z as [|p|p]; cbn [Z.to_int]; split; try discriminate;
    intro H; injection H as H; exact (DecimalPos.Unsigned.to_uint_nonnil p H).
Qed.

(** Printing an integer loses nothing. *)
Lemma str_int_injective (a b : Z) : str_int a = str_int b -> a = b.
Proof.
  unfold str_int. intro H.
  apply (f_equal NilZero.int_of_string) in H.
  destruct (to_int_not_nil a) as [Ha1 Ha2]. destruct (to_int_not_nil b) as [Hb1 Hb2].
  rewrite (NilZero.isi _ Ha1 Ha2), (NilZero.isi _ Hb1 Hb2) in H.
  injection H as H. apply (f_equal Z.of_int) in H.
  rewrite !DecimalZ.of_to in H. exact H.
Qed.

Section NamesMore.
Context {cv2 : Cv2} {albumentations : Albumentations} {shapely : Shapely} {os : Os}.

(** X20. Two replicas of one image with different indices never share an
    id or an output file: the records of the two jobs differ in both. *)
Theorem replicas_have_their_own_files (seed1 seed2 : nat)
  (image_id image_path : string) (segments : list polygon_t)
  (target_folder : string) (k1 k2 : Z) (info1 info2 : augmented_info) :
  k1 <> k2 ->
  generate_augmented_image seed1 image_id image_path segments target_folder k1
  = Ok (Some info1) ->
  generate_augmented_image seed2 image_id image_path segments target_folder k2
  = Ok (Some info2) ->
  info_id info1 <> info_id info2 /\ info_path info1 <> info_path info2.
Proof.
  intros Hk H1 H2.
  assert (Hshape : forall seed k info,
             generate_augmented_image seed image_id image_path segments
                                      target_folder k = Ok (Some info) ->
             info_id info = (image_id ++ "_aug_" ++ str_int k)%string /\
             info_path info
             = (target_folder ++ "/" ++ (image_id ++ "_aug_" ++ str_int k)
                ++ ".jpg")%string).
  { intros seed k info H. unfold generate_augmented_image in H.
    destruct (imread image_path) as [image|]; [|discriminate].
    step_ok H as polygons Hden.
    destruct (augment_guarded seed image (shape_h image) (shape_w image) polygons)
      as [[timg nps]|e]; [|discriminate].
    destruct (length nps =? 0)%nat; [discriminate|].
    step_ok H as written Hw. injection H as <-. split; reflexivity. }
  destruct (Hshape _ _ _ H1) as [Hid1 Hp1].
  destruct (Hshape _ _ _ H2) as [Hid2 Hp2].
  assert (Hids : info_id info1 <> info_id info2).
  { rewrite Hid1, Hid2. intro H.
    apply append_cancel_l, append_cancel_l, str_int_injective in H.
    contradiction. }
  split; [exact Hids|].
  rewrite Hp1, Hp2. intro H.
  apply append_cancel_l, append_cancel_l, append_cancel_r in H.
  apply Hids. rewrite Hid1, Hid2. exact H.
Qed.

End NamesMore.

Lemma replicas_have_their_own_files_witness :
  exists info1 info2,
    @generate_augmented_image RectWorld.cv2 RectWorld.albumentations
      RectWorld.shapely 0 "a" "a.jpg" [RectWorld.left_box] "/tmp/out" 0
    = Ok (Some info1) /\
    @generate_augmented_image RectWorld.cv2 RectWorld.albumentations
      RectWorld.shapely 0 "a" "a.jpg" [RectWorld.left_box] "/tmp/out" 1
    = Ok (Some info2) /\
    info_path info1 <> info_path info2.
Proof.
  eexists. eexists.
  split; [vm_compute; reflexivity|]. split; [vm_compute; reflexivity|].
  eapply (@replicas_have_their_own_files RectWorld.cv2 RectWorld.albumentations
            RectWorld.shapely 0 0 "a" "a.jpg" [RectWorld.left_box] "/tmp/out" 0 1).
  - discriminate.
  - vm_compute. reflexivity.
  - vm_compute. reflexivity.
Defined.

(** ** augmentations.py: the run at its edges *)

Lemma as_completed_nil {A : Type} (picks : list nat) :
  as_completed picks (@nil A) = [].
Proof. destruct picks; reflexivity. Qed.

Lemma jobs_of_length (images : list Image) (number : Z) :
  length (jobs_of images number) = (length images * Z.to_nat number)%nat.
Proof.
  unfold jobs_of. induction images as [|image t IH]; [reflexivity|].
  cbn [flat_map length]. rewrite length_app, IH, length_map.
  unfold py_range. rewrite length_map, length_seq. lia.
Qed.

Lemma collect_length (images : list Image)
  (futures : list (result (option augmented_info))) :
  forall acc out,
    for_each (collect images) futures acc = Ok out ->
    (length out <= length acc + length futures)%nat.
Proof.
  induction futures as [|f t IH]; intros acc out H.
  - cbn in H. injection H as <-. lia.
  - cbn [for_each] in H. step_ok H as acc' Hc.
    apply IH in H. cbn [length].
    assert (length acc' <= S (length acc))%nat; [|lia].
    unfold collect in Hc. destruct f as [[info|]|e]; cbn [bind] in Hc;
      [| |discriminate].
    + step_ok Hc as image Ha. injection Hc as <-.
      rewrite length_app. cbn [length]. lia.
    + injection Hc as <-. lia.
Qed.

Section RunMore.
Context {cv2 : Cv2} {albumentations : Albumentations} {shapely : Shapely} {os : Os}.

(** X21. With no images, or with a replica count of zero or below, no job
    is submitted and the run returns the empty list (the output directory
    having been created). *)
Theorem run_without_jobs (uuid : string) (seeds : nat -> nat) (picks : list nat)
  (images : list Image) (number : Z) :
  makedirs ("/tmp/tmp_images_augmented/" ++ uuid)%string = Ok tt ->
  images = [] \/ number <= 0 ->
  generate_augmentations uuid seeds picks images number = Ok [].
Proof.
  intros Hdir Hno.
  rewrite (generate_augmentations_unfold _ _ _ _ _ Hdir).
  assert (Hjobs : jobs_of images number = []).
  { apply length_zero_iff_nil. rewrite jobs_of_length.
    destruct Hno as [->|Hn]; [reflexivity|].
    replace (Z.to_nat number) with 0%nat by lia. lia. }
  rewrite Hjobs. cbn [length seq combine map]. rewrite as_completed_nil.
  reflexivity.
Qed.

(** X22. A run returns at most one image for each input image and replica
    index. *)
Theorem run_returns_at_most_one_per_job (uuid : string) (seeds : nat -> nat)
  (picks : list nat) (images : list Image) (number : Z) (new_images : list Image) :
  generate_augmentations uuid seeds picks images number = Ok new_images ->
  Z.of_nat (length new_images) <= Z.of_nat (length images) * Z.max 0 number.
Proof.
  intro H.
  pose proof (generate_augmentations_makedirs _ _ _ _ _ _ H) as Hdir.
  rewrite (generate_augmentations_unfold _ _ _ _ _ Hdir) in H.
  apply collect_length in H.
  rewrite (Permutation_length (as_completed_Permutation picks _)) in H.
  rewrite length_map, length_combine, length_seq, Nat.min_id, jobs_of_length in H.
  cbn [length] in H. nia.
Qed.

End RunMore.

Lemma run_without_jobs_witness :
  @generate_augmentations RectWorld.cv2 RectWorld.albumentations RectWorld.shapely
    RectWorld.os "run" (fun _ => 0%nat) [2%nat] [RectWorld.readable_image] (-1)
  = Ok [].
Proof.
  apply (@run_without_jobs RectWorld.cv2 RectWorld.albumentations
           RectWorld.shapely RectWorld.os).
  - reflexivity.
  - right. lia.
Defined.

Lemma run_returns_at_most_one_per_job_witness :
  exists new_images,
    @generate_augmentations RectWorld.cv2 RectWorld.albumentations
      RectWorld.shapely RectWorld.os "run" (fun n => n) []
      [RectWorld.readable_image] 2 = Ok new_images /\
    Z.of_nat (length new_images) <= 1 * Z.max 0 2.
Proof.
  eexists. split; [vm_compute; reflexivity|].
  apply (@run_returns_at_most_one_per_job RectWorld.cv2 RectWorld.albumentations
           RectWorld.shapely RectWorld.os "run" (fun n => n) []
           [RectWorld.readable_image] 2).
  vm_compute. reflexivity.
Defined.

(** ** augmentations.py: what the new images carry *)

Lemma Forall2_In_r_pair {A B : Type} (P : A -> B -> Prop) (l : list A)
  (l' : list B) (y : B) :
  Forall2 P l l' -> In y l' -> exists x, In x l /\ P x y.
Proof.
  induction 1 as [|a b l l' Hab _ IH]; intro Hin; [contradiction|].
  destruct Hin as [->|Hin].
  - exists a. split; [left; reflexivity|exact Hab].
  - destruct (IH Hin) as [x [Hx Hp]]. exists x. split; [right; exact Hx|exact Hp].
Qed.

Lemma string_append_assoc (a b c : string) :
  ((a ++ b) ++ c)%string = (a ++ b ++ c)%string.
Proof.
  induction a as [|ch a IH]; [reflexivity|].
  cbn [String.append]. rewrite IH. reflexivity.
Qed.

Lemma find_first {A : Type} (f : A -> bool) (l : list A) (x : A) :
  find f l = Some x ->
  exists l1 l2,
    l = l1 ++ x :: l2 /\ f x = true /\ forall y, In y l1 -> f y = false.
Proof.
  induction l as [|a t IH]; [discriminate|]. cbn [find].
  destruct (f a) eqn:E.
  - intro H. injection H as <-. exists [], t.
    split; [reflexivity|]. split; [exact E|]. intros y [].
  - intro H. destruct (IH H) as [l1 [l2 [-> [Hx Hl1]]]].
    exists (a :: l1), l2. split; [reflexivity|]. split; [exact Hx|].
    intros y [<-|Hy]; [exact E|exact (Hl1 y Hy)].
Qed.

(** X23. The dict of the originals keeps, of several images with one id,
    the last: a lookup returns the last image of the list with that id, and
    raises [KeyError] exactly when no image has it. *)
Theorem original_images_by_id_last_wins (images : list Image) (key : string) :
  match original_images_by_id images key with
  | Ok original =>
      exists before after,
        images = before ++ original :: after /\
        img_id original = key /\
        forall image, In image after -> img_id image <> key
  | Raise e =>
      e = KeyError /\ forall image, In image images -> img_id image <> key
  end.
Proof.
  unfold original_images_by_id.
  destruct (find (fun image => String.eqb (img_id image) key) (rev images))
    as [original|] eqn:E.
  - destruct (find_first _ _ _ E) as [l1 [l2 [Hrev [Hkey Hl1]]]].
    exists (rev l2), (rev l1). split; [|split].
    + rewrite <- (rev_involutive images), Hrev, rev_app_distr.
      cbn [rev]. rewrite <- app_assoc. reflexivity.
    + apply String.eqb_eq. exact Hkey.
    + intros image Hin Heq. apply in_rev in Hin.
      specialize (Hl1 image Hin). cbn beta in Hl1.
      apply String.eqb_neq in Hl1. contradiction.
  - split; [reflexivity|]. intros image Hin Heq.
    apply in_rev in Hin. pose proof (find_none _ _ E image Hin) as Hn.
    cbn beta in Hn. apply String.eqb_neq in Hn. contradiction.
Qed.

Section CarriedMore.
Context {cv2 : Cv2} {albumentations : Albumentations} {shapely : Shapely} {os : Os}.

Lemma job_record_names (seed : nat) (image_id image_path : string)
  (segments : list polygon_t) (target_folder : string) (k : Z)
  (info : augmented_info) :
  generate_augmented_image seed image_id image_path segments target_folder k
  = Ok (Some info) ->
  info_id info = (image_id ++ "_aug_" ++ str_int k)%string /\
  info_path info = (target_folder ++ "/" ++ info_id info ++ ".jpg")%string.
Proof.
  intro H. unfold generate_augmented_image in H.
  destruct (imread image_path) as [image|]; [|discriminate].
  step_ok H as polygons Hden.
  destruct (augment_guarded seed image (shape_h image) (shape_w image) polygons)
    as [[timg nps]|e]; [|discriminate].
  destruct (length nps =? 0)%nat; [discriminate|].
  step_ok H as written Hw. injection H as <-. split; reflexivity.
Qed.

Lemma assemble_frame (images : list Image) (info : augmented_info)
  (new_image : Image) :
  assemble images info = Ok new_image ->
  exists original,
    original_images_by_id images (info_original_id info) = Ok original /\
    img_id new_image = info_id info /\
    img_path new_image = info_path info /\
    img_width new_image = img_width original /\
    img_height new_image = img_height original /\
    img_size_kb new_image = img_size_kb original /\
    img_group new_image = img_group original.
Proof.
  unfold assemble. intro H.
  step_ok H as original Ho. step_ok H as annotations Ha.
  injection H as <-. exists original. cbn. repeat split.
Qed.

(** X24. An image the run returns takes width, height, size in kilobytes and
    group from its original as they are (nothing is measured on the new
    file), and its path is the file [id.jpg] of the new id in the folder of the
    run. *)
Theorem augmented_image_frame (uuid : string) (seeds : nat -> nat)
  (picks : list nat) (images : list Image) (number : Z)
  (new_images : list Image) (new_image : Image) :
  generate_augmentations uuid seeds picks images number = Ok new_images ->
  In new_image new_images ->
  exists original,
    In original images /\
    img_width new_image = img_width original /\
    img_height new_image = img_height original /\
    img_size_kb new_image = img_size_kb original /\
    img_group new_image = img_group original /\
    img_path new_image
    = ("/tmp/tmp_images_augmented/" ++ uuid ++ "/" ++ img_id new_image
       ++ ".jpg")%string.
Proof.
  intros H Hin.
  destruct (result_image_origin _ _ _ _ _ _ _ H Hin)
    as [n [image [k [info [Hnth [Hrun Hasm]]]]]].
  unfold run_job in Hrun. cbn [fst snd] in Hrun.
  destruct (job_record_names _ _ _ _ _ _ _ Hrun) as [_ Hpath].
  destruct (assemble_frame _ _ _ Hasm)
    as [original [Ho [Hid [Hp [Hw [Hh [Hs Hg]]]]]]].
  destruct (original_images_by_id_inv _ _ _ Ho) as [Hino _].
  exists original. repeat split; try assumption.
  rewrite Hp, Hpath, Hid. apply string_append_assoc.
Qed.

Lemma augmented_annotation_derived (k : Z) (annotation : Annotation)
  (segment : polygon_t) (annotation' : Annotation) :
  augmented_annotation k annotation segment = Ok annotation' ->
  exists bbox center,
    ann_segmentation annotation' = Some segment /\
    bbox_from_polygon segment = Ok bbox /\
    ann_bbox annotation' = Some bbox /\
    calculate_center_from_polygon segment = Ok center /\
    ann_center annotation' = Some center.
Proof.
  unfold augmented_annotation. intro H.
  step_ok H as bbox Hb. step_ok H as center Hc. injection H as <-.
  exists bbox, center. cbn. repeat split; assumption.
Qed.

(** X25. Every annotation of an image the run returns has a segmentation,
    and its box and center are those of that segmentation:
    [bbox_from_polygon] and [calculate_center_from_polygon] of it. *)
Theorem augmented_annotations_are_derived (uuid : string) (seeds : nat -> nat)
  (picks : list nat) (images : list Image) (number : Z)
  (new_images : list Image) (new_image : Image) (annotation' : Annotation) :
  generate_augmentations uuid seeds picks images number = Ok new_images ->
  In new_image new_images ->
  In annotation' (img_annotations new_image) ->
  exists segment bbox center,
    ann_segmentation annotation' = Some segment /\
    bbox_from_polygon segment = Ok bbox /\
    ann_bbox annotation' = Some bbox /\
    calculate_center_from_polygon segment = Ok center /\
    ann_center annotation' = Some center.
Proof.
  intros H Hin Ha.
  destruct (result_image_origin _ _ _ _ _ _ _ H Hin)
    as [n [image [k [info [_ [_ Hasm]]]]]].
  destruct (assemble_inv _ _ _ Hasm) as [original [_ [_ [_ [_ Hann]]]]].
  destruct (Forall2_In_r_pair _ _ _ _ Hann Ha) as [[annotation segment] [_ Hmk]].
  cbn [fst snd] in Hmk.
  destruct (augmented_annotation_derived _ _ _ _ Hmk) as [bbox [center Hd]].
  exists segment, bbox, center. exact Hd.
Qed.

End CarriedMore.

Lemma augmented_image_frame_witness :
  exists new_image original,
    @generate_augmentations RectWorld.cv2 RectWorld.albumentations
      RectWorld.shapely RectWorld.os "run" (fun _ => 0%nat) []
      [RectWorld.readable_image] 1 = Ok [new_image] /\
    In original [RectWorld.readable_image] /\
    img_width new_image = img_width original /\
    img_height new_image = img_height original /\
    img_size_kb new_image = img_size_kb original /\
    img_group new_image = img_group original /\
    img_path new_image
    = ("/tmp/tmp_images_augmented/" ++ "run" ++ "/" ++ img_id new_image
       ++ ".jpg")%string.
Proof.
  eexists.
  edestruct (@augmented_image_frame RectWorld.cv2 RectWorld.albumentations
               RectWorld.shapely RectWorld.os "run" (fun _ => 0%nat) []
               [RectWorld.readable_image] 1)
    as [original Hframe].
  - vm_compute. reflexivity.
  - left. reflexivity.
  - exists original. split; [vm_compute; reflexivity|]. exact Hframe.
Defined.

Lemma augmented_annotations_are_derived_witness :
  exists new_image annotation' segment bbox center,
    @generate_augmentations RectWorld.cv2 RectWorld.albumentations
      RectWorld.shapely RectWorld.os "run" (fun _ => 0%nat) []
      [RectWorld.readable_image] 1 = Ok [new_image] /\
    In annotation' (img_annotations new_image) /\
    ann_segmentation annotation' = Some segment /\
    bbox_from_polygon segment = Ok bbox /\
    ann_bbox annotation' = Some bbox /\
    calculate_center_from_polygon segment = Ok center /\
    ann_center annotation' = Some center.
Proof.
  eexists. eexists.
  edestruct (@augmented_annotations_are_derived RectWorld.cv2
               RectWorld.albumentations RectWorld.shapely RectWorld.os
               "run" (fun _ => 0%nat) [] [RectWorld.readable_image] 1)
    as [segment [bbox [center Hd]]].
  - vm_compute. reflexivity.
  - left. reflexivity.
  - cbn. left. reflexivity.
  - exists segment, bbox, center.
    split; [vm_compute; reflexivity|]. split; [cbn; left; reflexivity|].
    exact Hd.
Defined.

(** ** tools/dataset.py: the sizes of the groups *)

Lemma py_int_fraction (n : Z) (r : Q) :
  0 <= n -> (0 <= r <= 1)%Q -> 0 <= py_int (inject_Z n * r) <= n.
Proof.
  intros Hn [Hr0 Hr1].
  pose proof (inject_Z_nonneg n Hn) as Hq.
  assert (H0 : (0 <= inject_Z n * r)%Q) by nra.
  assert (H1 : (inject_Z n * r <= inject_Z n)%Q) by nra.
  rewrite (py_int_nonneg _ H0). split.
  - change 0 with (Qfloor (inject_Z 0)). rewrite Qfloor_Z.
    rewrite <- (Qfloor_Z 0). apply Qfloor_resp_le. exact H0.
  - rewrite <- (Qfloor_Z n) at 2. apply Qfloor_resp_le. exact H1.
Qed.

Lemma share_range (a b : Q) :
  (0 <= a)%Q -> (0 <= b)%Q -> (0 < a + b)%Q -> (0 <= a / (a + b) <= 1)%Q.
Proof.
  intros Ha Hb Hab. split.
  - apply Qle_shift_div_l; [exact Hab|]. lra.
  - apply Qle_shift_div_r; [exact Hab|]. lra.
Qed.

(** X26. For a number of augmented images between 0 and the total, a train
    share between 0 and 1 and val and test shares that are not negative and
    not both zero, [calculate_total_images] returns three sizes that are not
    negative and add up to the total. *)
Theorem calculate_total_images_partition (total_images : Z)
  (train_percentage val_percentage test_percentage : Q)
  (num_augmented_images : Z) :
  0 <= num_augmented_images <= total_images ->
  (0 <= train_percentage <= 1)%Q ->
  (0 <= val_percentage)%Q -> (0 <= test_percentage)%Q ->
  (0 < val_percentage + test_percentage)%Q ->
  exists train_total val_total test_total,
    calculate_total_images total_images train_percentage val_percentage
                           test_percentage num_augmented_images
    = Ok (train_total, val_total, test_total) /\
    train_total + val_total + test_total = total_images /\
    0 <= train_total /\ 0 <= val_total /\ 0 <= test_total.
Proof.
  intros [Ha0 Ha1] Htrain Hval Htest Hsum.
  unfold calculate_total_images.
  rewrite py_div_nonzero by lra. cbn [bind].
  assert (Htotal : 0 <= total_images) by lia.
  pose proof (py_int_fraction total_images train_percentage Htotal Htrain) as Ht.
  set (t0 := py_int (inject_Z total_images * train_percentage)) in *.
  set (train_total := if t0 - num_augmented_images <? 0
                      then num_augmented_images
                      else t0 - num_augmented_images).
  assert (Htr : 0 <= train_total <= total_images).
  { unfold train_total.
    destruct (Z.ltb_spec (t0 - num_augmented_images) 0); lia. }
  assert (Hrem : 0 <= total_images - train_total) by lia.
  pose proof (py_int_fraction _ _ Hrem
                (share_range val_percentage test_percentage Hval Htest Hsum))
    as Hva.
  eexists _, _, _. split; [reflexivity|]. lia.
Qed.

Lemma calculate_total_images_partition_witness :
  exists train_total val_total test_total,
    calculate_total_images 10 (7 # 10) (2 # 10) (1 # 10) 3
    = Ok (train_total, val_total, test_total) /\
    train_total + val_total + test_total = 10 /\
    0 <= train_total /\ 0 <= val_total /\ 0 <= test_total.
Proof.
  apply (calculate_total_images_partition 10 (7 # 10) (2 # 10) (1 # 10) 3).
  - lia.
  - split; discriminate.
  - discriminate.
  - discriminate.
  - reflexivity.
Defined.

(** ** tools/dataset.py: the groups of the images *)

Lemma firstn_of_seq (k start len : nat) :
  (k <= len)%nat -> firstn k (seq start len) = seq start k.
Proof.
  revert start len. induction k as [|k IH]; intros start len Hk; [reflexivity|].
  destruct len as [|len]; [lia|].
  cbn [seq firstn]. rewrite IH by lia. reflexivity.
Qed.

Lemma py_slice_seq (n : nat) (start stop : Z) :
  0 <= start ->
  0 <= stop ->
  py_slice (seq 0 n) start stop
  = seq (Z.to_nat (Z.min start (Z.of_nat n)))
        (Z.to_nat (Z.min stop (Z.of_nat n))
         - Z.to_nat (Z.min start (Z.of_nat n))).
Proof.
  intros Hstart Hstop. unfold py_slice, clamp_index. rewrite length_seq.
  destruct (Z.ltb_spec start 0); [lia|].
  destruct (Z.ltb_spec stop 0); [lia|].
  rewrite skipn_seq, firstn_of_seq by lia.
  cbn [Nat.add]. f_equal. lia.
Qed.

Lemma image_ref_eqb_eq (r s : image_ref) : image_ref_eqb r s = true <-> r = s.
Proof.
  destruct r as [i|i], s as [j|j]; cbn [image_ref_eqb];
    try (split; discriminate).
  - rewrite Nat.eqb_eq. split; [intros ->; reflexivity|intro H; injection H; auto].
  - rewrite Nat.eqb_eq. split; [intros ->; reflexivity|intro H; injection H; auto].
Qed.

(** An object assigned once ends with the group of that assignment. *)
Lemma final_group_own (assignments : list (image_ref * string))
  (a : image_ref * string) (unassigned : string) :
  NoDup (map fst assignments) -> In a assignments ->
  final_group assignments (fst a) unassigned = snd a.
Proof.
  intros Hnd Hin. unfold final_group.
  destruct (find (fun a' => image_ref_eqb (fst a') (fst a)) (rev assignments))
    as [a'|] eqn:E.
  - apply find_some in E. destruct E as [Hin' Heq].
    apply in_rev in Hin'. apply image_ref_eqb_eq in Heq.
    rewrite (NoDup_map_inj fst assignments a' a Hnd Hin' Hin Heq). reflexivity.
  - pose proof (find_none _ _ E a (proj1 (in_rev _ _) Hin)) as Hn.
    cbn beta in Hn.
    assert (Ht : image_ref_eqb (fst a) (fst a) = true)
      by (apply image_ref_eqb_eq; reflexivity).
    congruence.
Qed.

Lemma flat_map_map {A B C : Type} (g : A -> B) (f : B -> list C) (l : list A) :
  flat_map f (map g l) = flat_map (fun x => f (g x)) l.
Proof.
  induction l as [|x t IH]; [reflexivity|].
  cbn [map flat_map]. rewrite IH. reflexivity.
Qed.

Lemma flat_map_ext_In {A B : Type} (f g : A -> list B) (l : list A) :
  (forall x, In x l -> f x = g x) -> flat_map f l = flat_map g l.
Proof.
  induction l as [|x t IH]; intro H; [reflexivity|].
  cbn [flat_map]. rewrite (H x) by (left; reflexivity).
  rewrite IH; [reflexivity|]. intros y Hy. apply H. right. exact Hy.
Qed.

(** Reading the positions [start], ..., [start + k - 1] of a list. *)
Lemma flat_map_nth_error_seq {A B : Type} (f : A -> B) (l : list A)
  (start k : nat) :
  flat_map (fun j => match nth_error l j with
                     | Some x => [f x]
                     | None => []
                     end) (seq start k)
  = map f (firstn k (skipn start l)).
Proof.
  revert start k. induction l as [|x t IH]; intros start k.
  - rewrite skipn_nil, firstn_nil. cbn [map].
    generalize start. induction k as [|k IHk]; intro s; [reflexivity|].
    cbn [seq flat_map]. rewrite IHk. destruct s; reflexivity.
  - destruct start as [|start].
    + destruct k as [|k]; [reflexivity|].
      cbn [seq flat_map nth_error skipn firstn map app].
      rewrite <- seq_shift, flat_map_map. cbn [nth_error].
      rewrite (IH 0%nat k). reflexivity.
    + rewrite <- seq_shift, flat_map_map. cbn [nth_error skipn].
      apply IH.
Qed.

Lemma NoDup_map_injective {A B : Type} (f : A -> B) (l : list A) :
  (forall x y, f x = f y -> x = y) -> NoDup l -> NoDup (map f l).
Proof.
  intros Hinj. induction 1 as [|x t Hx _ IH]; cbn [map]; constructor.
  - intro Hin. apply in_map_iff in Hin. destruct Hin as [y [Hy Hin]].
    apply Hinj in Hy. subst y. contradiction.
  - exact IH.
Qed.

(** X27. With three slices that follow one another from 0 ([0:a], [a:b]
    and [b:c] with [0 <= a <= b] and [c] at or past the end),
    [assign_groups] returns every image once: the augmented images first, in
    the group [train], then the others in their order, cut into three
    stretches that get the three groups. *)
Theorem assign_groups_contiguous (images_to_resplit augmented_images : list Image)
  (g1 g2 g3 : string) (a b c : Z) :
  0 <= a <= b ->
  Z.of_nat (length images_to_resplit) <= c ->
  exists part1 part2 part3,
    images_to_resplit = part1 ++ part2 ++ part3 /\
    Z.of_nat (length part1) = Z.min a (Z.of_nat (length images_to_resplit)) /\
    Z.of_nat (length part1 + length part2)
    = Z.min b (Z.of_nat (length images_to_resplit)) /\
    assign_groups images_to_resplit augmented_images
                  [(g1, 0, a); (g2, a, b); (g3, b, c)]
    = map (set_group "train") augmented_images ++
      map (set_group g1) part1 ++
      map (set_group g2) part2 ++
      map (set_group g3) part3.
Proof.
  intros [Ha Hab] Hc.
  set (n := length images_to_resplit) in *.
  set (A := Z.to_nat (Z.min a (Z.of_nat n))).
  set (B := Z.to_nat (Z.min b (Z.of_nat n))).
  assert (HAB : (A <= B <= n)%nat) by (unfold A, B; lia).
  exists (firstn A images_to_resplit),
         (firstn (B - A) (skipn A images_to_resplit)),
         (skipn B images_to_resplit).
  split; [|split; [|split]].
  - rewrite <- (firstn_skipn A images_to_resplit) at 1. f_equal.
    rewrite <- (firstn_skipn (B - A) (skipn A images_to_resplit)) at 1. f_equal.
    rewrite skipn_skipn. f_equal. lia.
  - rewrite length_firstn. fold n. unfold A. lia.
  - rewrite !length_firstn, length_skipn. fold n. unfold A, B. lia.
  - unfold assign_groups. fold n.
    set (assignments := group_assignments n (length augmented_images) _).
    assert (Hasg : assignments
                   = map (fun i => (AugmentedRef i, "train"))
                         (seq 0 (length augmented_images)) ++
                     map (fun j => (ResplitRef j, g1)) (seq 0 A) ++
                     map (fun j => (ResplitRef j, g2)) (seq A (B - A)) ++
                     map (fun j => (ResplitRef j, g3)) (seq B (n - B))).
    { unfold assignments, group_assignments. cbn [flat_map fst snd].
      rewrite !py_slice_seq by lia. rewrite app_nil_r.
      replace (Z.to_nat (Z.min 0 (Z.of_nat n))) with 0%nat by lia.
      replace (Z.to_nat (Z.min c (Z.of_nat n))) with n by lia.
      fold A B. rewrite Nat.sub_0_r. reflexivity. }
    assert (Hnd : NoDup (map fst assignments)).
    { rewrite Hasg, !map_app, !map_map. cbn [fst].
      apply NoDup_app.
      - apply NoDup_map_injective; [|apply seq_NoDup].
        intros x y H. injection H; auto.
      - rewrite <- !map_app.
        replace (seq 0 A ++ seq A (B - A) ++ seq B (n - B)) with (seq 0 n).
        + apply NoDup_map_injective; [|apply seq_NoDup].
          intros x y H. injection H; auto.
        + replace n with (A + ((B - A) + (n - B)))%nat at 1 by lia.
          rewrite !seq_app. cbn [Nat.add].
          replace (A + (B - A))%nat with B by lia. reflexivity.
      - intros r Hr Hr'. apply in_map_iff in Hr. destruct Hr as [i [<- _]].
        rewrite <- !map_app in Hr'. apply in_map_iff in Hr'.
        destruct Hr' as [j [Hj _]]. discriminate. }
    rewrite (flat_map_ext_In _
               (fun a0 : image_ref * string =>
                  match deref images_to_resplit augmented_images (fst a0) with
                  | Some image => [set_group (snd a0) image]
                  | None => []
                  end)).
    2:{ intros a0 Hin.
        destruct (deref images_to_resplit augmented_images (fst a0)); [|reflexivity].
        rewrite (final_group_own assignments a0 _ Hnd Hin). reflexivity. }
    rewrite Hasg, !flat_map_app, !flat_map_map. cbn [fst snd deref].
    rewrite !flat_map_nth_error_seq.
    cbn [skipn]. rewrite firstn_all.
    replace (firstn (n - B) (skipn B images_to_resplit))
      with (skipn B images_to_resplit)
      by (symmetry; apply firstn_all2; rewrite length_skipn; fold n; lia).
    reflexivity.
Qed.

Lemma assign_groups_contiguous_witness :
  exists part1 part2 part3,
    [RectWorld.readable_image; RectWorld.mixed_image; RectWorld.unreadable_image]
    = part1 ++ part2 ++ part3 /\
    Z.of_nat (length part1) = Z.min 1 3 /\
    Z.of_nat (length part1 + length part2) = Z.min 2 3 /\
    assign_groups
      [RectWorld.readable_image; RectWorld.mixed_image; RectWorld.unreadable_image]
      [RectWorld.image "a_aug_0" "a_aug_0.jpg" []]
      [("train", 0, 1); ("val", 1, 2); ("test", 2, 4)]
    = map (set_group "train") [RectWorld.image "a_aug_0" "a_aug_0.jpg" []] ++
      map (set_group "train") part1 ++
      map (set_group "val") part2 ++
      map (set_group "test") part3.
Proof.
  apply (assign_groups_contiguous
           [RectWorld.readable_image; RectWorld.mixed_image;
            RectWorld.unreadable_image]
           [RectWorld.image "a_aug_0" "a_aug_0.jpg" []]
           "train" "val" "test" 1 2 4).
  - lia.
  - cbn. lia.
Defined.

(** ** tools/dataset.py: what [re_split_dataset] comes to *)

Lemma calculate_total_images_of_nothing (train val test : Q) :
  calculate_total_images 0 train val test 0
  = if Qeq_bool (val + test) (0 # 1) then Raise ZeroDivisionError
    else Ok (0, 0, 0).
Proof.
  unfold calculate_total_images, py_div.
  destruct (Qeq_bool (val + test) (0 # 1)); [reflexivity|].
  cbn [bind]. unfold py_int. cbn [Qnum Qden inject_Z Qmult].
  rewrite !Z.mul_0_l, !Z.quot_0_l by lia. reflexivity.
Qed.

Section ReSplitFacts.
Context {float64 : Float64}.

(** X28. [re_split_dataset] never returns, whatever the arithmetic of
    doubles gives at the percentage check. If [math.ceil] raises there, the
    call raises with it, and a rounded total other than 100 gives the
    [ValueError]. Past the check the first image stops the call with an
    [AttributeError] ([Image] has no [tags]), and on a dataset without images
    the call ends in a [ZeroDivisionError] when the val and test shares add up
    to zero and else in the [TypeError] of [Dataset(groups=...)]. *)
Theorem re_split_dataset_never_returns (picks : list nat) (dataset : Dataset)
  (train_percentage val_percentage test_percentage : Q) :
  re_split_dataset picks dataset train_percentage val_percentage test_percentage
  = Raise
      (match rounded_total_percentage train_percentage val_percentage
                                      test_percentage with
       | Raise e => e
       | Ok rounded_total =>
           if rounded_total =? 100
           then match ds_images dataset with
                | _ :: _ => AttributeError
                | [] => if Qeq_bool (val_percentage + test_percentage) (0 # 1)
                        then ZeroDivisionError
                        else TypeError
                end
           else ValueError "The sum of the percentages must be 1.0"
       end).
Proof.
  unfold re_split_dataset.
  destruct (rounded_total_percentage train_percentage val_percentage
                                     test_percentage)
    as [rounded_total|e]; [|reflexivity].
  cbn [bind]. destruct (rounded_total =? 100); cbn [negb]; [|reflexivity].
  destruct (ds_images dataset) as [|image rest]; [|reflexivity].
  cbn [filter_result bind length Z.of_nat].
  rewrite calculate_total_images_of_nothing.
  destruct (Qeq_bool (val_percentage + test_percentage) (0 # 1));
    [reflexivity|].
  unfold random_shuffle. rewrite as_completed_nil. reflexivity.
Qed.

End ReSplitFacts.

(** ** tools/base.py: loading images *)

Lemma seen_iff (id : string) (already_seen : list string) :
  existsb (String.eqb id) already_seen = true <-> In id already_seen.
Proof.
  rewrite existsb_exists. split.
  - intros [x [Hin Heq]]. apply String.eqb_eq in Heq. subst x. exact Hin.
  - intro Hin. exists id. split; [exact Hin|apply String.eqb_refl].
Qed.

Lemma remove_duplicated_ids_ids (already_seen : list string) (images : list Image)
  (id : string) :
  In id (map img_id (remove_duplicated_ids already_seen images)) <->
  In id (map img_id images) /\ ~ In id already_seen.
Proof.
  revert already_seen. induction images as [|image rest IH]; intro already_seen.
  - cbn. tauto.
  - cbn [remove_duplicated_ids map].
    destruct (existsb (String.eqb (img_id image)) already_seen) eqn:E.
    + apply seen_iff in E. rewrite IH. cbn [In]. split.
      * intros [Hin Hns]. split; [right; exact Hin|exact Hns].
      * intros [[Heq|Hin] Hns]; [subst id; contradiction|].
        split; assumption.
    + assert (Hns : ~ In (img_id image) already_seen).
      { intro Hin. apply seen_iff in Hin. congruence. }
      cbn [map In]. rewrite IH. cbn [In]. split.
      * intros [Heq|[Hin Hn]].
        -- subst id. split; [left; reflexivity|exact Hns].
        -- split; [right; exact Hin|]. intro Hs. apply Hn. right. exact Hs.
      * intros [[Heq|Hin] Hn]; [left; exact Heq|].
        destruct (String.eqb_spec (img_id image) id) as [Heq|Hne];
          [left; exact Heq|].
        right. split; [exact Hin|]. intros [Heq|Hs]; contradiction.
Qed.

Lemma remove_duplicated_ids_NoDup (already_seen : list string)
  (images : list Image) :
  NoDup (map img_id (remove_duplicated_ids already_seen images)).
Proof.
  revert already_seen. induction images as [|image rest IH]; intro already_seen.
  - constructor.
  - cbn [remove_duplicated_ids].
    destruct (existsb (String.eqb (img_id image)) already_seen); [apply IH|].
    cbn [map]. constructor; [|apply IH].
    intro Hin. apply remove_duplicated_ids_ids in Hin.
    destruct Hin as [_ Hn]. apply Hn. left. reflexivity.
Qed.

Lemma remove_duplicated_ids_first (already_seen : list string)
  (images : list Image) (image : Image) :
  In image (remove_duplicated_ids already_seen images) ->
  exists before after,
    images = before ++ image :: after /\
    ~ In (img_id image) (map img_id before).
Proof.
  revert already_seen. induction images as [|x rest IH]; intro already_seen;
    [contradiction|].
  cbn [remove_duplicated_ids].
  destruct (existsb (String.eqb (img_id x)) already_seen) eqn:E.
  - intro Hin. apply seen_iff in E.
    pose proof (in_map img_id _ _ Hin) as Hid.
    apply remove_duplicated_ids_ids in Hid. destruct Hid as [_ Hns].
    destruct (IH _ Hin) as [before [after [-> Hb]]].
    exists (x :: before), after. split; [reflexivity|].
    cbn [map In]. intros [Heq|Hin']; [|contradiction].
    apply Hns. rewrite <- Heq. exact E.
  - intros [<-|Hin].
    + exists [], rest. split; [reflexivity|]. intros [].
    + pose proof (in_map img_id _ _ Hin) as Hid.
      apply remove_duplicated_ids_ids in Hid. destruct Hid as [_ Hns].
      destruct (IH _ Hin) as [before [after [-> Hb]]].
      exists (x :: before), after. split; [reflexivity|].
      cbn [map In]. intros [Heq|Hin']; [|contradiction].
      apply Hns. left. exact Heq.
Qed.

Lemma remove_duplicated_ids_distinct (already_seen : list string)
  (images : list Image) :
  NoDup (map img_id images) ->
  (forall image, In image images -> ~ In (img_id image) already_seen) ->
  remove_duplicated_ids already_seen images = images.
Proof.
  revert already_seen. induction images as [|x rest IH];
    intros already_seen Hnd Hns; [reflexivity|].
  cbn [remove_duplicated_ids].
  destruct (existsb (String.eqb (img_id x)) already_seen) eqn:E.
  - apply seen_iff in E. exfalso. exact (Hns x (or_introl eq_refl) E).
  - cbn [map] in Hnd. inversion Hnd as [|? ? Hx Hnd']; subst.
    f_equal. apply IH; [exact Hnd'|].
    intros image Hin [Heq|Hs].
    + apply Hx. rewrite Heq. apply in_map. exact Hin.
    + exact (Hns image (or_intror Hin) Hs).
Qed.

(** X29. The pass over the loaded images (lines 83-92 of base.py) leaves
    images with pairwise distinct ids and loses no id; the image it keeps for
    an id is the first of the list with that id; a list whose ids are
    distinct already is returned as it is. *)
Theorem duplicated_ids_removed (images : list Image) :
  NoDup (map img_id (remove_duplicated_ids [] images)) /\
  (forall id, In id (map img_id images) <->
              In id (map img_id (remove_duplicated_ids [] images))) /\
  (forall image, In image (remove_duplicated_ids [] images) ->
     exists before after,
       images = before ++ image :: after /\
       ~ In (img_id image) (map img_id before)) /\
  (NoDup (map img_id images) -> remove_duplicated_ids [] images = images).
Proof.
  split; [apply remove_duplicated_ids_NoDup|].
  split; [|split].
  - intro id. rewrite remove_duplicated_ids_ids. cbn [In]. tauto.
  - apply remove_duplicated_ids_first.
  - intro Hnd. apply remove_duplicated_ids_distinct; [exact Hnd|].
    intros image _ [].
Qed.

Section LoadImagesFacts.
Context {folders : Folders}.

(** X30. [load_images] never returns the dataset. When a folder cannot be
    read the exception leaves the dataset untouched; otherwise the images
    read, without those whose id came earlier in the same load, are appended
    to [dataset.images] (ids the dataset had before are not looked at) and
    then reading [dataset.groups] raises an [AttributeError]. *)
Theorem load_images_extends_then_raises (dataset : Dataset) (path : string)
  (paths : option (list string)) (recursive : bool) :
  match read_all (match paths with
                  | Some (p :: ps) => p :: ps
                  | _ => [path]
                  end) recursive with
  | Raise e => load_images dataset path paths recursive = (dataset, Raise e)
  | Ok images =>
      exists added,
        load_images dataset path paths recursive
        = ({| ds_images := ds_images dataset ++ added;
              ds_categories := ds_categories dataset |},
           Raise AttributeError) /\
        NoDup (map img_id added) /\
        (forall id, In id (map img_id images) <-> In id (map img_id added))
  end.
Proof.
  unfold load_images.
  destruct (read_all _ recursive) as [images|e]; [|reflexivity].
  exists (remove_duplicated_ids [] images).
  split; [reflexivity|].
  split; [apply remove_duplicated_ids_NoDup|].
  intro id. rewrite remove_duplicated_ids_ids. cbn [In]. tauto.
Qed.

End LoadImagesFacts.
